(** * VS-Tal: the persona move selector and the chess clock

    A shallow embedding of [js/timer.js], [js/difficulty.js], the opening
    book and the [TalEngine] class, with the properties of the design
    specification stated and proved over it.

    Conventions of the embedding.
    - A JavaScript number is a rational ([Q]); the one infinite value
      the program uses, [Infinity], is a constructor of its own ([num]).
      A single operation is written exactly.  Where rounding decides a
      property, in the sum of many tenths the interval takes off a clock
      and in the sums of piece values of the evaluation bar, the
      operations are those of [Binary64]: the exact result rounded to 53
      significant bits.
      [NaN] only ever arises from [parseInt]/[charCodeAt] on a malformed
      square and is [None] in an [option Z]; every comparison with it is
      false, as in JavaScript.
    - A table indexed by a string ([TIME_CONTROLS], [DIFFICULTY_LEVELS])
      is the list of its own properties; the names an object inherits
      from [Object.prototype] are listed apart ([inherited]), and what a
      key loads is stated for keys that are not among them.
    - [Math.random()] is a stream of draws [nat -> Q], read through a cursor
      kept in the state.
    - [console.log] lines, [setTimeout] delays and the calls made to
      registered callbacks are recorded in a trace carried by the state; a
      callback is an observer and does not call back into the clock.
    - chess.js and the DOM are collaborators: a [Game] is the record of what
      the engine reads from a chess.js instance.  DOM rendering
      ([updateDisplay]) leaves the state of the clock untouched; what it
      writes to the page is modelled apart, in [TimerDisplay]. *)

From Stdlib Require Import QArith Qround Qabs ZArith String Ascii List Bool Lia Lqa.
From Stdlib Require Import Permutation.
From Stdlib Require DecimalString.
Import ListNotations.

Set Implicit Arguments.

Local Open Scope Q_scope.

(* ================================================================== *)
(** ** JavaScript primitives used by the sources *)
(* ================================================================== *)

Module JS.

(** [a < b] on numbers. *)
Definition ltb (a b : Q) : bool := negb (Qle_bool b a).

(** [a <= b] on numbers. *)
Definition leb (a b : Q) : bool := Qle_bool a b.

(** A number that is either finite or [Infinity]. *)
Inductive num : Type :=
| Fin (q : Q)
| Infinity.

Definition num_add (a : num) (q : Q) : num :=
  match a with Fin x => Fin (x + q) | Infinity => Infinity end.

Definition num_sub (a : num) (q : Q) : num :=
  match a with Fin x => Fin (x - q) | Infinity => Infinity end.

(** [a <= q] for a finite [q]. *)
Definition num_leb (a : num) (q : Q) : bool :=
  match a with Fin x => leb x q | Infinity => false end.

(** [0 <= a]. *)
Definition num_nonneg (a : num) : Prop :=
  match a with Fin x => 0 <= x | Infinity => True end.


(** The names an object literal inherits from [Object.prototype]:
    [TABLE[key]] for one of them is the inherited member, a function or
    the prototype, and not [undefined]. *)
Definition Object_prototype : list string :=
  [ "constructor"; "hasOwnProperty"; "isPrototypeOf"; "propertyIsEnumerable";
    "toLocaleString"; "toString"; "valueOf"; "__proto__";
    "__defineGetter__"; "__defineSetter__"; "__lookupGetter__";
    "__lookupSetter__" ]%string.

Definition inherited (key : string) : bool :=
  existsb (String.eqb key) Object_prototype.

End JS.

Import JS.

(* ================================================================== *)
(** ** Arithmetic on binary64 *)
(* ================================================================== *)

(** A finite JavaScript number is a rational with a 53-bit significand;
    an arithmetic operation returns the exact result rounded to the
    nearest such number, ties going to the even significand.  Below
    2^-1022 the numbers are spaced 2^-1074 apart.  A result of 2^1024 or
    more, which JavaScript makes infinite, is not modelled: the times of
    the clock and the material sums stay far below. *)
Module Binary64.

(** The integer nearest to [n / d], for [d > 0]; a tie goes to the even
    one. *)
Definition half_even (n d : Z) : Z :=
  let q := (n / d)%Z in
  let r := (n mod d)%Z in
  match (2 * r ?= d)%Z with
  | Lt => q
  | Gt => (q + 1)%Z
  | Eq => if Z.even q then q else (q + 1)%Z
  end.

(** [x / 2^e] as a fraction. *)
Definition scale (x : Q) (e : Z) : Z * Z :=
  if (0 <=? e)%Z then (Qnum x, (Zpos (Qden x) * 2 ^ e)%Z)
  else ((Qnum x * 2 ^ (- e))%Z, Zpos (Qden x)).

(** For [x > 0], the exponent [e] of the last place of [x]:
    [2^52 <= x / 2^e < 2^53], and [e] is not below -1074. *)
Definition exponent (x : Q) : Z :=
  let e := (Z.log2 (Qnum x) - Z.log2 (Zpos (Qden x)) - 53)%Z in
  let '(n, d) := scale x e in
  let e := if (2 ^ 53 <=? n / d)%Z then (e + 1)%Z else e in
  Z.max e (-1074).

Definition pow2 (e : Z) : Q :=
  if (0 <=? e)%Z then inject_Z (2 ^ e) else 1 # Z.to_pos (2 ^ (- e)).

Definition round_positive (x : Q) : Q :=
  let e := exponent x in
  let '(n, d) := scale x e in
  Qred (inject_Z (half_even n d) * pow2 e).

(** The binary64 number nearest to [x]. *)
Definition round (x : Q) : Q :=
  match Qnum (Qred x) with
  | Z0 => 0
  | Zpos _ => round_positive (Qred x)
  | Zneg _ => - round_positive (- Qred x)
  end.

(** [a + b], [a - b] and [a * b] on binary64 numbers. *)
Definition add (a b : Q) : Q := round (a + b).
Definition sub (a b : Q) : Q := round (a - b).
Definition mul (a b : Q) : Q := round (a * b).

End Binary64.

(* ================================================================== *)
(** ** js/timer.js *)
(* ================================================================== *)

Module Timer.

Inductive Side : Type := player | opponent.

(** A time-control preset; the display-only fields [name], [icon] and
    [description] are left out. *)
Record TimeControl : Type := mkControl {
  time : num;
  increment : Q
}.

Definition bullet : TimeControl := mkControl (Fin 180) 0.
Definition blitz : TimeControl := mkControl (Fin 300) 0.
Definition rapid : TimeControl := mkControl (Fin 600) 0.
Definition classical : TimeControl := mkControl (Fin 900) 10.
Definition unlimited : TimeControl := mkControl Infinity 0.

(** The [TIME_CONTROLS] object, in declaration order: its own
    properties.  For a key that is a name inherited from
    [Object.prototype] ([inherited]) the program reads the inherited
    member, which has no [time] and no [increment]; such keys are outside
    the table and outside [lookup], and every property that depends on
    what a key loads is stated for keys that are not inherited. *)
Definition TIME_CONTROLS : list (string * TimeControl) :=
  [ ("bullet", bullet); ("blitz", blitz); ("rapid", rapid);
    ("classical", classical); ("unlimited", unlimited) ]%string.

Fixpoint lookup (key : string) (table : list (string * TimeControl))
  : option TimeControl :=
  match table with
  | [] => None
  | (k, c) :: rest => if String.eqb key k then Some c else lookup key rest
  end.

(** What a registered callback has been called with. *)
Inductive Call : Type :=
| TimeoutCalled (loser : Side)
| TickCalled (playerTime opponentTime : num) (activeTimer : Side).

(** The fields of a [TimerManager].  [intervalId] is [true] while a
    [setInterval] handle is installed; a callback field is [true] when a
    function is registered.  [calls] is the trace of callback
    invocations, oldest first.  The field [increment] is [tm_increment]
    here, the name being taken by the preset's field. *)
Record TimerManager : Type := mkTimer {
  playerTime : num;
  opponentTime : num;
  tm_increment : Q;
  activeTimer : option Side;
  intervalId : bool;
  isPaused : bool;
  onTimeoutCallback : bool;
  onTickCallback : bool;
  currentTimeControl : string;
  calls : list Call
}.

Definition set_playerTime (v : num) (s : TimerManager) : TimerManager :=
  mkTimer v (opponentTime s) (tm_increment s) (activeTimer s) (intervalId s)
    (isPaused s) (onTimeoutCallback s) (onTickCallback s)
    (currentTimeControl s) (calls s).

Definition set_opponentTime (v : num) (s : TimerManager) : TimerManager :=
  mkTimer (playerTime s) v (tm_increment s) (activeTimer s) (intervalId s)
    (isPaused s) (onTimeoutCallback s) (onTickCallback s)
    (currentTimeControl s) (calls s).

Definition set_increment (v : Q) (s : TimerManager) : TimerManager :=
  mkTimer (playerTime s) (opponentTime s) v (activeTimer s) (intervalId s)
    (isPaused s) (onTimeoutCallback s) (onTickCallback s)
    (currentTimeControl s) (calls s).

Definition set_activeTimer (v : option Side) (s : TimerManager) : TimerManager :=
  mkTimer (playerTime s) (opponentTime s) (tm_increment s) v (intervalId s)
    (isPaused s) (onTimeoutCallback s) (onTickCallback s)
    (currentTimeControl s) (calls s).

Definition set_intervalId (v : bool) (s : TimerManager) : TimerManager :=
  mkTimer (playerTime s) (opponentTime s) (tm_increment s) (activeTimer s) v
    (isPaused s) (onTimeoutCallback s) (onTickCallback s)
    (currentTimeControl s) (calls s).

Definition set_isPaused (v : bool) (s : TimerManager) : TimerManager :=
  mkTimer (playerTime s) (opponentTime s) (tm_increment s) (activeTimer s)
    (intervalId s) v (onTimeoutCallback s) (onTickCallback s)
    (currentTimeControl s) (calls s).

Definition set_onTimeoutCallback (v : bool) (s : TimerManager) : TimerManager :=
  mkTimer (playerTime s) (opponentTime s) (tm_increment s) (activeTimer s)
    (intervalId s) (isPaused s) v (onTickCallback s)
    (currentTimeControl s) (calls s).

Definition set_onTickCallback (v : bool) (s : TimerManager) : TimerManager :=
  mkTimer (playerTime s) (opponentTime s) (tm_increment s) (activeTimer s)
    (intervalId s) (isPaused s) (onTimeoutCallback s) v
    (currentTimeControl s) (calls s).

Definition set_currentTimeControl (v : string) (s : TimerManager) : TimerManager :=
  mkTimer (playerTime s) (opponentTime s) (tm_increment s) (activeTimer s)
    (intervalId s) (isPaused s) (onTimeoutCallback s) (onTickCallback s)
    v (calls s).

Definition set_calls (v : list Call) (s : TimerManager) : TimerManager :=
  mkTimer (playerTime s) (opponentTime s) (tm_increment s) (activeTimer s)
    (intervalId s) (isPaused s) (onTimeoutCallback s) (onTickCallback s)
    (currentTimeControl s) v.

(** [new TimerManager()]. *)
Definition constructor : TimerManager :=
  mkTimer (Fin 0) (Fin 0) 0 None false true false false "rapid" [].

Definition is_unlimited (s : TimerManager) : bool :=
  String.eqb (currentTimeControl s) "unlimited".

Definition stopInterval (s : TimerManager) : TimerManager :=
  if intervalId s then set_intervalId false s else s.

(** [init(timeControlKey)], for a key that is not [inherited]: the own
    property of [TIME_CONTROLS], or the rapid preset where there is none. *)
Definition init (timeControlKey : string) (s : TimerManager) : TimerManager :=
  let control :=
    match lookup timeControlKey TIME_CONTROLS with
    | Some c => c
    | None => rapid
    end in
  let s := set_currentTimeControl timeControlKey s in
  let s := set_playerTime (time control) s in
  let s := set_opponentTime (time control) s in
  let s := set_increment (increment control) s in
  let s := set_activeTimer None s in
  let s := set_isPaused true s in
  stopInterval s.

Definition setTimeoutCallback (callback : bool) (s : TimerManager) : TimerManager :=
  set_onTimeoutCallback callback s.

Definition setTickCallback (callback : bool) (s : TimerManager) : TimerManager :=
  set_onTickCallback callback s.

Definition start (side : Side) (s : TimerManager) : TimerManager :=
  if is_unlimited s then s
  else
    let s := set_activeTimer (Some side) s in
    let s := set_isPaused false s in
    let s := stopInterval s in
    set_intervalId true s.

Definition pause (s : TimerManager) : TimerManager :=
  stopInterval (set_isPaused true s).

Definition resume (s : TimerManager) : TimerManager :=
  match activeTimer s with
  | Some _ =>
      if negb (is_unlimited s) then
        let s := set_isPaused false s in
        let s := stopInterval s in
        set_intervalId true s
      else s
  | None => s
  end.

Definition switchTimer (s : TimerManager) : TimerManager :=
  if is_unlimited s then s
  else
    let s :=
      match activeTimer s with
      | Some player => set_playerTime (num_add (playerTime s) (tm_increment s)) s
      | Some opponent => set_opponentTime (num_add (opponentTime s) (tm_increment s)) s
      | None => s
      end in
    set_activeTimer
      (match activeTimer s with
       | Some player => Some opponent
       | _ => Some player
       end) s.

Definition handleTimeout (loser : Side) (s : TimerManager) : TimerManager :=
  let s := stopInterval s in
  let s := set_isPaused true s in
  if onTimeoutCallback s then set_calls (calls s ++ [TimeoutCalled loser]) s
  else s.

(** [tick()], the subtraction written exactly.  [Timer64.tick] is the
    same handler with the difference rounded as JavaScript rounds it;
    what many periods add up to is stated there. *)
Definition tick (s : TimerManager) : TimerManager :=
  let notify (side : Side) (s : TimerManager) :=
    if onTickCallback s
    then set_calls
           (calls s ++ [TickCalled (playerTime s) (opponentTime s) side]) s
    else s in
  match isPaused s, activeTimer s with
  | true, _ => s
  | false, None => s
  | false, Some player =>
      let s := set_playerTime (num_sub (playerTime s) 0.1) s in
      if num_leb (playerTime s) 0
      then handleTimeout player (set_playerTime (Fin 0) s)
      else notify player s
  | false, Some opponent =>
      let s := set_opponentTime (num_sub (opponentTime s) 0.1) s in
      if num_leb (opponentTime s) 0
      then handleTimeout opponent (set_opponentTime (Fin 0) s)
      else notify opponent s
  end.

Definition reset (s : TimerManager) : TimerManager :=
  init (currentTimeControl s) (stopInterval s).

Definition getTime (side : Side) (s : TimerManager) : num :=
  match side with player => playerTime s | opponent => opponentTime s end.

(** One period of the 100 ms interval: the handler runs only while a
    handle is installed. *)
Definition interval_fires (s : TimerManager) : TimerManager :=
  if intervalId s then tick s else s.

Fixpoint elapse (periods : nat) (s : TimerManager) : TimerManager :=
  match periods with
  | O => s
  | S n => elapse n (interval_fires s)
  end.

(** The operations a caller, or the interval, can perform. *)
Inductive Op : Type :=
| OpInit (timeControlKey : string)
| OpSetTimeoutCallback (callback : bool)
| OpSetTickCallback (callback : bool)
| OpStart (side : Side)
| OpPause
| OpResume
| OpSwitchTimer
| OpTick
| OpIntervalFires
| OpReset.

Definition exec (op : Op) (s : TimerManager) : TimerManager :=
  match op with
  | OpInit k => init k s
  | OpSetTimeoutCallback c => setTimeoutCallback c s
  | OpSetTickCallback c => setTickCallback c s
  | OpStart side => start side s
  | OpPause => pause s
  | OpResume => resume s
  | OpSwitchTimer => switchTimer s
  | OpTick => tick s
  | OpIntervalFires => interval_fires s
  | OpReset => reset s
  end.

Definition run (ops : list Op) (s : TimerManager) : TimerManager :=
  fold_left (fun s op => exec op s) ops s.

(** States reachable from a fresh [TimerManager]. *)
Inductive reachable : TimerManager -> Prop :=
| reachable_new : reachable constructor
| reachable_step op s : reachable s -> reachable (exec op s).

(** *** Notions used to state the properties *)

Definition is_timeout (c : Call) : bool :=
  match c with TimeoutCalled _ => true | TickCalled _ _ _ => false end.

Definition is_tick (c : Call) : bool := negb (is_timeout c).

Definition otherSide (side : Side) : Side :=
  match side with player => opponent | opponent => player end.

(** What holds of every state a [TimerManager] can be in. *)
Record invariant (s : TimerManager) : Prop := mkInvariant {
  inv_player : num_nonneg (playerTime s);
  inv_opponent : num_nonneg (opponentTime s);
  inv_increment : 0 <= tm_increment s;
  inv_unlimited :
    is_unlimited s = true ->
    isPaused s = true /\ activeTimer s = None /\ intervalId s = false
}.


(** What one [tick] does to a running clock: the other side is left
    alone, and the active side either loses a tenth of a second or, when
    that would reach zero, is set to zero and times out. *)
Definition ticked (side : Side) (s s' : TimerManager) : Prop :=
  getTime (otherSide side) s' = getTime (otherSide side) s /\
  if num_leb (num_sub (getTime side s) 0.1) 0
  then getTime side s' = Fin 0 /\ isPaused s' = true /\ intervalId s' = false
       /\ calls s' =
          calls s ++ (if onTimeoutCallback s then [TimeoutCalled side] else [])
  else getTime side s' = num_sub (getTime side s) 0.1.

(** Operations that load a preset. *)
Definition initializes (op : Op) : bool :=
  match op with OpInit _ | OpReset => true | _ => false end.

(** Operations that run the interval handler. *)
Definition ticks (op : Op) : bool :=
  match op with OpTick | OpIntervalFires => true | _ => false end.



(** The player's clock is running with [q] seconds left. *)
Record running_player (s : TimerManager) (q : Q) : Prop := mkRunning {
  run_unpaused : isPaused s = false;
  run_active : activeTimer s = Some player;
  run_interval : intervalId s = true;
  run_time : exists x, playerTime s = Fin x /\ x == q
}.

End Timer.

(* ================================================================== *)
(** ** js/timer.js, the interval handler on binary64 *)
(* ================================================================== *)

(** [tick] with the subtraction as JavaScript performs it: the literal
    [0.1] is the binary64 number nearest to one tenth, and the difference
    is rounded.  The other methods do no arithmetic on a clock without
    increment and are those of [Timer]. *)
Module Timer64.

Import Timer.

(** The number the literal [0.1] denotes. *)
Definition tenth : Q := Binary64.round 0.1.

(** [a -= 0.1]. *)
Definition less_tenth (a : num) : num :=
  match a with
  | Fin x => Fin (Binary64.sub x tenth)
  | Infinity => Infinity
  end.

Definition tick (s : TimerManager) : TimerManager :=
  let notify (side : Side) (s : TimerManager) :=
    if onTickCallback s
    then set_calls
           (calls s ++ [TickCalled (playerTime s) (opponentTime s) side]) s
    else s in
  match isPaused s, activeTimer s with
  | true, _ => s
  | false, None => s
  | false, Some player =>
      let s := set_playerTime (less_tenth (playerTime s)) s in
      if num_leb (playerTime s) 0
      then handleTimeout player (set_playerTime (Fin 0) s)
      else notify player s
  | false, Some opponent =>
      let s := set_opponentTime (less_tenth (opponentTime s)) s in
      if num_leb (opponentTime s) 0
      then handleTimeout opponent (set_opponentTime (Fin 0) s)
      else notify opponent s
  end.

(** One period of the 100 ms interval. *)
Definition interval_fires (s : TimerManager) : TimerManager :=
  if intervalId s then tick s else s.

Fixpoint elapse (periods : nat) (s : TimerManager) : TimerManager :=
  match periods with
  | O => s
  | S n => elapse n (interval_fires s)
  end.

(** *** Notions used to state the properties *)

(** What a clock that stands at [x] reads after each of the next [n]
    subtractions of the tenth. *)
Fixpoint readings (n : nat) (x : Q) : list Q :=
  match n with
  | O => []
  | S k => let y := Binary64.sub x tenth in y :: readings k y
  end.

(** The most one subtraction of the tenth can be off, on a clock of at
    most 1024 seconds: 2^-42. *)
Definition drift : Q := 1 # 4398046511104.

(** The calls of the tick callback for the readings of the player's
    clock. *)
Definition tick_calls (opponentTime : num) (values : list Q) : list Call :=
  map (fun y => TickCalled (Fin y) opponentTime player) values.

End Timer64.

(* ================================================================== *)
(** ** Strings and arrays as the sources use them *)
(* ================================================================== *)

Module Str.

Local Open Scope string_scope.

(** [s.split(sep)] for a one-character separator: the pieces between
    occurrences, empty pieces included. *)
Fixpoint split_from (sep : ascii) (current : string) (s : string) : list string :=
  match s with
  | EmptyString => [current]
  | String c rest =>
      if Ascii.eqb c sep
      then current :: split_from sep "" rest
      else split_from sep (current ++ String c "") rest
  end.

Definition split (sep : ascii) (s : string) : list string :=
  split_from sep "" s.

(** [pieces.join(sep)]. *)
Fixpoint join (sep : string) (pieces : list string) : string :=
  match pieces with
  | [] => ""
  | [p] => p
  | p :: rest => p ++ sep ++ join sep rest
  end.

(** [s.startsWith(p)]. *)
Definition startsWith (s p : string) : bool := String.prefix p s.

(** [s.includes(sub)]. *)
Definition includes (s sub : string) : bool :=
  match String.index 0 sub s with Some _ => true | None => false end.

(** [list.includes(s)] on an array of strings. *)
Definition array_includes (list : list string) (s : string) : bool :=
  existsb (String.eqb s) list.

(** [s[i]]: [None] is [undefined]. *)
Definition at_ (s : string) (i : nat) : option ascii := String.get i s.

(** [s.charCodeAt(0)]: [None] is [NaN]. *)
Definition charCodeAt0 (s : string) : option Z :=
  match at_ s 0 with
  | Some c => Some (Z.of_nat (nat_of_ascii c))
  | None => None
  end.

Definition digit_value (c : ascii) : option Z :=
  let n := Z.of_nat (nat_of_ascii c) in
  if ((48 <=? n) && (n <=? 57))%Z then Some (n - 48)%Z else None.

(** [parseInt(s[i])] for a single character: its digit, or [NaN]. *)
Definition parseInt_at (s : string) (i : nat) : option Z :=
  match at_ s i with
  | Some c => digit_value c
  | None => None
  end.

(** [array[i]] for an index computed as a number: [None] is [undefined]. *)
Definition index {A : Type} (array : list A) (i : Z) : option A :=
  if (i <? 0)%Z then None else nth_error array (Z.to_nat i).

(** Arithmetic and comparisons that may meet [NaN]. *)
Definition nan_sub (a b : option Z) : option Z :=
  match a, b with Some x, Some y => Some (x - y)%Z | _, _ => None end.

Definition nan_add (a b : option Z) : option Z :=
  match a, b with Some x, Some y => Some (x + y)%Z | _, _ => None end.

Definition nan_abs (a : option Z) : option Z := option_map Z.abs a.

Definition nan_ltb (a b : option Z) : bool :=
  match a, b with Some x, Some y => (x <? y)%Z | _, _ => false end.

Definition nan_leb (a b : option Z) : bool :=
  match a, b with Some x, Some y => (x <=? y)%Z | _, _ => false end.

(** The numeric value where a guard has excluded [NaN]. *)
Definition value (a : option Z) : Q :=
  match a with Some x => inject_Z x | None => 0 end.

(** The entries of an object written as a literal, as [Object.entries]
    lists them: a key keeps the place of its first occurrence and takes
    the value of its last one. *)
Fixpoint assign {V : Type} (key : string) (v : V) (obj : list (string * V))
  : list (string * V) :=
  match obj with
  | [] => [(key, v)]
  | (k, old) :: rest =>
      if String.eqb k key then (k, v) :: rest else (k, old) :: assign key v rest
  end.

Definition object_literal {V : Type} (props : list (string * V))
  : list (string * V) :=
  fold_left (fun obj kv => assign (fst kv) (snd kv) obj) props [].

End Str.

(* ================================================================== *)
(** ** What the engine reads from chess.js *)
(* ================================================================== *)

Module ChessJS.

(** ['w'] and ['b']. *)
Inductive Color : Type := White | Black.

(** ['p'], ['n'], ['b'], ['r'], ['q'], ['k']. *)
Inductive PieceType : Type := pawn | knight | bishop | rook | queen | king.

Definition Color_eqb (a b : Color) : bool :=
  match a, b with White, White | Black, Black => true | _, _ => false end.

Definition letter (t : PieceType) : string :=
  match t with
  | pawn => "p" | knight => "n" | bishop => "b"
  | rook => "r" | queen => "q" | king => "k"
  end%string.

(** A verbose move object. *)
Record Move : Type := mkMove {
  color : Color;
  from : string;
  to : string;
  piece : PieceType;
  captured : option PieceType;
  promotion : option PieceType;
  san : string
}.

(** The observations of one chess.js instance. *)
Record Game : Type := mkGame {
  fen : string;
  moves : list Move;
  history : list Move;
  turn : Color;
  board : list (list (option (PieceType * Color)));
  in_check : bool;
  in_checkmate : bool
}.

(** The library itself: [new Chess(fen)] and [game.move(m)] on the
    instance so built. *)
Class Library : Type := {
  Chess : string -> Game;
  move : Game -> Move -> Game
}.

End ChessJS.

(* ================================================================== *)
(** ** js/difficulty.js *)
(* ================================================================== *)

Module Difficulty.

Import Str ChessJS.

(** A difficulty level; [description] and [icon] are left out. *)
Record Level : Type := mkLevel {
  name : string;
  rating : Z;
  stockfishDepth : Z;
  thinkTime : Q;
  talStyleIntensity : Q;
  mistakeRate : Q;
  sacrificeThreshold : Q
}.

Definition beginner : Level := mkLevel "Beginner" 800 3 500 0.2 0.3 (-5).
Definition intermediate : Level := mkLevel "Intermediate" 1200 7 800 0.4 0.15 (-3).
Definition advanced : Level := mkLevel "Advanced" 1600 12 1200 0.6 0.05 (-2).
Definition master : Level := mkLevel "Master" 2000 18 2000 0.8 0.02 (-1.5).
Definition legend : Level := mkLevel "Legend" 2700 25 3000 1.0 0 (-1).

Definition DIFFICULTY_LEVELS : list (string * Level) :=
  [ ("beginner", beginner); ("intermediate", intermediate);
    ("advanced", advanced); ("master", master); ("legend", legend) ]%string.

(** The weights of [TAL_STYLE_MODIFIERS].  The scoring functions take the
    table as an argument, so that the share of one weight in a score can
    be told apart; the program always passes [TAL_STYLE_MODIFIERS]. *)
Record Modifiers : Type := mkModifiers {
  sacrifice : Q;
  kingAttack : Q;
  check : Q;
  centerControl : Q;
  pieceActivity : Q;
  complexPosition : Q;
  defensiveMove : Q;
  simplification : Q;
  passivePiece : Q;
  openFiles : Q;
  kingUnsafe : Q
}.

Definition TAL_STYLE_MODIFIERS : Modifiers :=
  mkModifiers 150 100 80 50 40 60 (-30) (-80) (-50) 30 70.

(** The own properties of the table; a name [inherited] from
    [Object.prototype] is outside it, as for [TIME_CONTROLS]. *)
Fixpoint lookup (key : string) (table : list (string * Level)) : option Level :=
  match table with
  | [] => None
  | (k, l) :: rest => if String.eqb key k then Some l else lookup key rest
  end.

(** [DIFFICULTY_LEVELS[level] || DIFFICULTY_LEVELS.intermediate], for a
    name that is not [inherited]. *)
Definition getDifficulty (level : string) : Level :=
  match lookup level DIFFICULTY_LEVELS with
  | Some l => l
  | None => intermediate
  end.

(** [{ p: 1, n: 3, b: 3, r: 5, q: 9 }[t] || 0]. *)
Definition pieceValues_or_0 (t : PieceType) : Q :=
  match t with
  | pawn => 1 | knight => 3 | bishop => 3 | rook => 5 | queen => 9
  | king => 0
  end.

Definition files : string := "abcdefgh".

(** The decimal digit a small number prints as. *)
Definition digit (n : nat) : string :=
  String (ascii_of_nat (48 + n)) "".

Definition first_some {A B : Type} (f : A -> option B) (l : list A) : option B :=
  fold_right (fun a later => match f a with Some b => Some b | None => later end)
             None l.

(** Rows 0..7 are ranks 8..1.  chess.js boards are 8 by 8; a square
    missing from the array counts as empty here. *)
Definition findKingSquare (game : Game) (color : Color) : option string :=
  first_some (fun row =>
    first_some (fun col =>
      match nth_error (board game) row with
      | Some line =>
          match nth_error line col with
          | Some (Some (king, c)) =>
              if Color_eqb c color
              then match at_ files col with
                   | Some f => Some (String f (digit (8 - row)))
                   | None => None
                   end
              else None
          | _ => None
          end
      | None => None
      end) (seq 0 8)) (seq 0 8).

(** Manhattan distance; [None] is [NaN]. *)
Definition squareDistance (sq1 sq2 : string) : option Z :=
  let file1 := nan_sub (charCodeAt0 sq1) (charCodeAt0 "a") in
  let rank1 := nan_sub (parseInt_at sq1 1) (Some 1%Z) in
  let file2 := nan_sub (charCodeAt0 sq2) (charCodeAt0 "a") in
  let rank2 := nan_sub (parseInt_at sq2 1) (Some 1%Z) in
  nan_add (nan_abs (nan_sub file1 file2)) (nan_abs (nan_sub rank1 rank2)).

Definition other (c : Color) : Color :=
  match c with White => Black | Black => White end.

Definition is_knight_or_bishop (t : PieceType) : bool :=
  match t with knight | bishop => true | _ => false end.

Definition is_pawn (t : PieceType) : bool :=
  match t with pawn => true | _ => false end.

(** [move.from[1] === r] for a one-character [r]. *)
Definition rank_is (square : string) (r : ascii) : bool :=
  match at_ square 1 with Some c => Ascii.eqb c r | None => false end.

Definition calculateTalStyleBonus
    (W : Modifiers) (m : Move) (game : Game) (difficulty : Level) : Q :=
  let bonus := 0 in
  let intensity := talStyleIntensity difficulty in
  (* a capture by the bigger piece *)
  let bonus :=
    match captured m with
    | Some c =>
        let capturedValue := pieceValues_or_0 c in
        let movingValue := pieceValues_or_0 (piece m) in
        if ltb capturedValue movingValue
        then bonus + sacrifice W * intensity
        else bonus
    | None => bonus
    end in
  (* checks *)
  let bonus :=
    if includes (san m) "+" then bonus + check W * intensity else bonus in
  (* central pawn moves *)
  let bonus :=
    if is_pawn (piece m) then
      let centralFiles := ["d"; "e"]%string in
      match at_ (to m) 0 with
      | Some f =>
          if array_includes centralFiles (String f "")
          then bonus + centerControl W * intensity
          else bonus
      | None => bonus
      end
    else bonus in
  (* development in the opening *)
  let moveCount := length (history game) in
  let bonus :=
    if (moveCount <? 20)%nat then
      if (is_knight_or_bishop (piece m) && rank_is (from m) "1")
         || rank_is (from m) "8"
      then bonus + pieceActivity W * intensity
      else bonus
    else bonus in
  (* retreats *)
  let fromRank := parseInt_at (from m) 1 in
  let toRank := parseInt_at (to m) 1 in
  let isWhite := Color_eqb (color m) White in
  let bonus :=
    if (isWhite && nan_ltb toRank fromRank)
       || (negb isWhite && nan_ltb fromRank toRank)
    then match captured m with
         | None => bonus + passivePiece W * intensity
         | Some _ => bonus
         end
    else bonus in
  (* moves toward the enemy king *)
  let bonus :=
    match findKingSquare game (other (color m)) with
    | Some enemyKingSquare =>
        let distBefore := squareDistance (from m) enemyKingSquare in
        let distAfter := squareDistance (to m) enemyKingSquare in
        if nan_ltb distAfter distBefore
        then bonus + kingAttack W * intensity
                     * (value distBefore - value distAfter)
        else bonus
    | None => bonus
    end in
  bonus.

Definition isComplexPosition (game : Game) : bool :=
  let complexity := length (moves game) in
  let isMiddlegame :=
    ((10 <=? length (history game)) && (length (history game) <=? 40))%nat in
  (30 <? complexity)%nat && isMiddlegame.

(** [Math.random() < difficulty.mistakeRate], for the draw [r]. *)
Definition shouldMakeMistake (difficulty : Level) (r : Q) : bool :=
  ltb r (mistakeRate difficulty).

(** *** Notions used to state the properties *)

(** The table with one weight replaced. *)
Definition with_pieceActivity (v : Q) (W : Modifiers) : Modifiers :=
  mkModifiers (sacrifice W) (kingAttack W) (check W) (centerControl W) v
    (complexPosition W) (defensiveMove W) (simplification W) (passivePiece W)
    (openFiles W) (kingUnsafe W).

Definition with_complexPosition (v : Q) (W : Modifiers) : Modifiers :=
  mkModifiers (sacrifice W) (kingAttack W) (check W) (centerControl W)
    (pieceActivity W) v (defensiveMove W) (simplification W) (passivePiece W)
    (openFiles W) (kingUnsafe W).

(** A square of the board, ["a1"] to ["h8"], as chess.js names it. *)
Definition on_board (square : string) : bool :=
  match charCodeAt0 square, parseInt_at square 1 with
  | Some f, Some r =>
      ((97 <=? f) && (f <=? 104) && (1 <=? r) && (r <=? 8))%Z
      && (String.length square =? 2)%nat
  | _, _ => false
  end.

(** The condition of the development bonus as the source writes it:
    [&&] binds tighter than [||]. *)
Definition develops (m : Move) : bool :=
  (is_knight_or_bishop (piece m) && rank_is (from m) "1")
  || rank_is (from m) "8".

End Difficulty.

(* ================================================================== *)
(** ** The opening book ([TAL_OPENINGS]) *)
(* ================================================================== *)

Module Openings.

Import Str.

(** The properties of [TAL_OPENINGS.white] as the literal lists them. *)
Definition white_literal : list (string * list string) :=
  [
    ("rnbqkbnr/pppppppp/8/8/8/8/PPPPPPPP/RNBQKBNR w KQkq -",
     ["e2e4"]);
    ("rnbqkbnr/pp1ppppp/8/2p5/4P3/8/PPPP1PPP/RNBQKBNR w KQkq -",
     ["g1f3"]);
    ("rnbqkbnr/pp2pppp/3p4/2p5/4P3/5N2/PPPP1PPP/RNBQKB1R w KQkq -",
     ["d2d4"]);
    ("r1bqkbnr/pp1ppppp/2n5/2p5/4P3/5N2/PPPP1PPP/RNBQKB1R w KQkq -",
     ["d2d4"]);
    ("rnbqkbnr/pp1p1ppp/4p3/2p5/4P3/5N2/PPPP1PPP/RNBQKB1R w KQkq -",
     ["d2d4"]);
    ("rnbqkbnr/pp2pppp/3p4/8/3pP3/5N2/PPP2PPP/RNBQKB1R w KQkq -",
     ["f3d4"]);
    ("rnbqkb1r/pp2pppp/3p1n2/8/3NP3/8/PPP2PPP/RNBQKB1R w KQkq -",
     ["b1c3"]);
    ("rnbqkb1r/1p2pppp/p2p1n2/8/3NP3/2N5/PPP2PPP/R1BQKB1R w KQkq -",
     ["c1g5"; "c1e3"; "f2f3"]);
    ("rnbqkb1r/pp2pp1p/3p1np1/8/3NP3/2N5/PPP2PPP/R1BQKB1R w KQkq -",
     ["c1e3"; "f2f3"]);
    ("rnbqkb1r/pp3ppp/3ppn2/8/3NP3/2N5/PPP2PPP/R1BQKB1R w KQkq -",
     ["g2g4"; "c1e3"]);
    ("rnbqkbnr/pppp1ppp/8/4p3/4P3/8/PPPP1PPP/RNBQKBNR w KQkq -",
     ["g1f3"; "f2f4"]);
    ("rnbqkbnr/pppp1ppp/8/4p3/4PP2/8/PPPP2PP/RNBQKBNR b KQkq -",
     ["e5f4"]);
    ("rnbqkbnr/pppp1ppp/8/8/4Pp2/8/PPPP2PP/RNBQKBNR w KQkq -",
     ["g1f3"]);
    ("r1bqkbnr/pppp1ppp/2n5/4p3/4P3/5N2/PPPP1PPP/RNBQKB1R w KQkq -",
     ["f1c4"; "d2d4"]);
    ("r1bqkbnr/pppp1ppp/2n5/4p3/2B1P3/5N2/PPPP1PPP/RNBQK2R b KQkq -",
     ["f1c5"; "g8f6"]);
    ("r1bqkbnr/pppp1ppp/2n5/4p3/3PP3/5N2/PPP2PPP/RNBQKB1R b KQkq -",
     ["e5d4"]);
    ("rnbqkbnr/pppp1ppp/4p3/8/4P3/8/PPPP1PPP/RNBQKBNR w KQkq -",
     ["d2d4"]);
    ("rnbqkbnr/ppp2ppp/4p3/3p4/3PP3/8/PPP2PPP/RNBQKBNR w KQkq -",
     ["b1c3"; "e4e5"]);
    ("rnbqkbnr/ppp2ppp/4p3/3pP3/3P4/8/PPP2PPP/RNBQKBNR b KQkq -",
     ["c7c5"]);
    ("rnbqkbnr/ppp2ppp/4p3/3p4/3PP3/2N5/PPP2PPP/R1BQKBNR b KQkq -",
     ["g8f6"; "d5e4"]);
    ("rnbqkbnr/pp1ppppp/2p5/8/4P3/8/PPPP1PPP/RNBQKBNR w KQkq -",
     ["d2d4"]);
    ("rnbqkbnr/pp2pppp/2p5/3p4/3PP3/8/PPP2PPP/RNBQKBNR w KQkq -",
     ["b1c3"; "e4e5"]);
    ("rnbqkbnr/pp2pppp/2p5/3pP3/3P4/8/PPP2PPP/RNBQKBNR b KQkq -",
     ["c8f5"]);
    ("rnbqkbnr/ppp1pppp/3p4/8/4P3/8/PPPP1PPP/RNBQKBNR w KQkq -",
     ["d2d4"]);
    ("rnbqkb1r/ppp1pppp/3p1n2/8/3PP3/8/PPP2PPP/RNBQKBNR w KQkq -",
     ["b1c3"]);
    ("rnbqkb1r/ppp1pppp/3p1n2/8/3PP3/2N5/PPP2PPP/R1BQKBNR b KQkq -",
     ["g7g6"]);
    ("rnbqkb1r/ppp1pp1p/3p1np1/8/3PP3/2N5/PPP2PPP/R1BQKBNR w KQkq -",
     ["f2f4"]);
    ("rnbqkb1r/pppppppp/5n2/8/4P3/8/PPPP1PPP/RNBQKBNR w KQkq -",
     ["e4e5"]);
    ("rnbqkb1r/pppppppp/8/3nP3/8/8/PPPP1PPP/RNBQKBNR w KQkq -",
     ["d2d4"])
  ]%string.

(** The properties of [TAL_OPENINGS.black] as the literal lists them. *)
Definition black_literal : list (string * list string) :=
  [
    ("rnbqkbnr/pppppppp/8/8/4P3/8/PPPP1PPP/RNBQKBNR b KQkq -",
     ["c7c5"]);
    ("rnbqkbnr/pp1ppppp/8/2p5/4P3/5N2/PPPP1PPP/RNBQKB1R b KQkq -",
     ["d7d6"]);
    ("rnbqkbnr/pp2pppp/3p4/2p5/3PP3/5N2/PPP2PPP/RNBQKB1R b KQkq -",
     ["c5d4"]);
    ("rnbqkbnr/pp2pppp/3p4/8/3NP3/8/PPP2PPP/RNBQKB1R b KQkq -",
     ["g8f6"]);
    ("rnbqkb1r/pp2pppp/3p1n2/8/3NP3/2N5/PPP2PPP/R1BQKB1R b KQkq -",
     ["a7a6"]);
    ("rnbqkb1r/1p2pppp/p2p1n2/6B1/3NP3/2N5/PPP2PPP/R2QKB1R b KQkq -",
     ["e7e6"]);
    ("rnbqkb1r/1p2pppp/p2p1n2/8/3NP3/2N1B3/PPP2PPP/R2QKB1R b KQkq -",
     ["e7e5"; "e7e6"; "b8d7"]);
    ("rnbqkb1r/1p2pppp/p2p1n2/8/3NP3/2N5/PPP1BPPP/R1BQK2R b KQkq -",
     ["e7e5"]);
    ("rnbqkb1r/1p2pppp/p2p1n2/8/3NP3/2N2P2/PPP3PP/R1BQKB1R b KQkq -",
     ["e7e5"; "e7e6"]);
    ("rnbqkb1r/1p3ppp/p2ppn2/6B1/3NPP2/2N5/PPP3PP/R2QKB1R b KQkq -",
     ["d8b6"]);
    ("rnbqkbnr/pppppppp/8/8/3P4/8/PPP1PPPP/RNBQKBNR b KQkq -",
     ["g8f6"]);
    ("rnbqkb1r/pppppppp/5n2/8/2PP4/8/PP2PPPP/RNBQKBNR b KQkq -",
     ["g7g6"]);
    ("rnbqkb1r/pppppp1p/5np1/8/2PP4/2N5/PP2PPPP/R1BQKBNR b KQkq -",
     ["f8g7"]);
    ("rnbqkb1r/pppppp1p/5np1/8/2PPP3/2N5/PP3PPP/R1BQKBNR b KQkq -",
     ["d7d6"]);
    ("rnbqk2r/ppp1ppbp/3p1np1/8/2PPP3/2N2N2/PP3PPP/R1BQKB1R b KQkq -",
     ["e8g8"]);
    ("rnbq1rk1/ppp1ppbp/3p1np1/8/2PPP3/2N2N2/PP2BPPP/R1BQK2R b KQkq -",
     ["e7e5"]);
    ("rnbqk2r/ppp1ppbp/3p1np1/8/2PPP3/2N2P2/PP4PP/R1BQKBNR b KQkq -",
     ["e8g8"]);
    ("rnbq1rk1/ppp1ppbp/3p1np1/8/2PPP3/2N2P2/PP4PP/R1BQKBNR b KQkq -",
     ["e7e5"; "c7c5"]);
    ("rnbqk2r/ppp1ppbp/3p1np1/8/2PPPP2/2N5/PP4PP/R1BQKBNR b KQkq -",
     ["e8g8"; "c7c5"]);
    ("rnbq1rk1/ppp1ppbp/3p1np1/8/2PPP3/2N2P2/PP2N1PP/R1BQKB1R b KQkq -",
     ["e7e5"]);
    ("rnbq1rk1/ppp2pbp/3p1np1/4p3/2PPP3/2N2N2/PP2BPPP/R1BQK2R b KQkq -",
     ["b8c6"; "b8d7"]);
    ("rnbqkbnr/pppppppp/8/8/2P5/8/PP1PPPPP/RNBQKBNR b KQkq -",
     ["e7e5"; "g8f6"; "c7c5"]);
    ("rnbqkbnr/pppp1ppp/8/4p3/2P5/2N5/PP1PPPPP/R1BQKBNR b KQkq -",
     ["g8f6"; "b8c6"]);
    ("rnbqkbnr/pppppppp/8/8/8/5N2/PPPPPPPP/RNBQKB1R b KQkq -",
     ["d7d5"; "g8f6"]);
    ("rnbqkb1r/pppppppp/5n2/8/2PP4/8/PP2PPPP/RNBQKBNR b KQkq -",
     ["c7c5"; "g7g6"]);
    ("rnbqkb1r/pp1ppppp/5n2/2pP4/2P5/8/PP2PPPP/RNBQKBNR b KQkq -",
     ["e7e6"]);
    ("rnbqkb1r/pp1p1ppp/4pn2/2pP4/8/2N5/PP2PPPP/R1BQKBNR b KQkq -",
     ["d7d6"]);
    ("rnbqkb1r/pp3ppp/3ppn2/2pP4/4P3/2N5/PP3PPP/R1BQKBNR b KQkq -",
     ["g7g6"])
  ]%string.

(** [Object.entries(TAL_OPENINGS.white)] and
    [Object.entries(TAL_OPENINGS.black)]. *)
Definition white : list (string * list string) :=
  object_literal white_literal.

Definition black : list (string * list string) :=
  object_literal black_literal.

End Openings.

(* ================================================================== *)
(** ** The engine ([TalEngine]) *)
(* ================================================================== *)

Module Engine.

Import Str ChessJS Difficulty.

(** A move descriptor [{ from, to, promotion }]; a missing [promotion] is
    [undefined]. *)
Record MoveObject : Type := mkMoveObject {
  mo_from : string;
  mo_to : string;
  mo_promotion : option string
}.

(** The fields of a [TalEngine]. *)
Record TalEngine : Type := mkEngine {
  difficulty : Level;
  isThinking : bool;
  game : option Game
}.

Inductive Line : Type :=
| DifficultySet (name : string) (rating : Z)
| PlaysFromBook (bookMove : MoveObject)
| MakesMistake
| Plays (san : string) (score : Q).

(** What a run leaves behind: console lines, timed waits, and the moves
    [evaluateMove] was called on. *)
Inductive Event : Type :=
| Logged (line : Line)
| Slept (ms : Q)
| Evaluated (m : Move).

(** The surroundings of the engine: the draws [Math.random()] will
    return, how many were taken, and the events so far, oldest first. *)
Record World : Type := mkWorld {
  draws : nat -> Q;
  cursor : nat;
  output : list Event
}.

Inductive Result (A : Type) : Type :=
| Returned (a : A)
| TypeError.
Arguments Returned {A} a.
Arguments TypeError {A}.

(** A method: it runs on the engine and its surroundings, and returns or
    throws. *)
Definition M (A : Type) : Type :=
  TalEngine * World -> Result A * (TalEngine * World).

Definition ret {A : Type} (a : A) : M A := fun s => (Returned a, s).

Definition bind {A B : Type} (c : M A) (k : A -> M B) : M B :=
  fun s =>
    match c s with
    | (Returned a, s') => k a s'
    | (TypeError, s') => (TypeError, s')
    end.

Definition throw {A : Type} : M A := fun s => (TypeError, s).

Notation "x <- c ;; k" := (bind c (fun x => k))
  (at level 61, c at next level, right associativity).
Notation "c ;;; k" := (bind c (fun _ => k))
  (at level 61, right associativity).

Definition random : M Q :=
  fun '(this, w) =>
    (Returned (draws w (cursor w)),
     (this, mkWorld (draws w) (S (cursor w)) (output w))).

Definition emit (e : Event) : M unit :=
  fun '(this, w) =>
    (Returned tt, (this, mkWorld (draws w) (cursor w) (output w ++ [e]))).

Fixpoint emit_all (es : list Event) : M unit :=
  match es with
  | [] => ret tt
  | e :: rest => emit e ;;; emit_all rest
  end.

Definition get_this : M TalEngine :=
  fun '(this, w) => (Returned this, (this, w)).

Definition this_difficulty : M Level :=
  fun '(this, w) => (Returned (difficulty this), (this, w)).

Definition set_difficulty (d : Level) : M unit :=
  fun '(this, w) => (Returned tt, (mkEngine d (isThinking this) (game this), w)).

Definition set_isThinking (v : bool) : M unit :=
  fun '(this, w) => (Returned tt, (mkEngine (difficulty this) v (game this), w)).

Definition set_game (g : Game) : M unit :=
  fun '(this, w) =>
    (Returned tt, (mkEngine (difficulty this) (isThinking this) (Some g), w)).

(** [new TalEngine()]. *)
Definition constructor : TalEngine := mkEngine intermediate false None.

Definition setDifficulty (level : string) : M unit :=
  set_difficulty (getDifficulty level) ;;;
  d <- this_difficulty ;;
  emit (Logged (DifficultySet (name d) (rating d))).

Definition setGame (g : Game) : M unit := set_game g.

Definition simulateThinking : M unit :=
  d <- this_difficulty ;;
  let baseTime := thinkTime d in
  let variance := baseTime * 0.3 in
  r <- random ;;
  let thinkTime := baseTime + (r * variance) - (variance / 2) in
  emit (Slept thinkTime).

(** [Math.floor(r * list.length)]. *)
Definition pick_index {A : Type} (r : Q) (list : list A) : Z :=
  Qfloor (r * inject_Z (Z.of_nat (length list))).

Definition convertToMoveObject (uci : option string) : option MoveObject :=
  match uci with
  | None => None
  | Some uci =>
      if (String.length uci <? 4)%nat then None
      else Some (mkMoveObject
                   (substring 0 2 uci)
                   (substring 2 2 uci)
                   (if (4 <? String.length uci)%nat
                    then Some (substring 4 1 uci) else None))
  end.

Definition simplify (fen : string) : string :=
  join " " (firstn 4 (split " " fen)).

(** The [for ... of Object.entries(book)] loop. *)
Fixpoint book_loop (simpleFen : string) (entries : list (string * list string))
  : M (option MoveObject) :=
  match entries with
  | [] => ret None
  | (position, moves) :: rest =>
      if startsWith simpleFen (simplify position) then
        r <- random ;;
        let selectedMove := index moves (pick_index r moves) in
        ret (convertToMoveObject selectedMove)
      else book_loop simpleFen rest
  end.

Definition getOpeningBookMove (fen : string) (color : string)
  : M (option MoveObject) :=
  let simpleFen := simplify fen in
  let book := if String.eqb color "white" then Openings.white else Openings.black in
  book_loop simpleFen book.

Definition descriptor (m : Move) : MoveObject :=
  mkMoveObject (from m) (to m) (option_map letter (promotion m)).

Definition getRandomMove (moves : list Move) : M MoveObject :=
  r <- random ;;
  match index moves (pick_index r moves) with
  | Some randomMove => ret (descriptor randomMove)
  | None => throw
  end.

(** An element of [scoredMoves]. *)
Record Scored : Type := mkScored {
  s_move : Move;
  score : Q
}.

(** [scoredMoves.sort((a, b) => b.score - a.score)].  The sort is stable
    and the comparator a total preorder, so the result is the one stable
    descending arrangement; inserting from the right builds it. *)
Fixpoint insert (x : Scored) (sorted : list Scored) : list Scored :=
  match sorted with
  | [] => [x]
  | y :: rest =>
      if leb (score y - score x) 0 then x :: y :: rest
      else y :: insert x rest
  end.

Definition sort (l : list Scored) : list Scored := fold_right insert [] l.

Section Scoring.

Context {chess : Library}.

(** The weights in force ([TAL_STYLE_MODIFIERS] in the program). *)
Variable W : Modifiers.

(** [{ p: 100, n: 320, b: 330, r: 500, q: 900, k: 0 }]. *)
Definition pieceValues (t : PieceType) : Q :=
  match t with
  | pawn => 100 | knight => 320 | bishop => 330
  | rook => 500 | queen => 900 | king => 0
  end.

Definition is_attack (m : Move) : bool :=
  includes (san m) "+" ||
  match captured m with Some _ => true | None => false end.

(** [pieceValues[move.captured] || 0] is 0 for a missing capture. *)
Definition evaluateSacrifice (this : TalEngine) (m : Move) (game : Game) : Q :=
  let bonus := 0 in
  let movingPieceValue := pieceValues_or_0 (piece m) in
  let capturedValue :=
    match captured m with Some c => pieceValues_or_0 c | None => 0 end in
  if ltb capturedValue movingPieceValue then
    let materialLoss := movingPieceValue - capturedValue in
    let tempGame := move (Chess (fen game)) m in
    let attackMoves := filter is_attack (moves tempGame) in
    let bonus :=
      if (2 <? length attackMoves)%nat
      then bonus + (100 * materialLoss) * talStyleIntensity (difficulty this)
      else bonus in
    let bonus :=
      if leb materialLoss (Qabs (sacrificeThreshold (difficulty this)))
      then bonus + 50 * talStyleIntensity (difficulty this)
      else bonus in
    bonus
  else bonus.

Definition evaluateKingAttack (this : TalEngine) (m : Move) (game : Game) : Q :=
  let score := 0 in
  let talColor := turn game in
  let enemyColor := other talColor in
  match findKingSquare game enemyColor with
  | None => 0
  | Some enemyKingSquare =>
      let distBefore := squareDistance (from m) enemyKingSquare in
      let distAfter := squareDistance (to m) enemyKingSquare in
      let score :=
        if nan_ltb distAfter distBefore
        then score + (value distBefore - value distAfter) * 20
                     * talStyleIntensity (difficulty this)
        else score in
      let score :=
        if nan_leb distAfter (Some 3%Z)
        then score + 30 * talStyleIntensity (difficulty this)
        else score in
      score
  end.

Definition centralSquares : list string :=
  ["d4"; "d5"; "e4"; "e5"; "c4"; "c5"; "f4"; "f5"]%string.

Definition is_king (t : PieceType) : bool :=
  match t with king => true | _ => false end.

Definition evaluatePieceActivity (this : TalEngine) (m : Move) (game : Game) : Q :=
  let score := 0 in
  let score :=
    if array_includes centralSquares (to m) then score + 25 else score in
  let isWhite := Color_eqb (color m) White in
  let backRank := if isWhite then "1"%char else "8"%char in
  let score :=
    if rank_is (from m) backRank && negb (is_king (piece m))
    then score + 20 else score in
  let score :=
    if (length (history game) <? 10)%nat then
      let movedBefore :=
        existsb (fun h => String.eqb (from h) (from m)
                          || String.eqb (to h) (from m))
                (history game) in
      if movedBefore then score - 15 else score
    else score in
  score.

Definition evaluateMove (this : TalEngine) (m : Move) (game : Game) : Q :=
  let score := 0 in
  let score :=
    match captured m with
    | Some c => score + pieceValues c * 1.5
    | None => score
    end in
  let score := score + calculateTalStyleBonus W m game (difficulty this) in
  let tempGame := move (Chess (fen game)) m in
  let score :=
    if in_checkmate tempGame then score + 100000
    else if in_check tempGame then score + check W
    else score in
  let score :=
    match captured m with
    | Some _ => score + evaluateSacrifice this m game
    | None => score
    end in
  let score :=
    if isComplexPosition game
    then score + complexPosition W * talStyleIntensity (difficulty this)
    else score in
  let score := score + evaluateKingAttack this m game in
  let score := score + evaluatePieceActivity this m game in
  score.

(** [moves.map(move => ({ move, score: this.evaluateMove(move, game) }))]. *)
Definition score_all (this : TalEngine) (moves : list Move) (game : Game)
  : list Scored :=
  map (fun m => mkScored m (evaluateMove this m game)) moves.

(** [Math.max(1, Math.ceil(3 * (1 - intensity * 0.5)))]. *)
Definition pool_size (d : Level) : Z :=
  Z.max 1 (Qceiling (3 * (1 - talStyleIntensity d * 0.5))).

Definition calculateBestMove (game : Game) : M (option MoveObject) :=
  let moves := moves game in
  match moves with
  | [] => ret None
  | _ =>
      simulateThinking ;;;
      d <- this_difficulty ;;
      r <- random ;;
      if shouldMakeMistake d r then
        emit (Logged MakesMistake) ;;;
        picked <- getRandomMove moves ;;
        ret (Some picked)
      else
        this <- get_this ;;
        emit_all (map Evaluated moves) ;;;
        let scoredMoves := score_all this moves game in
        let scoredMoves := sort scoredMoves in
        let topMoves := firstn (Z.to_nat (pool_size d)) scoredMoves in
        r <- random ;;
        match index topMoves (pick_index r topMoves) with
        | Some selected =>
            emit (Logged (Plays (san (s_move selected)) (score selected))) ;;;
            ret (Some (descriptor (s_move selected)))
        | None => throw
        end
  end.

Definition getBestMove (game : Game) (playerColor : Color)
  : M (option MoveObject) :=
  set_game game ;;;
  set_isThinking true ;;;
  let talColor :=
    match playerColor with White => "black" | Black => "white" end%string in
  let fen := fen game in
  bookMove <- getOpeningBookMove fen talColor ;;
  match bookMove with
  | Some found =>
      emit (Logged (PlaysFromBook found)) ;;;
      simulateThinking ;;;
      set_isThinking false ;;;
      ret (Some found)
  | None =>
      found <- calculateBestMove game ;;
      set_isThinking false ;;;
      ret found
  end.

End Scoring.

(** *** Notions used to state the properties *)

(** The wait [simulateThinking] asks for, given its draw. *)
Definition think_delay (d : Level) (r : Q) : Q :=
  thinkTime d + (r * (thinkTime d * 0.3)) - (thinkTime d * 0.3 / 2).

(** A world later than [w]: [n] more draws taken, [events] added. *)
Definition later (n : nat) (events : list Event) (w : World) : World :=
  mkWorld (draws w) (n + cursor w) (output w ++ events).

(** Every draw is a number of [Math.random()]: in [0, 1). *)
Definition fair (w : World) : Prop :=
  forall n, 0 <= draws w n /\ draws w n < 1.

(** The FEN chess.js gives after 1.e4 from the initial position: the
    double pawn push sets the en-passant field to [e3]. *)
Definition fen_after_e4 : string :=
  "rnbqkbnr/pppppppp/8/8/4P3/8/PPPP1PPP/RNBQKBNR b KQkq e3 0 1".

(** The same position with the en-passant field left empty, as the book
    writes its keys. *)
Definition fen_after_e4_no_en_passant : string :=
  "rnbqkbnr/pppppppp/8/8/4P3/8/PPPP1PPP/RNBQKBNR b KQkq - 0 1".

(** Every key of a book is already in simplified form and every entry
    lists at least one move, each of four characters or more. *)
Definition well_formed_book (book : list (string * list string)) : bool :=
  forallb (fun e =>
             String.eqb (simplify (fst e)) (fst e)
             && negb (Nat.eqb (length (snd e)) 0)
             && forallb (fun uci => (4 <=? String.length uci)%nat) (snd e))
          book.

(** ['black'] for a player with White, ['white'] otherwise. *)
Definition talColor (playerColor : Color) : string :=
  match playerColor with White => "black" | Black => "white" end.

Definition book_of (color : string) : list (string * list string) :=
  if String.eqb color "white" then Openings.white else Openings.black.

(** Two scored moves for the same move whose scores differ by [k]. *)
Definition shifted (k : Q) (a b : Scored) : Prop :=
  s_move a = s_move b /\ score b == score a + k.

(** No element of [l] scores more than [top]. *)
Definition dominates (top : Scored) (l : list Scored) : Prop :=
  forall z, In z l -> score z <= score top.

(** A checking or capturing reply, as the specification words the test
    of the continuation bonus: after the reply the side to move is in
    check, or the reply captures.  [evaluateSacrifice] tests [is_attack]
    instead. *)
Definition checking_or_capturing {chess : Library} (tempGame : Game)
    (reply : Move) : bool :=
  in_check (move tempGame reply)
  || match captured reply with Some _ => true | None => false end.

End Engine.

(* ================================================================== *)
(** ** A position to try the engine on *)
(* ================================================================== *)

Module Examples.

Import Str ChessJS Difficulty Engine.

(** A stand-in for chess.js that knows a move by its SAN alone: chess.js
    ends the SAN of a checking move with [+] and of a mating move with
    [#].  The instance built from a FEN keeps the FEN; the one left by a
    move lists the given replies. *)
Definition scripted (replies : list Move) : Library := {|
  Chess := fun fen => mkGame fen [] [] White [] false false;
  move := fun g m =>
    mkGame (fen g) replies [] (other (color m)) []
      (includes (san m) "+") (includes (san m) "#")
|}.

Definition wP := Some (pawn, White).
Definition wN := Some (knight, White).
Definition wB := Some (bishop, White).
Definition wR := Some (rook, White).
Definition wQ := Some (queen, White).
Definition wK := Some (king, White).
Definition bP := Some (pawn, Black).
Definition bN := Some (knight, Black).
Definition bB := Some (bishop, Black).
Definition bR := Some (rook, Black).
Definition bQ := Some (queen, Black).
Definition bK := Some (king, Black).
Definition __ : option (PieceType * Color) := None.

Definition quiet (c : Color) (from to : string) (p : PieceType) (san : string) : Move :=
  mkMove c from to p None None san.

Definition takes (c : Color) (from to : string) (p x : PieceType) (san : string) : Move :=
  mkMove c from to p (Some x) None san.

Definition Qxf7_mate : Move := takes White "h5" "f7" queen pawn "Qxf7#".
Definition Qxe5_check : Move := takes White "h5" "e5" queen pawn "Qxe5+".
Definition Bxf7_check : Move := takes White "c4" "f7" bishop pawn "Bxf7+".
Definition Qxh7 : Move := takes White "h5" "h7" queen pawn "Qxh7".
Definition Nf3 : Move := quiet White "g1" "f3" knight "Nf3".
Definition d3 : Move := quiet White "d2" "d3" pawn "d3".

(** After 1.e4 e5 2.Bc4 Nc6 3.Qh5 Nf6, White to move; six of the legal
    moves. *)
Definition scholars_mate : Game := {|
  fen := "r1bqkb1r/pppp1ppp/2n2n2/4p2Q/2B1P3/8/PPPP1PPP/RNB1K1NR w KQkq - 4 4";
  moves := [Nf3; d3; Qxh7; Bxf7_check; Qxe5_check; Qxf7_mate];
  history :=
    [ quiet White "e2" "e4" pawn "e4"; quiet Black "e7" "e5" pawn "e5";
      quiet White "f1" "c4" bishop "Bc4"; quiet Black "b8" "c6" knight "Nc6";
      quiet White "d1" "h5" queen "Qh5"; quiet Black "g8" "f6" knight "Nf6" ];
  turn := White;
  board :=
    [ [bR; __; bB; bQ; bK; bB; __; bR];
      [bP; bP; bP; bP; __; bP; bP; bP];
      [__; __; bN; __; __; bN; __; __];
      [__; __; __; __; bP; __; __; wQ];
      [__; __; wB; __; wP; __; __; __];
      [__; __; __; __; __; __; __; __];
      [wP; wP; wP; wP; __; wP; wP; wP];
      [wR; wN; wB; __; wK; __; wN; wR] ];
  in_check := false;
  in_checkmate := false
|}.

(** After 1.e4 c5 2.Nf3, Black to move: a position of Black's book. *)
Definition sicilian : Game := {|
  fen := "rnbqkbnr/pp1ppppp/8/2p5/4P3/5N2/PPPP1PPP/RNBQKB1R b KQkq - 1 2";
  moves := [quiet Black "d7" "d6" pawn "d6"; quiet Black "b8" "c6" knight "Nc6"];
  history :=
    [ quiet White "e2" "e4" pawn "e4"; quiet Black "c7" "c5" pawn "c5";
      quiet White "g1" "f3" knight "Nf3" ];
  turn := Black;
  board :=
    [ [bR; bN; bB; bQ; bK; bB; bN; bR];
      [bP; bP; __; bP; bP; bP; bP; bP];
      [__; __; __; __; __; __; __; __];
      [__; __; bP; __; __; __; __; __];
      [__; __; __; __; wP; __; __; __];
      [__; __; __; __; __; wN; __; __];
      [wP; wP; wP; wP; __; wP; wP; wP];
      [wR; wN; wB; wQ; wK; wB; __; wR] ];
  in_check := false;
  in_checkmate := false
|}.

(** A king step off the back rank, early in a game. *)
Definition Ke7 : Move := quiet Black "e8" "e7" king "Ke7".

(** A world whose every draw is 0. *)
Definition calm : World := mkWorld (fun _ => 0) 0 [].

Definition legend_engine : TalEngine := mkEngine legend false None.

(** A stand-in for chess.js like [scripted], in which a mated side is in
    check as well, as [in_check()] of chess.js has it. *)
Definition annotated (replies : list Move) : Library := {|
  Chess := fun fen => mkGame fen [] [] White [] false false;
  move := fun g m =>
    mkGame (fen g) replies [] (other (color m)) []
      (includes (san m) "+" || includes (san m) "#") (includes (san m) "#")
|}.

(** White: Kh1, Qd1, pawns g2 and h2.  Black: Kg8, Re8, Bb7, Nf6, pawns
    d5, f7, g7 and h7.  White to move; four of the legal moves. *)
Definition Qxd5 : Move := takes White "d1" "d5" queen pawn "Qxd5".

Definition back_rank : Game := {|
  fen := "4r1k1/1b3ppp/5n2/3p4/8/8/6PP/3Q3K w - - 0 30";
  moves :=
    [ Qxd5; quiet White "d1" "e1" queen "Qe1";
      quiet White "h2" "h3" pawn "h3"; quiet White "h1" "g1" king "Kg1" ];
  history := [];
  turn := White;
  board :=
    [ [__; __; __; __; bR; __; bK; __];
      [__; bB; __; __; __; bP; bP; bP];
      [__; __; __; __; __; bN; __; __];
      [__; __; __; bP; __; __; __; __];
      [__; __; __; __; __; __; __; __];
      [__; __; __; __; __; __; __; __];
      [__; __; __; __; __; __; wP; wP];
      [__; __; __; wQ; __; __; __; wK] ];
  in_check := false;
  in_checkmate := false
|}.

(** Black's 28 replies to [Qxd5], with the SAN chess.js gives them when
    [mate] is ["#"]: the rook's move to e1 mates on the back rank, the
    bishop and the knight can take the queen, and no other reply checks
    or captures. *)
Definition replies_to_Qxd5 (mate : string) : list Move :=
  [ quiet Black "g8" "f8" king "Kf8"; quiet Black "g8" "h8" king "Kh8";
    quiet Black "e8" "a8" rook "Ra8"; quiet Black "e8" "b8" rook "Rb8";
    quiet Black "e8" "c8" rook "Rc8"; quiet Black "e8" "d8" rook "Rd8";
    quiet Black "e8" "f8" rook "Rf8"; quiet Black "e8" "e7" rook "Re7";
    quiet Black "e8" "e6" rook "Re6"; quiet Black "e8" "e5" rook "Re5";
    quiet Black "e8" "e4" rook "Re4"; quiet Black "e8" "e3" rook "Re3";
    quiet Black "e8" "e2" rook "Re2";
    quiet Black "e8" "e1" rook ("Re1" ++ mate);
    quiet Black "b7" "a8" bishop "Ba8"; quiet Black "b7" "c8" bishop "Bc8";
    quiet Black "b7" "a6" bishop "Ba6"; quiet Black "b7" "c6" bishop "Bc6";
    takes Black "b7" "d5" bishop queen "Bxd5";
    quiet Black "f6" "e4" knight "Ne4"; quiet Black "f6" "g4" knight "Ng4";
    quiet Black "f6" "h5" knight "Nh5"; quiet Black "f6" "d7" knight "Nd7";
    takes Black "f6" "d5" knight queen "Nxd5";
    quiet Black "g7" "g6" pawn "g6"; quiet Black "g7" "g5" pawn "g5";
    quiet Black "h7" "h6" pawn "h6"; quiet Black "h7" "h5" pawn "h5" ]%string.

Definition master_engine : TalEngine := mkEngine master false None.

End Examples.

(* ================================================================== *)
(** ** js/timer.js, the display *)
(* ================================================================== *)

Module TimerDisplay.

Import JS Timer.

Local Open Scope string_scope.

(** [n.toString()] for a natural number. *)
Definition toString (n : Z) : string :=
  DecimalString.NilZero.string_of_uint (N.to_uint (Z.to_N n)).

(** [s.padStart(width, '0')]. *)
Definition padStart0 (width : nat) (s : string) : string :=
  String.concat "" (repeat "0" (width - String.length s)) ++ s.

(** [x.toFixed(1)] for [x >= 0]: the tenths nearest to [x], the larger
    one on a tie, written with one decimal. *)
Definition toFixed1 (x : Q) : string :=
  let n := Qfloor (x * 10 + 0.5) in
  toString (n / 10) ++ "." ++ toString (n mod 10).

(** [formatTime(seconds)]. *)
Definition formatTime (seconds : num) : string :=
  match seconds with
  | Infinity => "∞"
  | Fin seconds =>
      if leb seconds 0 then "0:00"
      else
        let mins := Qfloor (seconds / 60) in
        let secs := seconds - 60 * inject_Z mins in
        if ltb seconds 20
        then toString mins ++ ":" ++ padStart0 4 (toFixed1 secs)
        else toString mins ++ ":" ++ padStart0 2 (toString (Qfloor secs))
  end.

(** A timer element: its text and its class list, an ordered set. *)
Record Element : Type := mkElement {
  textContent : string;
  classList : list string
}.

Definition classList_remove (c : string) (classes : list string) : list string :=
  filter (fun x => negb (String.eqb x c)) classes.

Definition classList_add (c : string) (classes : list string) : list string :=
  if existsb (String.eqb c) classes then classes else classes ++ [c].

Definition with_classes (classes : list string) (e : Element) : Element :=
  mkElement (textContent e) classes.

(** [updateTimerStyle(element, time, isActive)]. *)
Definition updateTimerStyle (s : TimerManager) (element : Element)
    (time : num) (isActive : bool) : Element :=
  let element :=
    with_classes
      (classList_remove "timer-critical"
         (classList_remove "timer-low"
            (classList_remove "timer-active" (classList element)))) element in
  if is_unlimited s then element
  else
    let element :=
      if isActive
      then with_classes (classList_add "timer-active" (classList element)) element
      else element in
    if num_leb time 30 && negb (num_leb time 10)
    then with_classes (classList_add "timer-low" (classList element)) element
    else if num_leb time 10
         then with_classes (classList_add "timer-critical" (classList element)) element
         else element.

(** The two elements [updateDisplay] looks up by id; [None] when the page
    has no such element. *)
Record Page : Type := mkPage {
  player_timer : option Element;
  opponent_timer : option Element
}.

Definition is_side (side : Side) (active : option Side) : bool :=
  match active, side with
  | Some player, player | Some opponent, opponent => true
  | _, _ => false
  end.

(** [updateDisplay()]. *)
Definition updateDisplay (s : TimerManager) (page : Page) : Page :=
  let render (side : Side) (el : option Element) :=
    match el with
    | Some e =>
        let e := mkElement (formatTime (getTime side s)) (classList e) in
        Some (updateTimerStyle s e (getTime side s) (is_side side (activeTimer s)))
    | None => None
    end in
  mkPage (render player (player_timer page))
         (render opponent (opponent_timer page)).

(** [getTimeControl()], for a current key that is not [inherited]:
    [None] is [undefined]. *)
Definition getTimeControl (s : TimerManager) : option TimeControl :=
  lookup (currentTimeControl s) TIME_CONTROLS.

(** *** Notions used to state the properties *)

Definition has_class (c : string) (e : Element) : bool :=
  existsb (String.eqb c) (classList e).

(** The clock of [side] is running with [q] seconds left. *)
Record running (side : Side) (s : TimerManager) (q : Q) : Prop := mkRunningSide {
  rs_unpaused : isPaused s = false;
  rs_active : activeTimer s = Some side;
  rs_interval : intervalId s = true;
  rs_time : exists x, getTime side s = Fin x /\ x == q
}.

(** How the interval, the pause flag and the active side hang together. *)
Record wired (s : TimerManager) : Prop := mkWired {
  wired_interval : intervalId s = negb (isPaused s);
  wired_active : isPaused s = false -> activeTimer s <> None;
  wired_finite : isPaused s = false -> is_unlimited s = false
}.

(** Operations that register a callback. *)
Definition registers (op : Op) : bool :=
  match op with
  | OpSetTimeoutCallback _ | OpSetTickCallback _ => true
  | _ => false
  end.


End TimerDisplay.

(* ================================================================== *)
(** ** The application: the evaluation bar and the move list *)
(* ================================================================== *)

Module Application.

Import JS Str ChessJS.

Local Open Scope string_scope.

(** [{ p: 1, n: 3, b: 3.2, r: 5, q: 9 }[t] || 0]; the literal [3.2] is
    the binary64 number nearest to it. *)
Definition pieceValues_or_0 (t : PieceType) : Q :=
  match t with
  | pawn => 1 | knight => 3 | bishop => Binary64.round 3.2 | rook => 5
  | queen => 9 | king => 0
  end.

(** The two sums the nested [forEach] of [updateEvaluation] builds, each
    addition rounded as JavaScript rounds it. *)
Definition count_piece (scores : Q * Q) (square : option (PieceType * Color))
  : Q * Q :=
  match square with
  | Some (t, c) =>
      let value := pieceValues_or_0 t in
      match c with
      | White => (Binary64.add (fst scores) value, snd scores)
      | Black => (fst scores, Binary64.add (snd scores) value)
      end
  | None => scores
  end.

Definition count_board (boardState : list (list (option (PieceType * Color))))
  : Q * Q :=
  fold_left (fun scores row => fold_left count_piece row scores)
            boardState (0, 0).

Definition Qmax (a b : Q) : Q := if leb a b then b else a.
Definition Qmin (a b : Q) : Q := if leb a b then a else b.

(** What [updateEvaluation] shows: the height of the white bar in per
    cent, the sign it prints, and the difference it prints. *)
Record Evaluation : Type := mkEvaluation {
  clampedPercent : Q;
  sign : string;
  diff : Q
}.

Definition updateEvaluation (boardState : list (list (option (PieceType * Color))))
  : Evaluation :=
  let '(whiteScore, blackScore) := count_board boardState in
  let diff := Binary64.sub whiteScore blackScore in
  let evalPercent := Binary64.add 50 (Binary64.mul diff 3) in
  let clampedPercent := Qmax 5 (Qmin 95 evalPercent) in
  let sign := if ltb 0 diff then "+" else "" in
  mkEvaluation clampedPercent sign diff.

(** A row of the move list: its number, White's move and Black's move,
    empty when Black has not moved yet. *)
Record Row : Type := mkRow {
  moveNum : nat;
  whiteMove : string;
  blackMove : string
}.

(** The rows the loop of [updateMoveHistory] appends, for the moves from
    index [2 * (number - 1)] on. *)
Fixpoint rows_from (number : nat) (moveHistory : list Move) : list Row :=
  match moveHistory with
  | [] => []
  | [w] => [mkRow number (san w) ""]
  | w :: b :: rest => mkRow number (san w) (san b) :: rows_from (S number) rest
  end.

(** [updateMoveHistory(move)]: the new history and the rows shown. *)
Definition updateMoveHistory (moveHistory : list Move) (m : Move)
  : list Move * list Row :=
  let moveHistory := (moveHistory ++ [m])%list in
  (moveHistory, rows_from 1 moveHistory).

(** *** Notions used to state the properties *)

(** The board with the colours of all pieces exchanged. *)
Definition swap_colors (boardState : list (list (option (PieceType * Color))))
  : list (list (option (PieceType * Color))) :=
  map (map (option_map (fun pc : PieceType * Color =>
                          (fst pc, match snd pc with
                                   | White => Black
                                   | Black => White
                                   end))))
      boardState.

(** The board after 1.e4 d5 2.exd5 Bh3 3.gxh3: White is a bishop and a
    pawn up. *)
Definition after_gxh3 : list (list (option (PieceType * Color))) :=
  let b (t : PieceType) := Some (t, Black) in
  let w (t : PieceType) := Some (t, White) in
  let o : option (PieceType * Color) := None in
  [ [b rook; b knight; o; b queen; b king; b bishop; b knight; b rook];
    [b pawn; b pawn; b pawn; o; b pawn; b pawn; b pawn; b pawn];
    [o; o; o; o; o; o; o; o];
    [o; o; o; w pawn; o; o; o; o];
    [o; o; o; o; o; o; o; o];
    [o; o; o; o; o; o; o; w pawn];
    [w pawn; w pawn; w pawn; w pawn; o; w pawn; o; w pawn];
    [w rook; w knight; w bishop; w queen; w king; w bishop; w knight; w rook] ].

(** The moves a list of rows shows, in order. *)
Fixpoint shown (rows : list Row) : list string :=
  match rows with
  | [] => []
  | r :: rest =>
      whiteMove r :: (if String.eqb (blackMove r) "" then shown rest
                      else blackMove r :: shown rest)
  end.

End Application.

(* ================================================================== *)
(** ** Notions used to state further properties of the engine *)
(* ================================================================== *)

Module Vocabulary.

Import JS Str ChessJS Difficulty Engine.

Local Open Scope string_scope.

(** The level [d] with another intensity. *)
Definition with_intensity (v : Q) (d : Level) : Level :=
  mkLevel (name d) (rating d) (stockfishDepth d) (thinkTime d) v
    (mistakeRate d) (sacrificeThreshold d).

(** The name of the square in row [row] and column [col] of
    [game.board()]. *)
Definition square_name (row col : nat) : option string :=
  match at_ files col with
  | Some f => Some (String f (digit (8 - row)))
  | None => None
  end.

(** The king of [color] stands in row [row], column [col]. *)
Definition king_at (game : Game) (color : Color) (row col : nat) : Prop :=
  exists line,
    nth_error (board game) row = Some line
    /\ nth_error line col = Some (Some (king, color)).

(** Row-major order of board coordinates. *)
Definition earlier (row col row' col' : nat) : Prop :=
  (row < row')%nat \/ (row = row' /\ col < col')%nat.

(** The UCI text of a move descriptor. *)
Definition uci_of (m : MoveObject) : string :=
  mo_from m ++ mo_to m ++
  match mo_promotion m with Some p => p | None => "" end.

(** A string in which the character [sep] does not occur. *)
Fixpoint free_of (sep : ascii) (s : string) : bool :=
  match s with
  | EmptyString => true
  | String c rest => negb (Ascii.eqb c sep) && free_of sep rest
  end.

(** The test of the retreat penalty: the move goes toward the mover's
    own back rank. *)
Definition retreats (m : Move) : bool :=
  let fromRank := parseInt_at (from m) 1 in
  let toRank := parseInt_at (to m) 1 in
  let isWhite := Color_eqb (color m) White in
  (isWhite && nan_ltb toRank fromRank)
  || (negb isWhite && nan_ltb fromRank toRank).

(** A list of scored moves in descending order of score. *)
Fixpoint descending (l : list Scored) : Prop :=
  match l with
  | [] => True
  | x :: rest => dominates x rest /\ descending rest
  end.

(** The elements of [l] whose score equals [q], in order. *)
Definition with_score (q : Q) (l : list Scored) : list Scored :=
  filter (fun x => Qeq_bool (score x) q) l.

(** No key of the book is a prefix of a key at another place; in
    particular no key stands twice. *)
Fixpoint prefix_free (book : list (string * list string)) : bool :=
  match book with
  | [] => true
  | e :: rest =>
      forallb (fun e' => negb (String.prefix (fst e) (fst e'))
                         && negb (String.prefix (fst e') (fst e))) rest
      && prefix_free rest
  end.

(** Every move a book lists is four characters naming two squares. *)
Definition book_moves_on_board (book : list (string * list string)) : bool :=
  forallb (fun e =>
    forallb (fun uci =>
      Nat.eqb (String.length uci) 4
      && on_board (substring 0 2 uci) && on_board (substring 2 2 uci))
      (snd e)) book.

End Vocabulary.

(* ================================================================== *)
(** * Properties *)
(* ================================================================== *)

Module JSFacts.

Lemma ltb_true (a b : Q) : ltb a b = true <-> a < b.
Proof.
  unfold ltb. rewrite negb_true_iff, <- not_true_iff_false, Qle_bool_iff.
  split; intro H; lra.
Qed.

Lemma ltb_false (a b : Q) : ltb a b = false <-> b <= a.
Proof.
  unfold ltb. rewrite negb_false_iff, Qle_bool_iff. reflexivity.
Qed.

Lemma leb_true (a b : Q) : leb a b = true <-> a <= b.
Proof. apply Qle_bool_iff. Qed.

Lemma leb_false (a b : Q) : leb a b = false <-> b < a.
Proof.
  unfold leb. rewrite <- not_true_iff_false, Qle_bool_iff.
  split; intro H; lra.
Qed.



Lemma num_nonneg_add (a : num) (q : Q) :
  num_nonneg a -> 0 <= q -> num_nonneg (num_add a q).
Proof. destruct a; simpl; intros; [lra | exact I]. Qed.

(** A decrement that does not reach zero leaves a positive number. *)
Lemma num_nonneg_sub (a : num) (q : Q) :
  num_leb (num_sub a q) 0 = false -> num_nonneg (num_sub a q).
Proof.
  destruct a; simpl; intro H; [| exact I].
  apply leb_false in H. lra.
Qed.

End JSFacts.

(* ================================================================== *)
(** * Rounding on binary64 *)
(* ================================================================== *)

Module Binary64Facts.

Local Open Scope Q_scope.

Lemma round_equal (x y : Q) : x == y -> Binary64.round x = Binary64.round y.
Proof.
  intro H. unfold Binary64.round. rewrite (Qred_complete x y H). reflexivity.
Qed.

Lemma round_opp (x : Q) : Binary64.round (- x) == - Binary64.round x.
Proof.
  unfold Binary64.round. rewrite Qred_opp.
  destruct (Qred x) as [[| n | n] d]; cbn [Qnum Qopp Z.opp].
  - reflexivity.
  - reflexivity.
  - rewrite Qopp_involutive. reflexivity.
Qed.

(** The integer [half_even] picks is within a half of the quotient. *)
Lemma half_even_error (n d : Z) :
  (0 < d)%Z ->
  (- d <= 2 * (Binary64.half_even n d * d - n) <= d)%Z.
Proof.
  intro Hd. unfold Binary64.half_even.
  pose proof (Z.div_mod n d ltac:(lia)) as Hdiv.
  pose proof (Z.mod_pos_bound n d Hd) as Hmod.
  set (q := (n / d)%Z) in *. set (r := (n mod d)%Z) in *.
  destruct (Z.compare_spec (2 * r) d) as [E | E | E];
    [destruct (Z.even q) |..]; lia.
Qed.

(** The last place of a number up to 1024 is 2^-42 or finer. *)
Lemma exponent_bound (p d : positive) :
  (Zpos p <= 1024 * Zpos d)%Z ->
  (-1074 <= Binary64.exponent (Zpos p # d) <= -42)%Z.
Proof.
  intro Hle. unfold Binary64.exponent. cbn [Qnum Qden].
  assert (Hlog : (Z.log2 (Zpos p) <= 10 + Z.log2 (Zpos d))%Z).
  { rewrite <- (Z.log2_mul_pow2 (Zpos d) 10) by lia.
    apply Z.log2_le_mono. change (2 ^ 10)%Z with 1024%Z. lia. }
  destruct (Binary64.scale (Zpos p # d)
              (Z.log2 (Zpos p) - Z.log2 (Zpos d) - 53)) as [n0 d0].
  destruct (2 ^ 53 <=? n0 / d0)%Z; lia.
Qed.

Lemma round_error (z : Q) :
  0 < z -> z <= 1024 ->
  Qabs (Binary64.round z - z) <= 1 # 8796093022208.
Proof.
  intros Hpos Hmax.
  pose proof (Qred_correct z) as Hred.
  unfold Binary64.round. destruct (Qred z) as [n d].
  rewrite <- Hred in Hpos, Hmax. rewrite <- Hred. clear Hred z.
  assert (Hn : (0 < n)%Z).
  { unfold Qlt in Hpos. cbn in Hpos. lia. }
  destruct n as [| p | p]; try lia. cbn [Qnum].
  assert (Hle : (Zpos p <= 1024 * Zpos d)%Z).
  { unfold Qle in Hmax. cbn in Hmax. lia. }
  pose proof (@exponent_bound p d Hle) as He.
  unfold Binary64.round_positive.
  set (e := Binary64.exponent (Zpos p # d)) in *. clearbody e.
  unfold Binary64.scale, Binary64.pow2.
  assert (E0 : (0 <=? e)%Z = false) by (apply Z.leb_gt; lia).
  rewrite E0. cbn [Qnum Qden].
  set (K := (2 ^ (- e))%Z).
  assert (HK : (2 ^ 42 <= K)%Z).
  { subst K. apply Z.pow_le_mono_r; lia. }
  assert (HKpos : (0 < K)%Z) by lia.
  pose proof (@half_even_error (Zpos p * K) (Zpos d) ltac:(lia)) as Hm.
  set (m := Binary64.half_even (Zpos p * K) (Zpos d)) in *. clearbody m.
  rewrite Qred_correct.
  apply Qabs_Qle_condition.
  unfold Qle, Qminus, Qplus, Qmult, Qopp, inject_Z. cbn [Qnum Qden].
  rewrite !Pos2Z.inj_mul, Z2Pos.id by lia.
  change (Zpos 8796093022208) with (2 * 2 ^ 42)%Z.
  change (Zpos 1) with 1%Z.
  split; nia.
Qed.

End Binary64Facts.

Module TimerFacts.

Import Timer JSFacts.

Lemma lookup_control (key : string) :
  let control :=
    match lookup key TIME_CONTROLS with Some c => c | None => rapid end in
  num_nonneg (time control) /\ 0 <= increment control.
Proof.
  simpl.
  repeat match goal with
         | |- context [String.eqb key ?k] => destruct (String.eqb key k)
         end; simpl; split; try exact I; lra.
Qed.

(** [init] overwrites everything but the callbacks and the trace. *)
Lemma init_fields (key : string) (s : TimerManager) :
  init key s =
  let control :=
    match lookup key TIME_CONTROLS with Some c => c | None => rapid end in
  mkTimer (time control) (time control) (increment control) None false true
    (onTimeoutCallback s) (onTickCallback s) key (calls s).
Proof.
  unfold init, stopInterval. cbv zeta.
  generalize (match lookup key TIME_CONTROLS with Some c => c | None => rapid end).
  intro control. destruct s as [pt ot inc act int paused cbT cbK key0 cs].
  cbn. destruct int; reflexivity.
Qed.

Lemma init_invariant (key : string) (s : TimerManager) : invariant (init key s).
Proof.
  rewrite init_fields. cbv zeta.
  destruct (lookup_control key) as [Ht Hi]. revert Ht Hi.
  generalize (match lookup key TIME_CONTROLS with Some c => c | None => rapid end).
  intros control Ht Hi.
  constructor; cbn; auto.
Qed.

(** [tick] by cases, as the source reads. *)
Lemma tick_idle (s : TimerManager) :
  isPaused s = true \/ activeTimer s = None -> tick s = s.
Proof.
  unfold tick. intros [H | H]; rewrite H.
  - destruct (activeTimer s) as [[|]|]; reflexivity.
  - destruct (isPaused s); reflexivity.
Qed.

Lemma tick_player (s : TimerManager) :
  isPaused s = false -> activeTimer s = Some player ->
  tick s =
  let s1 := set_playerTime (num_sub (playerTime s) 0.1) s in
  if num_leb (num_sub (playerTime s) 0.1) 0
  then handleTimeout player (set_playerTime (Fin 0) s1)
  else if onTickCallback s
       then set_calls (calls s ++ [TickCalled (playerTime s1) (opponentTime s) player]) s1
       else s1.
Proof. unfold tick. intros -> ->. reflexivity. Qed.

Lemma tick_opponent (s : TimerManager) :
  isPaused s = false -> activeTimer s = Some opponent ->
  tick s =
  let s1 := set_opponentTime (num_sub (opponentTime s) 0.1) s in
  if num_leb (num_sub (opponentTime s) 0.1) 0
  then handleTimeout opponent (set_opponentTime (Fin 0) s1)
  else if onTickCallback s
       then set_calls (calls s ++ [TickCalled (playerTime s) (opponentTime s1) opponent]) s1
       else s1.
Proof. unfold tick. intros -> ->. reflexivity. Qed.

Lemma tick_cases (s : TimerManager) :
  (isPaused s = true \/ activeTimer s = None) \/
  (isPaused s = false /\ activeTimer s = Some player) \/
  (isPaused s = false /\ activeTimer s = Some opponent).
Proof.
  destruct (isPaused s); [left; left; reflexivity |].
  destruct (activeTimer s) as [[|]|]; auto.
Qed.

Lemma handleTimeout_invariant (loser : Side) (s : TimerManager) :
  invariant s -> invariant (handleTimeout loser s).
Proof.
  intros [Hp Ho Hi Hu]. unfold handleTimeout, stopInterval, is_unlimited in *.
  destruct s as [pt ot inc act int paused cbT cbK key0 cs]; cbn in *.
  destruct int; cbn; destruct cbT; constructor; cbn; auto;
    intro H; destruct (Hu H) as (? & ? & ?); auto; discriminate.
Qed.

Lemma tick_invariant (s : TimerManager) : invariant s -> invariant (tick s).
Proof.
  intros Hinv.
  destruct (tick_cases s) as [Hidle | [[Hrun Hact] | [Hrun Hact]]].
  - rewrite (tick_idle s Hidle). assumption.
  - rewrite (tick_player s Hrun Hact). cbv zeta.
    destruct Hinv as [Hp Ho Hi Hu].
    destruct (num_leb (num_sub (playerTime s) 0.1) 0) eqn:Ezero.
    + apply handleTimeout_invariant. constructor; cbn; auto. lra.
    + apply num_nonneg_sub in Ezero.
      destruct (onTickCallback s); constructor; cbn; auto.
  - rewrite (tick_opponent s Hrun Hact). cbv zeta.
    destruct Hinv as [Hp Ho Hi Hu].
    destruct (num_leb (num_sub (opponentTime s) 0.1) 0) eqn:Ezero.
    + apply handleTimeout_invariant. constructor; cbn; auto. lra.
    + apply num_nonneg_sub in Ezero.
      destruct (onTickCallback s); constructor; cbn; auto.
Qed.

Lemma start_invariant (side : Side) (s : TimerManager) :
  invariant s -> invariant (start side s).
Proof.
  intro Hinv. unfold start.
  destruct (is_unlimited s) eqn:E; [assumption |].
  destruct Hinv as [Hp Ho Hi Hu]. unfold stopInterval, is_unlimited in *.
  destruct s as [pt ot inc act int paused cbT cbK key0 cs]; cbn in *.
  destruct int; constructor; cbn; auto; rewrite E; discriminate.
Qed.

Lemma pause_invariant (s : TimerManager) : invariant s -> invariant (pause s).
Proof.
  intros [Hp Ho Hi Hu]. unfold pause, stopInterval, is_unlimited in *.
  destruct s as [pt ot inc act int paused cbT cbK key0 cs]; cbn in *.
  destruct int; constructor; cbn; auto;
    intro H; destruct (Hu H) as (? & ? & ?); auto; discriminate.
Qed.

Lemma resume_invariant (s : TimerManager) : invariant s -> invariant (resume s).
Proof.
  intro Hinv. unfold resume.
  destruct (activeTimer s) eqn:Eactive; [| assumption].
  destruct (is_unlimited s) eqn:E; cbn; [assumption |].
  destruct Hinv as [Hp Ho Hi Hu]. unfold stopInterval, is_unlimited in *.
  destruct s as [pt ot inc act int paused cbT cbK key0 cs]; cbn in *.
  destruct int; constructor; cbn; auto; rewrite E; discriminate.
Qed.

Lemma switchTimer_invariant (s : TimerManager) :
  invariant s -> invariant (switchTimer s).
Proof.
  intro Hinv. unfold switchTimer.
  destruct (is_unlimited s) eqn:E; [assumption |].
  destruct Hinv as [Hp Ho Hi Hu]. unfold is_unlimited in *.
  destruct (activeTimer s) as [[|]|]; constructor; cbn; auto;
    try (apply num_nonneg_add; assumption); rewrite E; discriminate.
Qed.

Lemma exec_invariant (op : Op) (s : TimerManager) :
  invariant s -> invariant (exec op s).
Proof.
  intro Hinv. destruct op; simpl.
  - apply init_invariant.
  - destruct Hinv. constructor; assumption.
  - destruct Hinv. constructor; assumption.
  - apply start_invariant; assumption.
  - apply pause_invariant; assumption.
  - apply resume_invariant; assumption.
  - apply switchTimer_invariant; assumption.
  - apply tick_invariant; assumption.
  - unfold interval_fires. destruct (intervalId s);
      [apply tick_invariant |]; assumption.
  - apply init_invariant.
Qed.

Lemma reachable_invariant (s : TimerManager) : reachable s -> invariant s.
Proof.
  induction 1 as [| op s Hreach IH].
  - constructor; simpl; try lra. discriminate.
  - apply exec_invariant; assumption.
Qed.

Lemma run_snoc (ops : list Op) (op : Op) (s : TimerManager) :
  run (ops ++ [op]) s = exec op (run ops s).
Proof. unfold run. rewrite fold_left_app. reflexivity. Qed.

Lemma run_reachable (ops : list Op) : reachable (run ops constructor).
Proof.
  induction ops as [| op ops IH] using rev_ind.
  - apply reachable_new.
  - rewrite run_snoc. apply reachable_step. assumption.
Qed.

Lemma tick_ticked (side : Side) (s : TimerManager) :
  isPaused s = false -> activeTimer s = Some side -> ticked side s (tick s).
Proof.
  intros Hrun Hact. unfold ticked. destruct side; cbn [otherSide getTime].
  - rewrite (tick_player s Hrun Hact). cbv zeta.
    destruct (num_leb (num_sub (playerTime s) 0.1) 0).
    + unfold handleTimeout, stopInterval.
      destruct s as [pt ot inc act int paused cbT cbK key0 cs]; cbn.
      destruct int; cbn; destruct cbT; cbn; rewrite ?app_nil_r; auto.
    + destruct (onTickCallback s); cbn; auto.
  - rewrite (tick_opponent s Hrun Hact). cbv zeta.
    destruct (num_leb (num_sub (opponentTime s) 0.1) 0).
    + unfold handleTimeout, stopInterval.
      destruct s as [pt ot inc act int paused cbT cbK key0 cs]; cbn.
      destruct int; cbn; destruct cbT; cbn; rewrite ?app_nil_r; auto.
    + destruct (onTickCallback s); cbn; auto.
Qed.








(** ** The clock invariant *)



(** ** Periods of the interval *)

Lemma elapse_stopped (n : nat) (s : TimerManager) :
  intervalId s = false -> elapse n s = s.
Proof.
  intro Hoff. induction n as [| n IH]; [reflexivity |].
  cbn [elapse]. unfold interval_fires. rewrite Hoff. exact IH.
Qed.

(** The tick callback is not called on the tick that times out: a tick
    that reaches zero adds the timeout call and nothing else. *)
Lemma timeout_tick_makes_one_call (s : TimerManager) :
  isPaused s = false -> activeTimer s = Some player ->
  onTimeoutCallback s = true ->
  num_leb (num_sub (playerTime s) 0.1) 0 = true ->
  calls (tick s) = calls s ++ [TimeoutCalled player].
Proof.
  intros Hrun Hact Hcb Hzero.
  destruct (tick_ticked s Hrun Hact) as [_ H]. cbn [getTime] in H.
  rewrite Hzero, Hcb in H. tauto.
Qed.

(** ** Switching with no active side *)

Lemma switchTimer_no_active_side (s : TimerManager) :
  is_unlimited s = false -> activeTimer s = None ->
  switchTimer s = set_activeTimer (Some player) s.
Proof.
  unfold switchTimer. intros Hfinite Hnone.
  rewrite Hfinite, Hnone. cbv zeta. rewrite Hnone. reflexivity.
Qed.

(** C6 (what the code does). After [init('blitz')] on a fresh clock no
    side is active; [switchTimer()] then leaves both remaining times as
    they were but makes the player the active side. *)
Theorem switchTimer_before_start_activates_player :
  let s := init "blitz" constructor in
  activeTimer s = None
  /\ playerTime (switchTimer s) = playerTime s
  /\ opponentTime (switchTimer s) = opponentTime s
  /\ activeTimer (switchTimer s) = Some player
  /\ switchTimer s <> s.
Proof.
  cbv zeta. repeat split; try reflexivity.
  intro H. apply (f_equal activeTimer) in H. discriminate H.
Qed.

End TimerFacts.

(* ================================================================== *)
(** * The blitz scenario on binary64 *)
(* ================================================================== *)

Module Timer64Facts.

Import Timer Timer64 JSFacts Binary64Facts TimerFacts.

Local Open Scope Q_scope.

Lemma readings_length (n : nat) : forall x, length (readings n x) = n.
Proof.
  induction n as [| n IH]; intro x; [reflexivity |].
  cbn [readings length]. rewrite IH. reflexivity.
Qed.

Lemma elapse64_add (n m : nat) (s : TimerManager) :
  Timer64.elapse (n + m) s = Timer64.elapse m (Timer64.elapse n s).
Proof.
  revert s. induction n as [| n IH]; intro s; [reflexivity |].
  cbn [Nat.add Timer64.elapse]. apply IH.
Qed.

Lemma elapse64_stopped (n : nat) (s : TimerManager) :
  intervalId s = false -> Timer64.elapse n s = s.
Proof.
  intro Hoff. induction n as [| n IH]; [reflexivity |].
  cbn [Timer64.elapse]. unfold Timer64.interval_fires. rewrite Hoff. exact IH.
Qed.

(** A period that leaves time on the player's clock: the clock takes
    the new reading and the tick callback, if any, is called with it. *)
Lemma period_leaves_time
    (x : Q) (ot : num) (inc : Q) (cbT cbK : bool) (key : string) (cs : list Call) :
  ltb 0 (Binary64.sub x tenth) = true ->
  Timer64.interval_fires
    (mkTimer (Fin x) ot inc (Some player) true false cbT cbK key cs)
  = mkTimer (Fin (Binary64.sub x tenth)) ot inc (Some player) true false cbT cbK
      key (cs ++ if cbK then tick_calls ot [Binary64.sub x tenth] else []).
Proof.
  intro Hleft. unfold ltb in Hleft. apply negb_true_iff in Hleft.
  unfold Timer64.interval_fires, Timer64.tick.
  cbn [intervalId isPaused activeTimer playerTime set_playerTime less_tenth
       num_leb].
  revert Hleft. generalize (Binary64.sub x tenth). intros y Hleft.
  unfold leb. rewrite Hleft.
  destruct cbK; cbn; [reflexivity | rewrite app_nil_r; reflexivity].
Qed.

(** The period that finds no time left: the clock is set to zero and
    stopped, and the timeout callback, if any, is the only call made. *)
Lemma period_finds_no_time
    (x : Q) (ot : num) (inc : Q) (cbT cbK : bool) (key : string) (cs : list Call) :
  leb (Binary64.sub x tenth) 0 = true ->
  Timer64.interval_fires
    (mkTimer (Fin x) ot inc (Some player) true false cbT cbK key cs)
  = mkTimer (Fin 0) ot inc (Some player) false true cbT cbK key
      (cs ++ if cbT then [TimeoutCalled player] else []).
Proof.
  intro Hup. unfold Timer64.interval_fires, Timer64.tick.
  cbn [intervalId isPaused activeTimer playerTime set_playerTime less_tenth
       num_leb].
  revert Hup. generalize (Binary64.sub x tenth). intros y Hup.
  rewrite Hup.
  destruct cbT; cbn; [reflexivity | rewrite app_nil_r; reflexivity].
Qed.

Lemma last_cons (l : list Q) : forall y x, last (y :: l) x = last l y.
Proof.
  induction l as [| z l IH]; intros y x; [reflexivity |].
  change (last (y :: z :: l) x) with (last (z :: l) x).
  rewrite (IH z x), (IH z y). reflexivity.
Qed.

(** [n] periods that all leave time on the player's clock. *)
Lemma periods_leave_time (n : nat) :
  forall (x : Q) (ot : num) (inc : Q) (cbT cbK : bool) (key : string)
         (cs : list Call),
    forallb (ltb 0) (readings n x) = true ->
    Timer64.elapse n
      (mkTimer (Fin x) ot inc (Some player) true false cbT cbK key cs)
    = mkTimer (Fin (last (readings n x) x)) ot inc (Some player) true false
        cbT cbK key
        (cs ++ if cbK then tick_calls ot (readings n x) else []).
Proof.
  induction n as [| n IH]; intros x ot inc cbT cbK key cs Hleft.
  - cbn. destruct cbK; cbn; rewrite app_nil_r; reflexivity.
  - cbn [readings] in *. cbv zeta in *.
    set (y := Binary64.sub x tenth) in *.
    cbn [forallb] in Hleft. apply andb_true_iff in Hleft as [Hy Hrest].
    cbn [Timer64.elapse]. rewrite (period_leaves_time x ot inc cbT cbK key cs Hy).
    fold y. rewrite (IH y ot inc cbT cbK key _ Hrest). rewrite last_cons.
    f_equal. rewrite <- app_assoc. f_equal.
    destruct cbK; reflexivity.
Qed.

Lemma tick_calls_are_ticks (ot : num) (values : list Q) :
  forallb is_tick (tick_calls ot values) = true
  /\ filter is_timeout (tick_calls ot values) = [].
Proof.
  induction values as [| y values [IH1 IH2]]; [split; reflexivity |].
  cbn. split; assumption.
Qed.

(** The number the literal [0.1] denotes is a tenth to within 2^-57. *)
Lemma tenth_error : Qabs (tenth - 0.1) <= 1 # 144115188075855872.
Proof. apply Qle_bool_iff. vm_compute. reflexivity. Qed.

(** One subtraction of the tenth, on a clock of at most 1024 seconds
    with more than a tenth left, is off by [drift] at most. *)
Lemma step_error (v : Q) :
  drift + 0.1 < v -> v <= 1024 ->
  Qabs (Binary64.sub v tenth - (v - 0.1)) <= drift.
Proof.
  unfold drift. intros Hleft Hmax.
  pose proof tenth_error as Ht. apply Qabs_Qle_condition in Ht.
  assert (Hz : Qabs (Binary64.round (v - tenth) - (v - tenth))
               <= 1 # 8796093022208).
  { apply Binary64Facts.round_error; lra. }
  apply Qabs_Qle_condition in Hz. apply Qabs_Qle_condition.
  unfold Binary64.sub. revert Ht Hz.
  generalize (Binary64.round (v - tenth)). generalize tenth.
  intros t y Ht Hz. lra.
Qed.

(** C4. After [init('blitz')] and [start('player')], 3010 periods of the
    100 ms interval (301 seconds) and nothing else, with the subtraction
    done on binary64: the player's remaining time is 0, and the calls
    made in that time are the calls of the tick callback, when one is
    registered, followed by one call of the timeout callback with
    ['player'] as the last call.  The timeout callback is called exactly
    once, and the period that times out makes no tick call.  The tenths
    do not add up to 300 seconds exactly: after 3000 periods the clock is
    still running, and it is the period after that which finds no time
    left, so the tick callback has been called 3000 times. *)
Theorem blitz_flag_falls_exactly_once (s0 : TimerManager) :
  onTimeoutCallback s0 = true ->
  let started := start player (init "blitz" s0) in
  let s := Timer64.elapse 3010 started in
  playerTime s = Fin 0
  /\ intervalId (Timer64.elapse 3000 started) = true
  /\ intervalId (Timer64.elapse 3001 started) = false
  /\ exists ticks,
       calls s = calls s0 ++ ticks ++ [TimeoutCalled player]
       /\ forallb is_tick ticks = true
       /\ length ticks = (if onTickCallback s0 then 3000%nat else 0%nat)
       /\ length (filter is_timeout (ticks ++ [TimeoutCalled player])) = 1%nat.
Proof.
  intros Hcb started s. subst s started. rewrite init_fields. cbv zeta.
  destruct s0 as [pt0 ot0 inc0 act0 int0 paused0 cbT cbK key0 cs].
  cbn in Hcb. subst cbT.
  change (start player
            (mkTimer (time (match lookup "blitz" TIME_CONTROLS with
                            | Some c => c | None => rapid end))
               (time (match lookup "blitz" TIME_CONTROLS with
                      | Some c => c | None => rapid end))
               (increment (match lookup "blitz" TIME_CONTROLS with
                           | Some c => c | None => rapid end))
               None false true
               (onTimeoutCallback
                  (mkTimer pt0 ot0 inc0 act0 int0 paused0 true cbK key0 cs))
               (onTickCallback
                  (mkTimer pt0 ot0 inc0 act0 int0 paused0 true cbK key0 cs))
               "blitz"
               (calls (mkTimer pt0 ot0 inc0 act0 int0 paused0 true cbK key0 cs))))
    with (mkTimer (Fin 300) (Fin 300) 0 (Some player) true false true cbK
            "blitz" cs).
  assert (Hboth : (let values := readings 3000 300 in
                   forallb (ltb 0) values
                   && leb (Binary64.sub (last values 300) tenth) 0) = true)
    by (vm_compute; reflexivity).
  cbv zeta in Hboth. apply andb_true_iff in Hboth as [Hleft Hup].
  pose proof (readings_length 3000 300) as Hlen.
  pose proof (periods_leave_time 3000 300 (Fin 300) 0 true cbK "blitz" cs Hleft)
    as H3000.
  set (values := readings 3000 300) in *. clearbody values.
  pose proof (period_finds_no_time (last values 300) (Fin 300) 0 true cbK "blitz"
                (cs ++ if cbK then tick_calls (Fin 300) values else []) Hup)
    as H3001.
  change 3010%nat with (3000 + (1 + 9))%nat.
  change 3001%nat with (3000 + 1)%nat.
  rewrite !elapse64_add, !H3000.
  change (Timer64.elapse 1 ?x) with (Timer64.interval_fires x).
  rewrite !H3001. rewrite elapse64_stopped by reflexivity.
  cbn [playerTime intervalId calls].
  split; [reflexivity | split; [reflexivity | split; [reflexivity |]]].
  destruct (tick_calls_are_ticks (Fin 300) values) as [Hticks Hnone].
  exists (if cbK then tick_calls (Fin 300) values else []).
  split; [| split; [| split]].
  - rewrite <- app_assoc. reflexivity.
  - destruct cbK; [exact Hticks | reflexivity].
  - destruct cbK; [| reflexivity]. unfold tick_calls. rewrite length_map.
    exact Hlen.
  - rewrite filter_app. destruct cbK; [rewrite Hnone |]; reflexivity.
Qed.

Lemma blitz_flag_falls_exactly_once_witness :
  onTimeoutCallback (setTimeoutCallback true constructor) = true
  /\ let started :=
       start player (init "blitz" (setTimeoutCallback true constructor)) in
     let s := Timer64.elapse 3010 started in
     playerTime s = Fin 0
     /\ intervalId (Timer64.elapse 3000 started) = true
     /\ intervalId (Timer64.elapse 3001 started) = false
     /\ exists ticks,
          calls s = calls (setTimeoutCallback true constructor)
                    ++ ticks ++ [TimeoutCalled player]
          /\ forallb is_tick ticks = true
          /\ length ticks
             = (if onTickCallback (setTimeoutCallback true constructor)
                then 3000%nat else 0%nat)
          /\ length (filter is_timeout (ticks ++ [TimeoutCalled player])) = 1%nat.
Proof.
  split; [reflexivity |].
  apply (blitz_flag_falls_exactly_once (setTimeoutCallback true constructor)).
  reflexivity.
Defined.

End Timer64Facts.


Module DifficultyFacts.

Import Str ChessJS Difficulty JSFacts.

(** Splits the goal along every test the scoring code makes. *)
Ltac split_tests :=
  repeat match goal with
         | |- context [if ?c then _ else _] => destruct c eqn:?
         | |- context [match ?x with Some _ => _ | None => _ end] =>
             destruct x eqn:?
         end.

(** What the weight [pieceActivity] contributes to the Tal-style bonus:
    the weight times the intensity when the move is made in the first 20
    plies and [develops], nothing otherwise. *)
Lemma pieceActivity_share (W : Modifiers) (m : Move) (game : Game) (d : Level) :
  calculateTalStyleBonus W m game d
  - calculateTalStyleBonus (with_pieceActivity 0 W) m game d
  == if (length (history game) <? 20)%nat && develops m
     then pieceActivity W * talStyleIntensity d
     else 0.
Proof.
  unfold calculateTalStyleBonus, develops. cbn [sacrifice kingAttack check
    centerControl pieceActivity passivePiece with_pieceActivity].
  destruct (length (history game) <? 20)%nat;
    destruct ((is_knight_or_bishop (piece m) && rank_is (from m) "1")
              || rank_is (from m) "8");
    cbn [andb]; split_tests; ring.
Qed.

(** C10. In the first 20 plies the piece-activity bonus goes to every move
    that starts on rank 8, whatever the piece, and to a move that starts on
    rank 1 only when the piece is a knight or a bishop: the test is
    (knight-or-bishop and rank 1) or rank 8.  The bonus is the share of the
    weight [pieceActivity] in the Tal-style bonus. *)
Theorem development_bonus_rank8_any_piece
    (W : Modifiers) (m : Move) (game : Game) (d : Level) :
  (length (history game) < 20)%nat ->
  let awarded :=
    calculateTalStyleBonus W m game d
    - calculateTalStyleBonus (with_pieceActivity 0 W) m game d in
  let bonus := pieceActivity W * talStyleIntensity d in
  (rank_is (from m) "8" = true -> awarded == bonus)
  /\ (rank_is (from m) "1" = true ->
      awarded == if is_knight_or_bishop (piece m) then bonus else 0)
  /\ awarded ==
     (if (is_knight_or_bishop (piece m) && rank_is (from m) "1")
         || rank_is (from m) "8"
      then bonus else 0).
Proof.
  intros Hopening awarded bonus. subst awarded bonus.
  apply Nat.ltb_lt in Hopening.
  pose proof (pieceActivity_share W m game d) as Hshare.
  rewrite Hopening in Hshare. cbn [andb] in Hshare. unfold develops in Hshare.
  split; [| split].
  - intro H8. rewrite Hshare, H8, orb_true_r. reflexivity.
  - intro H1. rewrite Hshare, H1, andb_true_r.
    assert (H8 : rank_is (from m) "8" = false).
    { unfold rank_is in *. destruct (at_ (from m) 1) as [c |]; [| reflexivity].
      apply Ascii.eqb_eq in H1. subst c. reflexivity. }
    rewrite H8, orb_false_r. reflexivity.
  - exact Hshare.
Qed.

(** Every level [getDifficulty] returns for a name that is not inherited
    has an intensity in [0, 1]. *)
Lemma getDifficulty_intensity_range (level : string) :
  inherited level = false ->
  0 <= talStyleIntensity (getDifficulty level) <= 1.
Proof.
  intros _. unfold getDifficulty. cbn [lookup DIFFICULTY_LEVELS].
  repeat match goal with
         | |- context [String.eqb level ?k] => destruct (String.eqb level k)
         end; cbn; lra.
Qed.

Lemma development_bonus_rank8_any_piece_witness :
  (length (history Examples.sicilian) < 20)%nat
  /\ let awarded :=
       calculateTalStyleBonus TAL_STYLE_MODIFIERS Examples.Ke7 Examples.sicilian
         intermediate
       - calculateTalStyleBonus (with_pieceActivity 0 TAL_STYLE_MODIFIERS)
           Examples.Ke7 Examples.sicilian intermediate in
     let bonus := pieceActivity TAL_STYLE_MODIFIERS * talStyleIntensity intermediate in
     (rank_is (from Examples.Ke7) "8" = true -> awarded == bonus)
     /\ (rank_is (from Examples.Ke7) "1" = true ->
         awarded == if is_knight_or_bishop (piece Examples.Ke7) then bonus else 0)
     /\ awarded ==
        (if (is_knight_or_bishop (piece Examples.Ke7)
             && rank_is (from Examples.Ke7) "1")
            || rank_is (from Examples.Ke7) "8"
         then bonus else 0).
Proof.
  assert (Hopening : (length (history Examples.sicilian) < 20)%nat)
    by (cbn; lia).
  exact (conj Hopening
           (@development_bonus_rank8_any_piece TAL_STYLE_MODIFIERS Examples.Ke7
              Examples.sicilian intermediate Hopening)).
Defined.

End DifficultyFacts.

Module EngineFacts.

Import Str ChessJS Difficulty Engine JSFacts DifficultyFacts.

Section WithLibrary.

Context {chess : Library}.

(** ** Running the methods *)

Lemma later_0_nil (w : World) : later 0 [] w = w.
Proof. destruct w. unfold later. cbn. rewrite app_nil_r. reflexivity. Qed.

Lemma later_later (n k : nat) (es fs : list Event) (w : World) :
  later k fs (later n es w) = later (k + n) (es ++ fs) w.
Proof.
  unfold later. cbn. rewrite <- app_assoc, Nat.add_assoc. reflexivity.
Qed.

Lemma random_run (this : TalEngine) (w : World) :
  random (this, w) = (Returned (draws w (cursor w)), (this, later 1 [] w)).
Proof. unfold random, later. cbn. rewrite app_nil_r. reflexivity. Qed.

Lemma emit_run (e : Event) (this : TalEngine) (w : World) :
  emit e (this, w) = (Returned tt, (this, later 0 [e] w)).
Proof. reflexivity. Qed.

Lemma emit_all_run (es : list Event) (this : TalEngine) (w : World) :
  emit_all es (this, w) = (Returned tt, (this, later 0 es w)).
Proof.
  revert w. induction es as [| e es IH]; intro w.
  - cbn. rewrite later_0_nil. reflexivity.
  - cbn [emit_all]. unfold bind. rewrite emit_run, IH, later_later.
    reflexivity.
Qed.

Lemma simulateThinking_run (this : TalEngine) (w : World) :
  simulateThinking (this, w) =
  (Returned tt,
   (this, later 1 [Slept (think_delay (difficulty this) (draws w (cursor w)))] w)).
Proof. reflexivity. Qed.

(** A draw in [0, 1) picks an element of a non-empty array. *)
Lemma pick_in_range {A : Type} (r : Q) (l : list A) :
  0 <= r -> r < 1 -> l <> [] ->
  exists x, index l (pick_index r l) = Some x /\ In x l.
Proof.
  intros H0 H1 Hne. unfold index, pick_index.
  set (n := Z.of_nat (length l)).
  assert (Hpos : (0 < n)%Z).
  { subst n. destruct l; [congruence | cbn [length]; lia]. }
  assert (HposQ : 0 < inject_Z n).
  { change 0 with (inject_Z 0). rewrite <- Zlt_Qlt. exact Hpos. }
  assert (Hlo : (0 <= Qfloor (r * inject_Z n))%Z).
  { change 0%Z with (Qfloor (inject_Z 0)). apply Qfloor_resp_le.
    change (inject_Z 0) with 0. nra. }
  assert (Hhi : (Qfloor (r * inject_Z n) < n)%Z).
  { rewrite Zlt_Qlt. apply Qle_lt_trans with (r * inject_Z n).
    - apply Qfloor_le.
    - nra. }
  destruct (Qfloor (r * inject_Z n) <? 0)%Z eqn:E; [lia |].
  destruct (nth_error l (Z.to_nat (Qfloor (r * inject_Z n)))) as [x |] eqn:Ex.
  - exists x. split; [reflexivity |]. eapply nth_error_In. exact Ex.
  - apply nth_error_None in Ex. subst n. lia.
Qed.

(** The loop over the book stops at the first entry whose key the
    position key starts with; only then is a number drawn. *)
Lemma book_loop_run (key : string) (entries : list (string * list string))
    (this : TalEngine) (w : World) :
  book_loop key entries (this, w) =
  match find (fun e => startsWith key (simplify (fst e))) entries with
  | Some (position, candidates) =>
      (Returned (convertToMoveObject
                   (index candidates
                      (pick_index (draws w (cursor w)) candidates))),
       (this, later 1 [] w))
  | None => (Returned None, (this, w))
  end.
Proof.
  induction entries as [| [position candidates] rest IH]; [reflexivity |].
  cbn [book_loop find fst].
  destruct (startsWith key (simplify position)).
  - unfold bind. rewrite random_run. reflexivity.
  - exact IH.
Qed.

(** ** Move selection, path by path *)

Section WithWeights.

Variable W : Modifiers.

(** The scored path of [calculateBestMove]: one draw for the wait, one for
    the mistake test, one for the choice among the top moves. *)
Lemma calculateBestMove_scored (game : Game) (this : TalEngine) (w : World) :
  moves game <> [] ->
  shouldMakeMistake (difficulty this) (draws w (S (cursor w))) = false ->
  calculateBestMove W game (this, w) =
  let d := difficulty this in
  let top :=
    firstn (Z.to_nat (pool_size d)) (sort (score_all W this (moves game) game)) in
  let thought :=
    Slept (think_delay d (draws w (cursor w))) :: map Evaluated (moves game) in
  match index top (pick_index (draws w (S (S (cursor w)))) top) with
  | Some selected =>
      (Returned (Some (descriptor (s_move selected))),
       (this, later 3 (thought ++ [Logged (Plays (san (s_move selected))
                                                  (score selected))]) w))
  | None => (TypeError, (this, later 3 thought w))
  end.
Proof.
  intros Hmoves Hcareful. unfold calculateBestMove.
  destruct (moves game) as [| m0 rest] eqn:Emoves; [congruence |].
  rewrite <- Emoves. clear Hmoves.
  unfold bind at 1. rewrite simulateThinking_run.
  unfold bind at 1. unfold this_difficulty at 1.
  unfold bind at 1. rewrite random_run.
  cbn [draws cursor later Nat.add]. rewrite Hcareful.
  unfold bind at 1. unfold get_this at 1.
  unfold bind at 1. rewrite emit_all_run.
  unfold bind at 1. rewrite random_run.
  rewrite !later_later. cbn [draws cursor later Nat.add app].
  cbv zeta.
  destruct (index _ _) as [selected |].
  - unfold bind. rewrite emit_run, later_later. unfold ret.
    cbn [Nat.add app]. rewrite <- app_assoc. reflexivity.
  - unfold throw. rewrite app_nil_r. reflexivity.
Qed.

(** The mistake path. *)
Lemma calculateBestMove_mistake (game : Game) (this : TalEngine) (w : World) :
  moves game <> [] ->
  shouldMakeMistake (difficulty this) (draws w (S (cursor w))) = true ->
  calculateBestMove W game (this, w) =
  let d := difficulty this in
  let said := [Slept (think_delay d (draws w (cursor w))); Logged MakesMistake] in
  match index (moves game) (pick_index (draws w (S (S (cursor w)))) (moves game)) with
  | Some randomMove =>
      (Returned (Some (descriptor randomMove)), (this, later 3 said w))
  | None => (TypeError, (this, later 3 said w))
  end.
Proof.
  intros Hmoves Hmistake. unfold calculateBestMove.
  destruct (moves game) as [| m0 rest] eqn:Emoves; [congruence |].
  rewrite <- Emoves. clear Hmoves.
  unfold bind at 1. rewrite simulateThinking_run.
  unfold bind at 1. unfold this_difficulty at 1.
  unfold bind at 1. rewrite random_run.
  cbn [draws cursor later Nat.add]. rewrite Hmistake.
  unfold bind at 1. rewrite emit_run.
  unfold bind at 1. unfold getRandomMove.
  unfold bind at 1. rewrite random_run.
  rewrite !later_later. cbn [draws cursor later Nat.add app].
  cbv zeta.
  destruct (index _ _) as [randomMove |]; reflexivity.
Qed.

Lemma insert_length (x : Scored) (l : list Scored) :
  length (insert x l) = S (length l).
Proof.
  induction l as [| y l IH]; [reflexivity |]. cbn [insert].
  destruct (leb (score y - score x) 0); cbn [length]; [| rewrite IH]; reflexivity.
Qed.

Lemma sort_length (l : list Scored) : length (sort l) = length l.
Proof.
  induction l as [| x l IH]; [reflexivity |].
  cbn [sort fold_right]. fold (sort l). rewrite insert_length, IH. reflexivity.
Qed.

Lemma pool_size_positive (d : Level) : (1 <= pool_size d)%Z.
Proof. unfold pool_size. lia. Qed.

Lemma top_moves_nonempty (this : TalEngine) (game : Game) :
  moves game <> [] ->
  firstn (Z.to_nat (pool_size (difficulty this)))
         (sort (score_all W this (moves game) game)) <> [].
Proof.
  intros Hmoves Hempty. apply (f_equal (@length Scored)) in Hempty.
  rewrite length_firstn, sort_length in Hempty. unfold score_all in Hempty.
  rewrite length_map in Hempty. cbn [length] in Hempty.
  pose proof (pool_size_positive (difficulty this)).
  destruct (moves game); [congruence | cbn [length] in Hempty; lia].
Qed.

(** A mistake rate of zero is never exceeded by a draw. *)
Lemma shouldMakeMistake_rate_zero (d : Level) (r : Q) :
  mistakeRate d == 0 -> 0 <= r -> shouldMakeMistake d r = false.
Proof.
  intros Hrate Hr. unfold shouldMakeMistake. apply ltb_false. lra.
Qed.

(** C7. With a mistake rate of zero, as in the Legend level, the mistake
    test is false for every draw in [0, 1), and [calculateBestMove] then
    returns one of the top scored moves: the line of the mistake path is
    never printed and no random legal move is returned. *)
Theorem rate_zero_never_takes_mistake_path
    (game : Game) (this : TalEngine) (w : World) :
  mistakeRate (difficulty this) == 0 ->
  fair w ->
  moves game <> [] ->
  (forall r, 0 <= r -> shouldMakeMistake (difficulty this) r = false)
  /\ exists selected events,
       In selected
          (firstn (Z.to_nat (pool_size (difficulty this)))
                  (sort (score_all W this (moves game) game)))
       /\ calculateBestMove W game (this, w) =
          (Returned (Some (descriptor (s_move selected))),
           (this, later 3 events w))
       /\ ~ In (Logged MakesMistake) events.
Proof.
  intros Hrate Hfair Hmoves.
  assert (Hnever : forall r, 0 <= r -> shouldMakeMistake (difficulty this) r = false)
    by (intros r Hr; apply shouldMakeMistake_rate_zero; assumption).
  split; [exact Hnever |].
  rewrite calculateBestMove_scored;
    [| exact Hmoves | apply Hnever; apply Hfair].
  cbv zeta.
  destruct (@pick_in_range _ (draws w (S (S (cursor w))))
              (firstn (Z.to_nat (pool_size (difficulty this)))
                      (sort (score_all W this (moves game) game))))
    as (selected & Epick & Hin);
    [apply Hfair | apply Hfair | apply top_moves_nonempty; exact Hmoves |].
  rewrite Epick. exists selected. eexists. split; [exact Hin |].
  split; [reflexivity |].
  intro Hlogged. cbn [app] in Hlogged.
  destruct Hlogged as [Hbad | Hlogged]; [discriminate |].
  apply in_app_or in Hlogged. destruct Hlogged as [Hev | [Hbad | []]];
    [| discriminate].
  apply in_map_iff in Hev. destruct Hev as (m & Hbad & _). discriminate.
Qed.

(** ** The opening book first *)

Lemma getOpeningBookMove_run (fen color : string) (this : TalEngine) (w : World) :
  getOpeningBookMove fen color (this, w) =
  match find (fun e => startsWith (simplify fen) (simplify (fst e))) (book_of color) with
  | Some (position, candidates) =>
      (Returned (convertToMoveObject
                   (index candidates
                      (pick_index (draws w (cursor w)) candidates))),
       (this, later 1 [] w))
  | None => (Returned None, (this, w))
  end.
Proof. unfold getOpeningBookMove. apply book_loop_run. Qed.

(** With a move from the book, [getBestMove] prints its line, waits and
    returns the move. *)
Lemma getBestMove_book (game : Game) (playerColor : Color)
    (this : TalEngine) (w w' : World) (found : MoveObject) :
  getOpeningBookMove (fen game) (talColor playerColor)
    (mkEngine (difficulty this) true (Some game), w)
  = (Returned (Some found), (mkEngine (difficulty this) true (Some game), w')) ->
  getBestMove W game playerColor (this, w) =
  (Returned (Some found),
   (mkEngine (difficulty this) false (Some game),
    later 1 [Logged (PlaysFromBook found);
             Slept (think_delay (difficulty this) (draws w' (cursor w')))] w')).
Proof.
  intro Hbook. unfold getBestMove.
  unfold bind at 1. unfold set_game at 1.
  unfold bind at 1. unfold set_isThinking at 1. cbn [difficulty isThinking Engine.game].
  unfold bind at 1. fold (talColor playerColor). rewrite Hbook.
  unfold bind at 1. rewrite emit_run.
  unfold bind at 1. rewrite simulateThinking_run.
  unfold bind at 1. unfold set_isThinking, ret.
  rewrite later_later. cbn [difficulty isThinking Engine.game draws cursor later
                            Nat.add app].
  reflexivity.
Qed.

(** With no move from the book, [getBestMove] is [calculateBestMove]. *)
Lemma getBestMove_no_book (game : Game) (playerColor : Color)
    (this : TalEngine) (w : World) :
  getOpeningBookMove (fen game) (talColor playerColor)
    (mkEngine (difficulty this) true (Some game), w)
  = (Returned None, (mkEngine (difficulty this) true (Some game), w)) ->
  getBestMove W game playerColor (this, w) =
  (found <- calculateBestMove W game ;; set_isThinking false ;;; ret found)
    (mkEngine (difficulty this) true (Some game), w).
Proof.
  intro Hbook. unfold getBestMove.
  unfold bind at 1. unfold set_game at 1.
  unfold bind at 1. unfold set_isThinking at 1. cbn [difficulty isThinking Engine.game].
  unfold bind at 1. fold (talColor playerColor). rewrite Hbook.
  reflexivity.
Qed.

End WithWeights.

Lemma books_well_formed :
  well_formed_book Openings.white = true /\ well_formed_book Openings.black = true.
Proof. split; vm_compute; reflexivity. Qed.

Lemma book_of_well_formed (color : string) : well_formed_book (book_of color) = true.
Proof.
  unfold book_of. destruct (String.eqb color "white"); apply books_well_formed.
Qed.

Lemma find_simplified (key : string) (book : list (string * list string)) :
  well_formed_book book = true ->
  find (fun e => startsWith key (simplify (fst e))) book =
  find (fun e => String.prefix (fst e) key) book.
Proof.
  unfold well_formed_book. induction book as [| e book IH]; [reflexivity |].
  cbn [forallb find]. intro H.
  apply andb_true_iff in H as [He Hrest].
  apply andb_true_iff in He as [He _]. apply andb_true_iff in He as [He _].
  apply String.eqb_eq in He. rewrite He. unfold startsWith at 1.
  destruct (String.prefix (fst e) key); [reflexivity | exact (IH Hrest)].
Qed.

Lemma well_formed_entry (book : list (string * list string))
    (position : string) (candidates : list string) :
  well_formed_book book = true -> In (position, candidates) book ->
  candidates <> [] /\
  forall uci, In uci candidates ->
    convertToMoveObject (Some uci) =
    Some (mkMoveObject (substring 0 2 uci) (substring 2 2 uci)
            (if (4 <? String.length uci)%nat then Some (substring 4 1 uci) else None)).
Proof.
  unfold well_formed_book. rewrite forallb_forall. intros Hbook Hin.
  specialize (Hbook _ Hin). cbn [fst snd] in Hbook.
  apply andb_true_iff in Hbook as [Hbook Hlong].
  apply andb_true_iff in Hbook as [_ Hsome].
  split.
  - intro Hnil. subst candidates. discriminate Hsome.
  - intros uci Huci. rewrite forallb_forall in Hlong. specialize (Hlong _ Huci).
    unfold convertToMoveObject. apply Nat.leb_le in Hlong.
    destruct (String.length uci <? 4)%nat eqn:E; [| reflexivity].
    apply Nat.ltb_lt in E. lia.
Qed.

(** One key of Black's book is written twice in the literal.  The object
    holds it once, where it first stands, with the moves written last. *)
Lemma key_declared_twice :
  let key := "rnbqkb1r/pppppppp/5n2/8/2PP4/8/PP2PPPP/RNBQKBNR b KQkq -"%string in
  In (key, ["g7g6"%string]) Openings.black_literal
  /\ In (key, ["c7c5"; "g7g6"]%string) Openings.black_literal
  /\ find (fun e => String.eqb (fst e) key) Openings.black
     = Some (key, ["c7c5"; "g7g6"]%string)
  /\ length (filter (fun e => String.eqb (fst e) key) Openings.black) = 1%nat.
Proof. cbv zeta. repeat split; vm_compute; tauto. Qed.

Section Selection.

Variable W : Modifiers.


End Selection.

(** ** The position after 1.e4 *)

(** C2 (what the code does). On the FEN chess.js gives after 1.e4 the
    lookup in Black's book finds nothing: the key keeps the en-passant
    field [e3], and the stored key has [-] there.  [getBestMove] goes on to
    [calculateBestMove]. *)
Theorem book_misses_position_after_e4 (this : TalEngine) (w : World) :
  simplify fen_after_e4
  = "rnbqkbnr/pppppppp/8/8/4P3/8/PPPP1PPP/RNBQKBNR b KQkq e3"%string
  /\ In ("rnbqkbnr/pppppppp/8/8/4P3/8/PPPP1PPP/RNBQKBNR b KQkq -"%string,
         ["c7c5"%string]) Openings.black
  /\ getOpeningBookMove fen_after_e4 (talColor White) (this, w)
     = (Returned None, (this, w)).
Proof.
  split; [vm_compute; reflexivity |]. split; [vm_compute; tauto |].
  rewrite getOpeningBookMove_run.
  replace (find _ _) with (@None (string * list string));
    [reflexivity | vm_compute; reflexivity].
Qed.

(** Had the en-passant field been empty, the book would have answered
    1...c5, whatever the draw. *)
Lemma book_answers_c5_without_en_passant (this : TalEngine) (w : World) :
  fair w ->
  getOpeningBookMove fen_after_e4_no_en_passant (talColor White) (this, w)
  = (Returned (Some (mkMoveObject "c7" "c5" None)), (this, later 1 [] w)).
Proof.
  intro Hfair. rewrite getOpeningBookMove_run.
  replace (find _ _)
    with (Some ("rnbqkbnr/pppppppp/8/8/4P3/8/PPPP1PPP/RNBQKBNR b KQkq -"%string,
                ["c7c5"%string]));
    [| vm_compute; reflexivity].
  destruct (@pick_in_range _ (draws w (cursor w)) ["c7c5"%string])
    as (uci & Epick & [Huci | []]);
    [apply Hfair | apply Hfair | discriminate |].
  rewrite Epick. subst uci. reflexivity.
Qed.

(** ** Sorting and a constant added to every score *)

Lemma insert_shifted (k : Q) (x x' : Scored) (l l' : list Scored) :
  shifted k x x' -> Forall2 (shifted k) l l' ->
  Forall2 (shifted k) (insert x l) (insert x' l').
Proof.
  intros Hx Hl. induction Hl as [| y y' l l' Hy Hl IH].
  - cbn. constructor; [exact Hx | constructor].
  - cbn [insert].
    assert (E : leb (score y' - score x') 0 = leb (score y - score x) 0).
    { destruct Hx as [_ Hx], Hy as [_ Hy].
      destruct (leb (score y - score x) 0) eqn:E.
      - apply leb_true in E. apply leb_true. lra.
      - apply leb_false in E. apply leb_false. lra. }
    rewrite E. destruct (leb (score y - score x) 0).
    + constructor; [exact Hx |]. constructor; assumption.
    + constructor; assumption.
Qed.

Lemma sort_shifted (k : Q) (l l' : list Scored) :
  Forall2 (shifted k) l l' -> Forall2 (shifted k) (sort l) (sort l').
Proof.
  intro Hl. induction Hl as [| x x' l l' Hx Hl IH]; [constructor |].
  cbn [sort fold_right]. apply insert_shifted; assumption.
Qed.

Lemma firstn_shifted (k : Q) (n : nat) (l l' : list Scored) :
  Forall2 (shifted k) l l' -> Forall2 (shifted k) (firstn n l) (firstn n l').
Proof.
  intro Hl. revert n. induction Hl as [| x x' l l' Hx Hl IH]; intro n.
  - rewrite !firstn_nil. constructor.
  - destruct n; cbn [firstn]; constructor; auto.
Qed.

Lemma shifted_moves (k : Q) (l l' : list Scored) :
  Forall2 (shifted k) l l' -> map s_move l = map s_move l'.
Proof.
  intro Hl. induction Hl as [| x x' l l' [Hx _] Hl IH]; [reflexivity |].
  cbn [map]. rewrite Hx, IH. reflexivity.
Qed.

Lemma shifted_pick (k : Q) (r : Q) (l l' : list Scored) :
  Forall2 (shifted k) l l' ->
  option_map s_move (index l (pick_index r l))
  = option_map s_move (index l' (pick_index r l')).
Proof.
  intro Hl. unfold pick_index. rewrite <- (Forall2_length Hl).
  generalize (Qfloor (r * inject_Z (Z.of_nat (length l)))). intro i.
  unfold index. destruct (i <? 0)%Z; [reflexivity |].
  generalize (Z.to_nat i). clear i.
  induction Hl as [| x x' l l' [Hx _] Hl IH]; intros [| n]; cbn;
    try reflexivity.
  - rewrite Hx. reflexivity.
  - apply IH.
Qed.

Section Complexity.

Variable W : Modifiers.
Variable c : Q.

Let W' : Modifiers := with_complexPosition c W.

(** What changing the weight [complexPosition] to [c] adds to a score. *)
Let shift (this : TalEngine) (game : Game) : Q :=
  if isComplexPosition game
  then (c - complexPosition W) * talStyleIntensity (difficulty this)
  else 0.

Lemma evaluateMove_complexity (this : TalEngine) (m : Move) (game : Game) :
  evaluateMove W' this m game == evaluateMove W this m game + shift this game.
Proof.
  unfold evaluateMove, shift, W'.
  change (calculateTalStyleBonus (with_complexPosition c W) m game (difficulty this))
    with (calculateTalStyleBonus W m game (difficulty this)).
  cbn [check complexPosition with_complexPosition].
  split_tests; ring.
Qed.

Lemma score_all_complexity (this : TalEngine) (l : list Move) (game : Game) :
  Forall2 (shifted (shift this game))
          (score_all W this l game) (score_all W' this l game).
Proof.
  induction l as [| m l IH]; [constructor |].
  cbn [score_all map]. constructor; [| exact IH].
  split; [reflexivity | apply evaluateMove_complexity].
Qed.

(** C9. The complexity term is read off the game before the move and the
    level, not off the candidate: changing its weight adds one and the
    same number to the score of every candidate.  The order in which the
    sort leaves the candidates and the move [calculateBestMove] returns
    are therefore the same for every weight, the weight 0 included. *)
Theorem complexity_bonus_never_changes_ranking (this : TalEngine) (game : Game) :
  let added :=
    if isComplexPosition game
    then (c - complexPosition W) * talStyleIntensity (difficulty this)
    else 0 in
  (forall m, evaluateMove (with_complexPosition c W) this m game
             == evaluateMove W this m game + added)
  /\ map s_move (sort (score_all (with_complexPosition c W) this (moves game) game))
     = map s_move (sort (score_all W this (moves game) game))
  /\ forall w, fst (calculateBestMove (with_complexPosition c W) game (this, w))
               = fst (calculateBestMove W game (this, w)).
Proof.
  cbv zeta. fold (shift this game). fold W'.
  pose proof (sort_shifted (score_all_complexity this (moves game) game)) as Hsorted.
  split; [| split].
  - intro m. apply evaluateMove_complexity.
  - symmetry. exact (shifted_moves Hsorted).
  - intro w. destruct (moves game) as [| m0 rest] eqn:Emoves.
    + unfold calculateBestMove. rewrite Emoves. reflexivity.
    + assert (Hmoves : moves game <> []) by (rewrite Emoves; discriminate).
      rewrite <- Emoves in Hsorted.
      destruct (shouldMakeMistake (difficulty this) (draws w (S (cursor w))))
        eqn:Emistake.
      * rewrite !calculateBestMove_mistake by assumption. reflexivity.
      * rewrite !calculateBestMove_scored by assumption. cbv zeta.
        pose proof (shifted_pick (draws w (S (S (cursor w))))
                      (firstn_shifted (Z.to_nat (pool_size (difficulty this)))
                                      Hsorted)) as Hpick.
        destruct (index (firstn _ (sort (score_all W _ _ _))) _) as [a |];
          destruct (index (firstn _ (sort (score_all W' _ _ _))) _) as [b |];
          cbn in Hpick; try discriminate; [| reflexivity].
        injection Hpick as Hpick. cbn [fst]. unfold descriptor.
        rewrite Hpick. reflexivity.
Qed.

End Complexity.

(** ** Squares and distances *)

Lemma pieceValues_or_0_range (t : PieceType) :
  0 <= pieceValues_or_0 t <= 9.
Proof. destruct t; cbn; lra. Qed.

Lemma squareDistance_range (sq1 sq2 : string) :
  on_board sq1 = true -> on_board sq2 = true ->
  exists d, squareDistance sq1 sq2 = Some d /\ (0 <= d <= 14)%Z.
Proof.
  unfold on_board, squareDistance. intros H1 H2.
  destruct (charCodeAt0 sq1) as [f1 |]; [| discriminate].
  destruct (parseInt_at sq1 1) as [r1 |]; [| discriminate].
  destruct (charCodeAt0 sq2) as [f2 |]; [| discriminate].
  destruct (parseInt_at sq2 1) as [r2 |]; [| discriminate].
  apply andb_true_iff in H1 as [H1 _]. apply andb_true_iff in H2 as [H2 _].
  repeat rewrite andb_true_iff in H1. repeat rewrite andb_true_iff in H2.
  repeat rewrite Z.leb_le in H1. repeat rewrite Z.leb_le in H2.
  cbn. eexists. split; [reflexivity | lia].
Qed.

Lemma first_some_found {A B : Type} (f : A -> option B) (l : list A) (b : B) :
  first_some f l = Some b -> exists a, In a l /\ f a = Some b.
Proof.
  induction l as [| a l IH]; [discriminate |]. cbn.
  destruct (f a) as [b' |] eqn:E.
  - intro H. exists a. split; [left; reflexivity | congruence].
  - intro H. destruct (IH H) as (a' & Hin & Ha'). exists a'. auto.
Qed.

(** The square [findKingSquare] returns is a square of the board. *)
Lemma findKingSquare_on_board (game : Game) (color : Color) (square : string) :
  findKingSquare game color = Some square -> on_board square = true.
Proof.
  unfold findKingSquare. intro H.
  apply first_some_found in H as (row & Hrow & H).
  apply first_some_found in H as (col & Hcol & H).
  destruct (nth_error (board game) row) as [line |]; [| discriminate].
  destruct (nth_error line col) as [[[[] color'] |] |]; try discriminate.
  destruct (Color_eqb color' color); [| discriminate].
  cbn in Hrow, Hcol.
  repeat (destruct Hrow as [<- | Hrow]; [
    repeat (destruct Hcol as [<- | Hcol];
            [cbn in H; injection H as <-; reflexivity |]);
    contradiction |]).
  contradiction.
Qed.

(** ** Bounds on the terms of a score *)

Section Bounds.

Variable this : TalEngine.
Variable game : Game.
Variable m : Move.

Let i : Q := talStyleIntensity (difficulty this).

Hypothesis intensity_range : 0 <= i <= 1.
Hypothesis from_on_board : on_board (from m) = true.
Hypothesis to_on_board : on_board (to m) = true.

Lemma distances_to_king (color : Color) (square : string) :
  findKingSquare game color = Some square ->
  exists before after,
    squareDistance (from m) square = Some before
    /\ squareDistance (to m) square = Some after
    /\ (0 <= before <= 14)%Z /\ (0 <= after <= 14)%Z.
Proof.
  intro Hking. apply findKingSquare_on_board in Hking.
  destruct (squareDistance_range (from m) square from_on_board Hking)
    as (before & E1 & H1).
  destruct (squareDistance_range (to m) square to_on_board Hking)
    as (after & E2 & H2).
  exists before, after. auto.
Qed.

Lemma approach_range (before after : Z) :
  (0 <= before <= 14)%Z -> (0 <= after <= 14)%Z ->
  nan_ltb (Some after) (Some before) = true ->
  0 <= i * inject_Z before - i * inject_Z after <= 14.
Proof.
  intros Hb Ha Hlt. cbn in Hlt. apply Z.ltb_lt in Hlt.
  assert (H1 : 0 <= inject_Z before - inject_Z after).
  { rewrite <- (Qplus_opp_r (inject_Z after)). unfold Qminus.
    apply Qplus_le_l. rewrite <- Zle_Qle. lia. }
  assert (H2 : inject_Z before - inject_Z after <= 14).
  { apply Qle_trans with (inject_Z before - 0).
    - unfold Qminus. apply Qplus_le_r. apply Qopp_le_compat.
      change 0 with (inject_Z 0). rewrite <- Zle_Qle. lia.
    - unfold Qminus. rewrite Qplus_0_r. change 14 with (inject_Z 14).
      rewrite <- Zle_Qle. lia. }
  nra.
Qed.

Lemma calculateTalStyleBonus_range :
  -50 <= calculateTalStyleBonus TAL_STYLE_MODIFIERS m game (difficulty this) <= 1720.
Proof.
  unfold calculateTalStyleBonus. fold i.
  cbn [sacrifice kingAttack check centerControl pieceActivity passivePiece
       TAL_STYLE_MODIFIERS].
  destruct (findKingSquare game (other (color m))) as [square |] eqn:Eking.
  - destruct (distances_to_king _ Eking) as (before & after & -> & -> & Hb & Ha).
    destruct (nan_ltb (Some after) (Some before)) eqn:Enear.
    + pose proof (approach_range Hb Ha Enear) as Happroach.
      cbn [value]. split_tests; lra.
    + split_tests; lra.
  - split_tests; lra.
Qed.

Lemma evaluateKingAttack_range : 0 <= evaluateKingAttack this m game <= 310.
Proof.
  unfold evaluateKingAttack. fold i.
  destruct (findKingSquare game (other (turn game))) as [square |] eqn:Eking;
    [| lra].
  destruct (distances_to_king _ Eking) as (before & after & -> & -> & Hb & Ha).
  destruct (nan_ltb (Some after) (Some before)) eqn:Enear.
  - pose proof (approach_range Hb Ha Enear) as Happroach.
    cbn [value]. split_tests; lra.
  - split_tests; lra.
Qed.

Lemma evaluateSacrifice_range : 0 <= evaluateSacrifice this m game <= 950.
Proof.
  unfold evaluateSacrifice. fold i.
  pose proof (pieceValues_or_0_range (piece m)) as Hmoving.
  assert (Htaken : 0 <= match captured m with
                        | Some c => pieceValues_or_0 c
                        | None => 0
                        end <= 9)
    by (destruct (captured m); [apply pieceValues_or_0_range | lra]).
  revert Htaken.
  generalize (match captured m with Some c => pieceValues_or_0 c | None => 0 end).
  revert Hmoving. generalize (pieceValues_or_0 (piece m)).
  intros moving Hmoving taken Htaken.
  destruct (ltb taken moving) eqn:Eloss; [| lra].
  apply ltb_true in Eloss.
  assert (Hprod : 0 <= i * moving - i * taken <= 9) by nra.
  split_tests; lra.
Qed.

Lemma evaluatePieceActivity_range : -15 <= evaluatePieceActivity this m game <= 45.
Proof. unfold evaluatePieceActivity. split_tests; lra. Qed.

Lemma pieceValues_range (t : PieceType) : 0 <= pieceValues t * 1.5 <= 1350.
Proof. destruct t; cbn; lra. Qed.

(** A score is the sum of its seven terms. *)
Lemma evaluateMove_terms (W : Modifiers) :
  evaluateMove W this m game ==
  match captured m with Some c => pieceValues c * 1.5 | None => 0 end
  + calculateTalStyleBonus W m game (difficulty this)
  + (if in_checkmate (move (Chess (fen game)) m) then 100000
     else if in_check (move (Chess (fen game)) m) then check W else 0)
  + match captured m with Some _ => evaluateSacrifice this m game | None => 0 end
  + (if isComplexPosition game then complexPosition W * i else 0)
  + evaluateKingAttack this m game
  + evaluatePieceActivity this m game.
Proof. unfold evaluateMove. fold i. split_tests; ring. Qed.

(** The six terms other than the mate and complexity terms. *)
Lemma evaluateMove_range :
  let complexity :=
    if isComplexPosition game then complexPosition TAL_STYLE_MODIFIERS * i else 0 in
  if in_checkmate (move (Chess (fen game)) m)
  then 100000 - 65 + complexity <= evaluateMove TAL_STYLE_MODIFIERS this m game
  else evaluateMove TAL_STYLE_MODIFIERS this m game <= 4455 + complexity.
Proof.
  cbv zeta. pose proof (evaluateMove_terms TAL_STYLE_MODIFIERS) as Hterms.
  pose proof calculateTalStyleBonus_range as Htal.
  pose proof evaluateKingAttack_range as Hking.
  pose proof evaluateSacrifice_range as Hsac.
  pose proof evaluatePieceActivity_range as Hact.
  assert (Hcap : forall c, captured m = Some c -> 0 <= pieceValues c * 1.5 <= 1350)
    by (intros; apply pieceValues_range).
  cbn [check TAL_STYLE_MODIFIERS] in Hterms.
  revert Hterms Htal Hking Hsac Hact.
  generalize (evaluateMove TAL_STYLE_MODIFIERS this m game).
  generalize (calculateTalStyleBonus TAL_STYLE_MODIFIERS m game (difficulty this)).
  generalize (evaluateKingAttack this m game).
  generalize (evaluateSacrifice this m game).
  generalize (evaluatePieceActivity this m game).
  generalize (if isComplexPosition game
              then complexPosition TAL_STYLE_MODIFIERS * i else 0).
  intros cx act sac king tal total Hterms Htal Hking Hsac Hact.
  destruct (in_checkmate (move (Chess (fen game)) m));
    [| destruct (in_check (move (Chess (fen game)) m))];
    (destruct (captured m) as [c |];
     [specialize (Hcap c eq_refl) |]; lra).
Qed.

End Bounds.

(** ** Checkmate first *)

Lemma insert_In (x z : Scored) (l : list Scored) :
  In z (insert x l) <-> z = x \/ In z l.
Proof.
  induction l as [| y l IH]; cbn [insert].
  - cbn. intuition congruence.
  - destruct (leb (score y - score x) 0); cbn [In]; [intuition congruence |].
    rewrite IH. cbn [In]. intuition congruence.
Qed.

Lemma sort_In (z : Scored) (l : list Scored) : In z (sort l) <-> In z l.
Proof.
  induction l as [| x l IH]; [reflexivity |].
  cbn [sort fold_right]. fold (sort l). rewrite insert_In, IH. cbn [In].
  intuition congruence.
Qed.

(** The first element of the sorted array scores at least as much as any
    other. *)
Lemma insert_head_dominates (x : Scored) (l : list Scored) :
  match l with [] => True | top :: _ => dominates top l end ->
  match insert x l with [] => False | top :: _ => dominates top (insert x l) end.
Proof.
  destruct l as [| y l]; cbn [insert].
  - intros _ z [<- | []]. lra.
  - intro Hy. destruct (leb (score y - score x) 0) eqn:E.
    + apply leb_true in E. intros z [<- | Hz]; [lra |].
      specialize (Hy z Hz). lra.
    + apply leb_false in E. intros z Hz.
      change (y :: insert x l) with ([y] ++ insert x l) in Hz.
      apply in_app_or in Hz. destruct Hz as [[<- | []] | Hz]; [lra |].
      apply insert_In in Hz. destruct Hz as [-> | Hz]; [lra |].
      apply Hy. right. exact Hz.
Qed.

Lemma sort_head_dominates (l : list Scored) :
  match sort l with [] => l = [] | top :: _ => dominates top (sort l) end.
Proof.
  induction l as [| x l IH]; [reflexivity |].
  cbn [sort fold_right]. fold (sort l).
  pose proof (insert_head_dominates x (sort l)) as H.
  destruct (insert x (sort l)) as [| top rest].
  - apply False_ind, H. destruct (sort l); [exact I | exact IH].
  - apply H. destruct (sort l); [exact I | exact IH].
Qed.

(** C1. In a position whose moves all name squares of the board, for a
    level with intensity between 0 and 1 and the weights of the program, a
    move that mates scores strictly more than every move that does not;
    and the array sorted by descending score begins with a mating move. *)
Theorem mating_move_ranked_first (this : TalEngine) (game : Game) (mate : Move) :
  0 <= talStyleIntensity (difficulty this) <= 1 ->
  (forall m, In m (moves game) ->
             on_board (from m) = true /\ on_board (to m) = true) ->
  In mate (moves game) ->
  in_checkmate (move (Chess (fen game)) mate) = true ->
  (forall rival, In rival (moves game) ->
     in_checkmate (move (Chess (fen game)) rival) = false ->
     evaluateMove TAL_STYLE_MODIFIERS this rival game
     < evaluateMove TAL_STYLE_MODIFIERS this mate game)
  /\ exists top rest,
       sort (score_all TAL_STYLE_MODIFIERS this (moves game) game) = top :: rest
       /\ In (s_move top) (moves game)
       /\ in_checkmate (move (Chess (fen game)) (s_move top)) = true.
Proof.
  intros Hintensity Hsquares Hmate Hmates.
  assert (Hgap : forall rival, In rival (moves game) ->
            in_checkmate (move (Chess (fen game)) rival) = false ->
            evaluateMove TAL_STYLE_MODIFIERS this rival game
            < evaluateMove TAL_STYLE_MODIFIERS this mate game).
  { intros rival Hrival Hnot.
    destruct (Hsquares _ Hmate) as [Hf1 Ht1].
    destruct (Hsquares _ Hrival) as [Hf2 Ht2].
    pose proof (@evaluateMove_range this game mate Hintensity Hf1 Ht1) as Hhigh.
    pose proof (@evaluateMove_range this game rival Hintensity Hf2 Ht2) as Hlow.
    cbv zeta in Hhigh, Hlow. rewrite Hmates in Hhigh. rewrite Hnot in Hlow.
    lra. }
  split; [exact Hgap |].
  set (scored := score_all TAL_STYLE_MODIFIERS this (moves game) game).
  assert (Hin : In (mkScored mate (evaluateMove TAL_STYLE_MODIFIERS this mate game))
                   scored).
  { subst scored. unfold score_all. apply in_map_iff. exists mate. auto. }
  pose proof (sort_head_dominates scored) as Hhead.
  destruct (sort scored) as [| top rest] eqn:Esort.
  - rewrite Hhead in Hin. destruct Hin.
  - exists top, rest. split; [reflexivity |].
    assert (Htop : In top scored) by (apply sort_In; rewrite Esort; left; reflexivity).
    subst scored. unfold score_all in Htop. apply in_map_iff in Htop.
    destruct Htop as (m & <- & Hm). cbn [s_move]. split; [exact Hm |].
    destruct (in_checkmate (move (Chess (fen game)) m)) eqn:Em; [reflexivity |].
    exfalso. specialize (Hgap m Hm Em).
    assert (Hle : evaluateMove TAL_STYLE_MODIFIERS this mate game
                  <= evaluateMove TAL_STYLE_MODIFIERS this m game).
    { apply (Hhead (mkScored mate (evaluateMove TAL_STYLE_MODIFIERS this mate game))).
      rewrite <- Esort. apply sort_In. exact Hin. }
    lra.
Qed.

(** ** The sacrifice evaluation *)

(** What [evaluateSacrifice] computes.  For a capturing move the
    sacrifice evaluation is zero unless the
    moving piece is worth strictly more than the captured one.  When it is,
    the evaluation is the sum of two parts: 50 times the intensity exactly
    when the deficit is at most the absolute value of the sacrifice
    threshold, and 100 times the deficit times the intensity exactly when
    more than two of the opponent's replies after the move pass the test
    the code makes: the SAN of the reply carries [+], or the reply
    captures.  A pawn that takes a queen gets neither. *)
Lemma sacrifice_bonus_parts (this : TalEngine) (m : Move) (game : Game)
    (c : PieceType) :
  captured m = Some c ->
  let moving := pieceValues_or_0 (piece m) in
  let taken := pieceValues_or_0 c in
  let deficit := moving - taken in
  let intensity := talStyleIntensity (difficulty this) in
  let replies := filter is_attack (moves (move (Chess (fen game)) m)) in
  let acceptance :=
    if leb deficit (Qabs (sacrificeThreshold (difficulty this)))
    then 50 * intensity else 0 in
  let continuation :=
    if (2 <? length replies)%nat then 100 * deficit * intensity else 0 in
  (moving <= taken -> evaluateSacrifice this m game = 0)
  /\ (~ evaluateSacrifice this m game == 0 -> taken < moving)
  /\ (taken < moving ->
      evaluateSacrifice this m game == acceptance + continuation)
  /\ (piece m = pawn -> c = queen -> evaluateSacrifice this m game = 0).
Proof.
  intros Hcap moving taken deficit intensity replies acceptance continuation.
  assert (Hle : moving <= taken -> evaluateSacrifice this m game = 0).
  { intro H. unfold evaluateSacrifice. rewrite Hcap.
    fold moving taken. apply ltb_false in H. rewrite H. reflexivity. }
  split; [exact Hle |]. split; [| split].
  - intro Hnz. destruct (Qlt_le_dec taken moving) as [Hlt | Hge]; [exact Hlt |].
    exfalso. apply Hnz. rewrite (Hle Hge). reflexivity.
  - intro Hlt. unfold evaluateSacrifice. rewrite Hcap.
    fold moving taken. apply ltb_true in Hlt. rewrite Hlt.
    fold deficit intensity replies.
    subst acceptance continuation.
    destruct (2 <? length replies)%nat;
      destruct (leb deficit (Qabs (sacrificeThreshold (difficulty this))));
      ring.
  - intros Hp Hq. apply Hle. subst moving taken. rewrite Hp, Hq. cbn. lra.
Qed.

End WithLibrary.

(** ** The theorems at work on the example positions *)

Import Examples.

Lemma calm_is_fair : fair calm.
Proof. intro n. cbn. split; lra. Defined.

Lemma scholars_mate_squares (m : Move) :
  In m (moves scholars_mate) ->
  on_board (from m) = true /\ on_board (to m) = true.
Proof.
  cbn. intro Hin.
  repeat (destruct Hin as [<- | Hin]; [split; reflexivity |]).
  contradiction.
Defined.

Lemma mating_move_ranked_first_witness :
  0 <= talStyleIntensity (difficulty Engine.constructor) <= 1
  /\ (forall m, In m (moves scholars_mate) ->
                on_board (from m) = true /\ on_board (to m) = true)
  /\ In Qxf7_mate (moves scholars_mate)
  /\ @in_checkmate
       (@move (scripted []) (@Chess (scripted []) (fen scholars_mate)) Qxf7_mate)
     = true
  /\ ((forall rival, In rival (moves scholars_mate) ->
        in_checkmate
          (@move (scripted []) (@Chess (scripted []) (fen scholars_mate)) rival)
        = false ->
        @evaluateMove (scripted []) TAL_STYLE_MODIFIERS Engine.constructor rival
          scholars_mate
        < @evaluateMove (scripted []) TAL_STYLE_MODIFIERS Engine.constructor
            Qxf7_mate scholars_mate)
      /\ exists top rest,
           sort (@score_all (scripted []) TAL_STYLE_MODIFIERS Engine.constructor
                   (moves scholars_mate) scholars_mate) = top :: rest
           /\ In (s_move top) (moves scholars_mate)
           /\ in_checkmate
                (@move (scripted []) (@Chess (scripted []) (fen scholars_mate))
                   (s_move top)) = true).
Proof.
  assert (H1 : 0 <= talStyleIntensity (difficulty Engine.constructor) <= 1)
    by (cbn; lra).
  assert (H3 : In Qxf7_mate (moves scholars_mate))
    by (cbn; tauto).
  assert (H4 : @in_checkmate
                 (@move (scripted []) (@Chess (scripted []) (fen scholars_mate))
                    Qxf7_mate) = true)
    by reflexivity.
  exact (conj H1 (conj scholars_mate_squares (conj H3 (conj H4
           (@mating_move_ranked_first (scripted []) Engine.constructor
              scholars_mate Qxf7_mate H1 scholars_mate_squares H3 H4))))).
Defined.

Lemma rate_zero_never_takes_mistake_path_witness :
  mistakeRate (difficulty legend_engine) == 0
  /\ fair calm
  /\ moves scholars_mate <> []
  /\ ((forall r, 0 <= r -> shouldMakeMistake (difficulty legend_engine) r = false)
      /\ exists selected events,
           In selected
              (firstn (Z.to_nat (pool_size (difficulty legend_engine)))
                 (sort (@score_all (scripted []) TAL_STYLE_MODIFIERS legend_engine
                          (moves scholars_mate) scholars_mate)))
           /\ @calculateBestMove (scripted []) TAL_STYLE_MODIFIERS scholars_mate
                (legend_engine, calm)
              = (Returned (Some (descriptor (s_move selected))),
                 (legend_engine, later 3 events calm))
           /\ ~ In (Logged MakesMistake) events).
Proof.
  assert (H1 : mistakeRate (difficulty legend_engine) == 0) by reflexivity.
  assert (H3 : moves scholars_mate <> []) by discriminate.
  exact (conj H1 (conj calm_is_fair (conj H3
           (@rate_zero_never_takes_mistake_path (scripted []) TAL_STYLE_MODIFIERS
              scholars_mate legend_engine calm H1 calm_is_fair H3)))).
Defined.


Lemma sacrifice_bonus_parts_witness :
  captured Bxf7_check = Some pawn
  /\ let this := Engine.constructor in
     let moving := pieceValues_or_0 (piece Bxf7_check) in
     let taken := pieceValues_or_0 pawn in
     let deficit := moving - taken in
     let intensity := talStyleIntensity (difficulty this) in
     let replies :=
       filter is_attack
         (moves (@move (scripted []) (@Chess (scripted []) (fen scholars_mate))
                   Bxf7_check)) in
     let acceptance :=
       if leb deficit (Qabs (sacrificeThreshold (difficulty this)))
       then 50 * intensity else 0 in
     let continuation :=
       if (2 <? length replies)%nat then 100 * deficit * intensity else 0 in
     (moving <= taken ->
      @evaluateSacrifice (scripted []) this Bxf7_check scholars_mate = 0)
     /\ (~ @evaluateSacrifice (scripted []) this Bxf7_check scholars_mate == 0 ->
         taken < moving)
     /\ (taken < moving ->
         @evaluateSacrifice (scripted []) this Bxf7_check scholars_mate
         == acceptance + continuation)
     /\ (piece Bxf7_check = pawn -> pawn = queen ->
         @evaluateSacrifice (scripted []) this Bxf7_check scholars_mate = 0).
Proof.
  assert (H1 : captured Bxf7_check = Some pawn) by reflexivity.
  exact (conj H1
           (@sacrifice_bonus_parts (scripted []) Engine.constructor Bxf7_check
              scholars_mate pawn H1)).
Defined.

(** C8 (what the code does). The continuation bonus misses mating
    replies.  White's queen takes a pawn on d5, a deficit of 8 pawns,
    above every sacrifice threshold.  Three of Black's replies check or
    capture: the rook mates on e1, and the bishop and the knight can take
    the queen.  chess.js ends the SAN of the mating move with [#], not
    [+], so the test of the code counts two replies only and
    [evaluateSacrifice] adds nothing, where the count of checking or
    capturing replies, three, calls for 100 times the deficit times the
    intensity, 640 at the master level.  Were the rook's move a check
    short of mate, written with [+], the code would add the 640. *)
Theorem mating_reply_is_not_counted :
  let mated := @move (annotated (replies_to_Qxd5 "#"))
                 (@Chess (annotated (replies_to_Qxd5 "#")) (fen back_rank)) Qxd5 in
  captured Qxd5 = Some pawn
  /\ pieceValues_or_0 (piece Qxd5) - pieceValues_or_0 pawn == 8
  /\ leb 8 (Qabs (sacrificeThreshold (difficulty master_engine))) = false
  /\ length (moves mated) = 28%nat
  /\ map san (filter (@checking_or_capturing (annotated (replies_to_Qxd5 "#")) mated)
                 (moves mated))
     = ["Re1#"; "Bxd5"; "Nxd5"]%string
  /\ map san (filter is_attack (moves mated)) = ["Bxd5"; "Nxd5"]%string
  /\ @evaluateSacrifice (annotated (replies_to_Qxd5 "#")) master_engine Qxd5
       back_rank == 0
  /\ 100 * 8 * talStyleIntensity (difficulty master_engine) == 640
  /\ @evaluateSacrifice (annotated (replies_to_Qxd5 "+")) master_engine Qxd5
       back_rank == 640.
Proof.
  cbv zeta. repeat split; vm_compute; reflexivity.
Qed.

End EngineFacts.

(* ================================================================== *)
(** * Further properties of the clock *)
(* ================================================================== *)

Module ClockFacts.

Import Timer TimerDisplay JSFacts TimerFacts.

(** Takes a state apart and evaluates the operations on its fields. *)
Ltac by_fields s :=
  destruct s as [pt ot inc act int paused cbT cbK key cs]; cbn in *.

(** Closes the side conditions of an invariant. *)
Ltac settle :=
  cbn; intros;
  first [ assumption | reflexivity | discriminate | congruence | auto ].

Lemma stopInterval_fields (s : TimerManager) :
  stopInterval s = set_intervalId false s.
Proof. unfold stopInterval. by_fields s. destruct int; reflexivity. Qed.

Lemma handleTimeout_wired (loser : Side) (s : TimerManager) :
  wired (handleTimeout loser s).
Proof.
  unfold handleTimeout. rewrite stopInterval_fields. by_fields s.
  destruct cbT; constructor; settle.
Qed.

Lemma tick_wired (s : TimerManager) : wired s -> wired (tick s).
Proof.
  intro Hw. destruct (tick_cases s) as [Hidle | [[Hrun Hact] | [Hrun Hact]]].
  - rewrite (tick_idle s Hidle). exact Hw.
  - rewrite (tick_player s Hrun Hact). cbv zeta.
    destruct (num_leb (num_sub (playerTime s) 0.1) 0);
      [apply handleTimeout_wired |].
    destruct Hw as [H1 H2 H3].
    destruct (onTickCallback s); constructor; settle.
  - rewrite (tick_opponent s Hrun Hact). cbv zeta.
    destruct (num_leb (num_sub (opponentTime s) 0.1) 0);
      [apply handleTimeout_wired |].
    destruct Hw as [H1 H2 H3].
    destruct (onTickCallback s); constructor; settle.
Qed.

Lemma exec_wired (op : Op) (s : TimerManager) : wired s -> wired (exec op s).
Proof.
  intro Hw. destruct op; cbn [exec].
  - rewrite init_fields. constructor; settle.
  - destruct Hw. constructor; assumption.
  - destruct Hw. constructor; assumption.
  - unfold start. destruct (is_unlimited s) eqn:E; [exact Hw |].
    rewrite stopInterval_fields. unfold is_unlimited in *.
    constructor; settle.
  - unfold pause. rewrite stopInterval_fields.
    constructor; settle.
  - unfold resume. destruct (activeTimer s) eqn:Eact; [| exact Hw].
    destruct (is_unlimited s) eqn:E; cbn [negb]; [exact Hw |].
    rewrite stopInterval_fields. unfold is_unlimited in *.
    constructor; settle.
  - unfold switchTimer. destruct (is_unlimited s) eqn:E; [exact Hw |].
    destruct Hw as [H1 H2 H3]. unfold is_unlimited in *. by_fields s.
    destruct act as [[|]|]; constructor; settle.
  - apply tick_wired. exact Hw.
  - unfold interval_fires. destruct (intervalId s);
      [apply tick_wired |]; exact Hw.
  - unfold reset. rewrite init_fields. constructor; settle.
Qed.

Lemma run_wired (ops : list Op) : wired (run ops constructor).
Proof.
  induction ops as [| op ops IH] using rev_ind.
  - constructor; settle.
  - rewrite run_snoc. apply exec_wired. exact IH.
Qed.

(** X1. Whatever is done to a fresh clock, an interval is installed
    exactly when the clock is not paused, and a clock that is not paused
    has an active side and a finite preset. *)
Theorem interval_installed_iff_not_paused (ops : list Op) :
  let s := run ops constructor in
  intervalId s = negb (isPaused s)
  /\ (isPaused s = false -> activeTimer s <> None /\ is_unlimited s = false).
Proof.
  intro s. destruct (run_wired ops) as [H1 H2 H3]. fold s in H1, H2, H3.
  split; [exact H1 |]. intro Hrun. split; auto.
Qed.

(** X2. [pause()] twice is [pause()] once; it changes no remaining time,
    leaves the active side and the trace alone, and a paused clock loses
    no time however many periods of the interval pass. *)
Theorem pause_is_idempotent_and_stops_the_clock (s : TimerManager) (n : nat) :
  pause (pause s) = pause s
  /\ playerTime (pause s) = playerTime s
  /\ opponentTime (pause s) = opponentTime s
  /\ activeTimer (pause s) = activeTimer s
  /\ calls (pause s) = calls s
  /\ tick (pause s) = pause s
  /\ elapse n (pause s) = pause s.
Proof.
  unfold pause. rewrite !stopInterval_fields.
  repeat split; try reflexivity;
    try (apply tick_idle; left; reflexivity);
    apply elapse_stopped; reflexivity.
Qed.

(** X3. On a clock that is running, [pause()] followed by [resume()]
    gives back the state before the pause. *)
Theorem resume_undoes_pause (ops : list Op) :
  isPaused (run ops constructor) = false ->
  resume (pause (run ops constructor)) = run ops constructor.
Proof.
  intro Hrun. destruct (run_wired ops) as [H1 H2 H3].
  set (s := run ops constructor) in *. clearbody s.
  specialize (H2 Hrun). specialize (H3 Hrun). rewrite Hrun in H1.
  unfold resume, pause. rewrite !stopInterval_fields.
  unfold is_unlimited in *. by_fields s. subst.
  destruct act; [| congruence]. rewrite H3. reflexivity.
Qed.

Lemma resume_undoes_pause_witness :
  isPaused (run [OpInit "blitz"; OpStart player] constructor) = false
  /\ resume (pause (run [OpInit "blitz"; OpStart player] constructor))
     = run [OpInit "blitz"; OpStart player] constructor.
Proof.
  assert (H : isPaused (run [OpInit "blitz"; OpStart player] constructor) = false)
    by reflexivity.
  exact (conj H (resume_undoes_pause [OpInit "blitz"; OpStart player] H)).
Defined.

(** X4. Under the unlimited preset nothing but loading another preset or
    registering a callback changes the clock: [start], [pause], [resume],
    [switchTimer], [tick] and the interval all leave it as it is. *)
Theorem unlimited_clock_is_inert (ops : list Op) (op : Op) :
  is_unlimited (run ops constructor) = true ->
  initializes op = false -> registers op = false ->
  exec op (run ops constructor) = run ops constructor.
Proof.
  intros Hunl Hinit Hreg.
  pose proof (reachable_invariant (run_reachable ops)) as [_ _ _ Hinv].
  set (s := run ops constructor) in *. clearbody s.
  destruct (Hinv Hunl) as (Hp & Ha & Hi).
  destruct op; try discriminate; cbn [exec].
  - unfold start. rewrite Hunl. reflexivity.
  - unfold pause. rewrite stopInterval_fields. by_fields s. subst. reflexivity.
  - unfold resume. rewrite Ha. reflexivity.
  - unfold switchTimer. rewrite Hunl. reflexivity.
  - apply tick_idle. left. exact Hp.
  - unfold interval_fires. rewrite Hi. reflexivity.
Qed.

Lemma unlimited_clock_is_inert_witness :
  is_unlimited (run [OpInit "unlimited"] constructor) = true
  /\ initializes OpSwitchTimer = false
  /\ registers OpSwitchTimer = false
  /\ exec OpSwitchTimer (run [OpInit "unlimited"] constructor)
     = run [OpInit "unlimited"] constructor.
Proof.
  assert (H1 : is_unlimited (run [OpInit "unlimited"] constructor) = true)
    by reflexivity.
  assert (H2 : initializes OpSwitchTimer = false) by reflexivity.
  assert (H3 : registers OpSwitchTimer = false) by reflexivity.
  exact (conj H1 (conj H2 (conj H3
           (unlimited_clock_is_inert [OpInit "unlimited"] OpSwitchTimer H1 H2 H3)))).
Defined.

Lemma exec_keeps_key (op : Op) (s : TimerManager) :
  initializes op = false -> currentTimeControl (exec op s) = currentTimeControl s.
Proof.
  intro Hop. destruct op; try discriminate; cbn [exec].
  - reflexivity.
  - reflexivity.
  - unfold start. destruct (is_unlimited s); [reflexivity |].
    rewrite stopInterval_fields. reflexivity.
  - unfold pause. rewrite stopInterval_fields. reflexivity.
  - unfold resume. destruct (activeTimer s); [| reflexivity].
    destruct (is_unlimited s); cbn [negb]; [reflexivity |].
    rewrite stopInterval_fields. reflexivity.
  - unfold switchTimer. destruct (is_unlimited s); [reflexivity |].
    by_fields s. destruct act as [[|]|]; reflexivity.
  - destruct (tick_cases s) as [Hidle | [[Hrun Hact] | [Hrun Hact]]].
    + rewrite (tick_idle s Hidle). reflexivity.
    + rewrite (tick_player s Hrun Hact). cbv zeta.
      destruct (num_leb _ 0).
      * unfold handleTimeout. rewrite stopInterval_fields. cbn.
        destruct (onTimeoutCallback s); reflexivity.
      * destruct (onTickCallback s); reflexivity.
    + rewrite (tick_opponent s Hrun Hact). cbv zeta.
      destruct (num_leb _ 0).
      * unfold handleTimeout. rewrite stopInterval_fields. cbn.
        destruct (onTimeoutCallback s); reflexivity.
      * destruct (onTickCallback s); reflexivity.
  - unfold interval_fires. destruct (intervalId s); [| reflexivity].
    destruct (tick_cases s) as [Hidle | [[Hrun Hact] | [Hrun Hact]]].
    + rewrite (tick_idle s Hidle). reflexivity.
    + rewrite (tick_player s Hrun Hact). cbv zeta.
      destruct (num_leb _ 0).
      * unfold handleTimeout. rewrite stopInterval_fields. cbn.
        destruct (onTimeoutCallback s); reflexivity.
      * destruct (onTickCallback s); reflexivity.
    + rewrite (tick_opponent s Hrun Hact). cbv zeta.
      destruct (num_leb _ 0).
      * unfold handleTimeout. rewrite stopInterval_fields. cbn.
        destruct (onTimeoutCallback s); reflexivity.
      * destruct (onTickCallback s); reflexivity.
Qed.

Lemma run_keeps_key (ops : list Op) (s : TimerManager) :
  forallb (fun op => negb (initializes op)) ops = true ->
  currentTimeControl (run ops s) = currentTimeControl s.
Proof.
  induction ops as [| op ops IH] using rev_ind; intro Hops; [reflexivity |].
  rewrite forallb_app in Hops. apply andb_true_iff in Hops as [Hops Hop].
  cbn in Hop. rewrite andb_true_r in Hop. apply negb_true_iff in Hop.
  rewrite run_snoc, exec_keeps_key by exact Hop. apply IH. exact Hops.
Qed.

(** X5. After a preset has been loaded with [init(key)], whatever is done
    to the clock short of loading another preset, [reset()] brings back
    what [init(key)] had set: both times at the preset's time, its
    increment, no active side, paused, no interval.  The callbacks and
    the trace are those of the moment of the reset. *)
Theorem reset_restores_the_loaded_preset
    (key : string) (s0 : TimerManager) (ops : list Op) :
  forallb (fun op => negb (initializes op)) ops = true ->
  let s := run ops (init key s0) in
  let fresh := init key s0 in
  playerTime (reset s) = playerTime fresh
  /\ opponentTime (reset s) = opponentTime fresh
  /\ tm_increment (reset s) = tm_increment fresh
  /\ activeTimer (reset s) = None
  /\ isPaused (reset s) = true
  /\ intervalId (reset s) = false
  /\ currentTimeControl (reset s) = key
  /\ onTimeoutCallback (reset s) = onTimeoutCallback s
  /\ onTickCallback (reset s) = onTickCallback s
  /\ calls (reset s) = calls s.
Proof.
  intros Hops s fresh.
  assert (Hkey : currentTimeControl s = key).
  { subst s. rewrite run_keeps_key by exact Hops. rewrite init_fields. reflexivity. }
  unfold reset. rewrite Hkey. subst fresh. rewrite !init_fields.
  rewrite stopInterval_fields. cbn. repeat split; reflexivity.
Qed.

Lemma reset_restores_the_loaded_preset_witness :
  forallb (fun op => negb (initializes op))
          [OpStart player; OpIntervalFires; OpSwitchTimer] = true
  /\ let s := run [OpStart player; OpIntervalFires; OpSwitchTimer]
                (init "classical" constructor) in
     let fresh := init "classical" constructor in
     playerTime (reset s) = playerTime fresh
     /\ opponentTime (reset s) = opponentTime fresh
     /\ tm_increment (reset s) = tm_increment fresh
     /\ activeTimer (reset s) = None
     /\ isPaused (reset s) = true
     /\ intervalId (reset s) = false
     /\ currentTimeControl (reset s) = "classical"%string
     /\ onTimeoutCallback (reset s) = onTimeoutCallback s
     /\ onTickCallback (reset s) = onTickCallback s
     /\ calls (reset s) = calls s.
Proof.
  assert (H : forallb (fun op => negb (initializes op))
                [OpStart player; OpIntervalFires; OpSwitchTimer] = true)
    by reflexivity.
  exact (conj H
           (reset_restores_the_loaded_preset "classical" constructor
              [OpStart player; OpIntervalFires; OpSwitchTimer] H)).
Defined.

(** X6. A key that names none of the five presets, and nothing
    inherited from [Object.prototype], loads the clock with the rapid
    preset, 600 seconds a side and no increment, and is kept as
    the current key: [getTimeControl()] then has nothing to return, and
    the clock counts as finite, so that [start] starts it. *)
Theorem unknown_key_loads_rapid (key : string) (s : TimerManager) (side : Side) :
  inherited key = false ->
  lookup key TIME_CONTROLS = None ->
  playerTime (init key s) = Fin 600
  /\ opponentTime (init key s) = Fin 600
  /\ tm_increment (init key s) = 0
  /\ currentTimeControl (init key s) = key
  /\ getTimeControl (init key s) = None
  /\ activeTimer (start side (init key s)) = Some side
  /\ intervalId (start side (init key s)) = true.
Proof.
  intros _ Hmissing. rewrite init_fields. cbv zeta. rewrite Hmissing.
  unfold getTimeControl, start, is_unlimited. cbn [currentTimeControl].
  assert (Hfinite : String.eqb key "unlimited" = false).
  { cbn [lookup TIME_CONTROLS] in Hmissing.
    repeat match type of Hmissing with
           | context [String.eqb key ?k] =>
               destruct (String.eqb key k) eqn:?; try discriminate
           end.
    reflexivity. }
  rewrite Hfinite, Hmissing. repeat split; reflexivity.
Qed.

Lemma unknown_key_loads_rapid_witness :
  inherited "hyperbullet" = false
  /\ lookup "hyperbullet" TIME_CONTROLS = None
  /\ playerTime (init "hyperbullet" constructor) = Fin 600
  /\ opponentTime (init "hyperbullet" constructor) = Fin 600
  /\ tm_increment (init "hyperbullet" constructor) = 0
  /\ currentTimeControl (init "hyperbullet" constructor) = "hyperbullet"%string
  /\ getTimeControl (init "hyperbullet" constructor) = None
  /\ activeTimer (start opponent (init "hyperbullet" constructor)) = Some opponent
  /\ intervalId (start opponent (init "hyperbullet" constructor)) = true.
Proof.
  assert (H0 : inherited "hyperbullet" = false) by reflexivity.
  assert (H : lookup "hyperbullet" TIME_CONTROLS = None) by reflexivity.
  exact (conj H0
           (conj H (unknown_key_loads_rapid "hyperbullet" constructor opponent
                      H0 H))).
Defined.






(** A period on binary64, with more than a tenth of a second left on a
    clock of at most 1024 seconds: the active clock takes the rounded
    difference, which is off by [drift] at most. *)
Lemma period_takes_a_tenth (side : Side) (s : TimerManager) (q : Q) :
  running side s q -> Timer64.drift + 0.1 < q -> q <= 1024 ->
  exists r,
    running side (Timer64.interval_fires s) r
    /\ Qabs (r - (q - 0.1)) <= Timer64.drift
    /\ getTime (otherSide side) (Timer64.interval_fires s)
       = getTime (otherSide side) s
    /\ exists ticks, calls (Timer64.interval_fires s) = calls s ++ ticks
                     /\ forallb is_tick ticks = true.
Proof.
  intros [Hrun Hact Hint (x & Hx & Hq)] Hleft Hmax.
  rewrite <- Hq in Hleft, Hmax.
  destruct s as [pt ot inc act int paused cbT cbK key cs].
  cbn [isPaused activeTimer intervalId] in Hrun, Hact, Hint. subst.
  pose proof (@Timer64Facts.step_error x Hleft Hmax) as Herr.
  assert (E : leb (Binary64.sub x Timer64.tenth) 0 = false).
  { apply leb_false. pose proof Herr as Hy.
    apply Qabs_Qle_condition in Hy. unfold Timer64.drift in *.
    clear Herr. revert Hy. generalize (Binary64.sub x Timer64.tenth).
    intros y Hy. lra. }
  exists (Binary64.sub x Timer64.tenth). rewrite <- Hq. clear Hq Hleft Hmax.
  unfold Timer64.interval_fires, Timer64.tick.
  destruct side; cbn [getTime playerTime opponentTime] in Hx; subst;
    cbn [intervalId isPaused activeTimer playerTime opponentTime
         set_playerTime set_opponentTime Timer64.less_tenth num_leb];
    rewrite E; revert Herr; generalize (Binary64.sub x Timer64.tenth);
    intros y Herr; (split; [| split; [exact Herr | split]]);
    try (destruct cbK; reflexivity).
  - destruct cbK; constructor; try reflexivity; exists y; split; reflexivity.
  - destruct cbK; cbn.
    + eexists. split; reflexivity.
    + exists []. rewrite app_nil_r. split; reflexivity.
  - destruct cbK; constructor; try reflexivity; exists y; split; reflexivity.
  - destruct cbK; cbn.
    + eexists. split; reflexivity.
    + exists []. rewrite app_nil_r. split; reflexivity.
Qed.

(** X8. On binary64 the tenths taken off a clock do not add up exactly,
    but nearly.  On a clock of at most 1024 seconds, while the active
    side has more than [n] tenths of a second left, and a margin of 2^-42
    for each, [n] periods of the interval leave its clock within [n]
    times 2^-42 of the time less [n] tenths, leave the other clock
    untouched, keep the clock running and call no timeout. *)
Theorem periods_take_tenths_off_the_active_clock (n : nat) :
  forall (side : Side) (s : TimerManager) (q : Q),
    running side s q ->
    q <= 1024 ->
    inject_Z (Z.of_nat n) * (0.1 + Timer64.drift) < q ->
    exists r,
      running side (Timer64.elapse n s) r
      /\ Qabs (r - (q - inject_Z (Z.of_nat n) * 0.1))
         <= inject_Z (Z.of_nat n) * Timer64.drift
      /\ getTime (otherSide side) (Timer64.elapse n s)
         = getTime (otherSide side) s
      /\ exists ticks, calls (Timer64.elapse n s) = calls s ++ ticks
                       /\ forallb is_tick ticks = true.
Proof.
  induction n as [| n IH]; intros side s q Hs Hmax Hleft.
  - cbn [Timer64.elapse]. exists q. split; [exact Hs | split; [| split]].
    + change (inject_Z (Z.of_nat 0)) with 0. apply Qabs_Qle_condition.
      split; lra.
    + reflexivity.
    + exists []. rewrite app_nil_r. split; reflexivity.
  - rewrite Nat2Z.inj_succ in *. unfold Z.succ in *.
    rewrite inject_Z_plus in *. change (inject_Z 1) with 1 in *.
    assert (Hn : 0 <= inject_Z (Z.of_nat n))
      by (change 0 with (inject_Z 0); rewrite <- Zle_Qle; apply Nat2Z.is_nonneg).
    cbn [Timer64.elapse].
    destruct (@period_takes_a_tenth side s q Hs)
      as (r1 & Hs1 & Herr1 & Ho1 & ticks1 & Ec1 & Ht1);
      [unfold Timer64.drift in *; lra | exact Hmax |].
    apply Qabs_Qle_condition in Herr1.
    destruct (IH side (Timer64.interval_fires s) r1 Hs1)
      as (r2 & Hs2 & Herr2 & Ho2 & ticks2 & Ec2 & Ht2);
      [unfold Timer64.drift in *; lra | unfold Timer64.drift in *; lra |].
    apply Qabs_Qle_condition in Herr2.
    exists r2. split; [exact Hs2 | split; [| split]].
    + apply Qabs_Qle_condition. unfold Timer64.drift in *. split; lra.
    + congruence.
    + exists (ticks1 ++ ticks2). split.
      * rewrite Ec2, Ec1, app_assoc. reflexivity.
      * rewrite forallb_app, Ht1, Ht2. reflexivity.
Qed.

Lemma blitz_opponent_running :
  running opponent (start opponent (init "blitz" constructor)) 300.
Proof.
  constructor; try reflexivity. exists 300. split; reflexivity.
Defined.

Lemma periods_take_tenths_off_the_active_clock_witness :
  let s := start opponent (init "blitz" constructor) in
  running opponent s 300
  /\ 300 <= 1024
  /\ inject_Z (Z.of_nat 25) * (0.1 + Timer64.drift) < 300
  /\ exists r,
       running opponent (Timer64.elapse 25 s) r
       /\ Qabs (r - (300 - inject_Z (Z.of_nat 25) * 0.1))
          <= inject_Z (Z.of_nat 25) * Timer64.drift
       /\ getTime (otherSide opponent) (Timer64.elapse 25 s)
          = getTime (otherSide opponent) s
       /\ exists ticks, calls (Timer64.elapse 25 s) = calls s ++ ticks
                        /\ forallb is_tick ticks = true.
Proof.
  assert (H1 : 300 <= 1024) by discriminate.
  assert (H2 : inject_Z (Z.of_nat 25) * (0.1 + Timer64.drift) < 300)
    by reflexivity.
  exact (conj blitz_opponent_running (conj H1 (conj H2
           (@periods_take_tenths_off_the_active_clock 25 opponent _ 300
              blitz_opponent_running H1 H2)))).
Defined.

(** The period in which the active side's time runs out. *)
Lemma fires_when_up (side : Side) (s : TimerManager) (q : Q) :
  running side s q -> q <= 0.1 ->
  let s' := interval_fires s in
  getTime side s' = Fin 0
  /\ isPaused s' = true
  /\ intervalId s' = false
  /\ activeTimer s' = Some side
  /\ currentTimeControl s' = currentTimeControl s
  /\ onTimeoutCallback s' = onTimeoutCallback s
  /\ calls s' = calls s ++ (if onTimeoutCallback s then [TimeoutCalled side] else []).
Proof.
  intros [Hrun Hact Hint (x & Hx & Hq)] Hup. cbv zeta.
  assert (E : leb (x - 0.1) 0 = true) by (apply leb_true; lra).
  unfold interval_fires. rewrite Hint.
  destruct side; cbn [getTime] in *.
  - rewrite (tick_player s Hrun Hact). cbv zeta.
    rewrite Hx. cbn [num_sub num_leb]. rewrite E.
    unfold handleTimeout. rewrite stopInterval_fields.
    by_fields s. subst. destruct cbT; cbn; rewrite ?app_nil_r;
      repeat split; reflexivity.
  - rewrite (tick_opponent s Hrun Hact). cbv zeta.
    rewrite Hx. cbn [num_sub num_leb]. rewrite E.
    unfold handleTimeout. rewrite stopInterval_fields.
    by_fields s. subst. destruct cbT; cbn; rewrite ?app_nil_r;
      repeat split; reflexivity.
Qed.

Lemma resume_fields (s : TimerManager) (side : Side) :
  activeTimer s = Some side -> is_unlimited s = false ->
  resume s = set_intervalId true (set_isPaused false s).
Proof.
  intros Hact Hfinite. unfold resume. rewrite Hact, Hfinite. cbn [negb].
  rewrite stopInterval_fields. reflexivity.
Qed.

(** X9. The timeout is not latched.  When the active side's last tenth
    of a second runs out the timeout callback is called and the clock
    stops; [resume()] then starts the interval again, and the next period
    calls the timeout callback a second time, for the same side. *)
Theorem resume_after_timeout_times_out_again
    (side : Side) (s : TimerManager) (q : Q) :
  running side s q -> q <= 0.1 ->
  is_unlimited s = false ->
  onTimeoutCallback s = true ->
  let fallen := interval_fires s in
  let again := interval_fires (resume fallen) in
  getTime side fallen = Fin 0
  /\ isPaused fallen = true
  /\ calls fallen = calls s ++ [TimeoutCalled side]
  /\ intervalId (resume fallen) = true
  /\ getTime side again = Fin 0
  /\ calls again = calls s ++ [TimeoutCalled side; TimeoutCalled side].
Proof.
  intros Hs Hup Hfinite Hcb. cbv zeta.
  destruct (fires_when_up Hs Hup) as (Hzero & Hp & Hi & Ha & Hk & Hc & Hcalls).
  rewrite Hcb in Hcalls.
  set (fallen := interval_fires s) in *. clearbody fallen.
  assert (Hf : is_unlimited fallen = false)
    by (unfold is_unlimited in *; rewrite Hk; exact Hfinite).
  rewrite (resume_fields fallen Ha Hf).
  assert (Hagain : running side (set_intervalId true (set_isPaused false fallen)) 0).
  { constructor; cbn; auto. exists 0. split; [| reflexivity].
    destruct side; cbn in *; exact Hzero. }
  assert (H0 : 0 <= 0.1) by discriminate.
  destruct (fires_when_up Hagain H0) as (Hzero2 & _ & _ & _ & _ & _ & Hcalls2).
  cbn [onTimeoutCallback set_intervalId set_isPaused calls] in Hcalls2.
  rewrite Hc, Hcb, Hcalls, <- app_assoc in Hcalls2.
  repeat split; assumption || reflexivity.
Qed.

Lemma unloaded_player_running :
  running player (start player (setTimeoutCallback true constructor)) 0.
Proof.
  constructor; try reflexivity. exists 0. split; reflexivity.
Defined.

Lemma resume_after_timeout_times_out_again_witness :
  let s := start player (setTimeoutCallback true constructor) in
  running player s 0
  /\ 0 <= 0.1
  /\ is_unlimited s = false
  /\ onTimeoutCallback s = true
  /\ let fallen := interval_fires s in
     let again := interval_fires (resume fallen) in
     getTime player fallen = Fin 0
     /\ isPaused fallen = true
     /\ calls fallen = calls s ++ [TimeoutCalled player]
     /\ intervalId (resume fallen) = true
     /\ getTime player again = Fin 0
     /\ calls again = calls s ++ [TimeoutCalled player; TimeoutCalled player].
Proof.
  assert (H2 : 0 <= 0.1) by discriminate.
  assert (H3 : is_unlimited (start player (setTimeoutCallback true constructor)) = false)
    by reflexivity.
  assert (H4 : onTimeoutCallback (start player (setTimeoutCallback true constructor)) = true)
    by reflexivity.
  exact (conj unloaded_player_running (conj H2 (conj H3 (conj H4
           (resume_after_timeout_times_out_again unloaded_player_running H2 H3 H4))))).
Defined.

End ClockFacts.

(* ================================================================== *)
(** * Properties of the clock display *)
(* ================================================================== *)

Module DisplayFacts.

Import Timer TimerDisplay JSFacts TimerFacts.

Local Open Scope string_scope.

Lemma mem_add (c c' : string) (l : list string) :
  existsb (String.eqb c) (classList_add c' l)
  = String.eqb c c' || existsb (String.eqb c) l.
Proof.
  unfold classList_add.
  destruct (existsb (String.eqb c') l) eqn:E.
  - destruct (String.eqb c c') eqn:Ec; [| reflexivity].
    apply String.eqb_eq in Ec. subst c. rewrite E. reflexivity.
  - rewrite existsb_app. cbn. rewrite orb_false_r. apply orb_comm.
Qed.

Lemma mem_remove (c c' : string) (l : list string) :
  existsb (String.eqb c) (classList_remove c' l)
  = negb (String.eqb c c') && existsb (String.eqb c) l.
Proof.
  unfold classList_remove. induction l as [| x l IH]; cbn.
  - rewrite andb_false_r. reflexivity.
  - destruct (String.eqb x c') eqn:Ex; cbn.
    + apply String.eqb_eq in Ex. subst x. rewrite IH.
      destruct (String.eqb c c'); reflexivity.
    + rewrite IH. destruct (String.eqb c x) eqn:Ec; cbn; [| reflexivity].
      apply String.eqb_eq in Ec. subst c. rewrite Ex. reflexivity.
Qed.

(** Which classes an element carries after [updateTimerStyle]. *)
Lemma updateTimerStyle_classes
    (s : TimerManager) (e : Element) (time : num) (isActive : bool) (c : string) :
  has_class c (updateTimerStyle s e time isActive)
  = if String.eqb c "timer-active" then negb (is_unlimited s) && isActive
    else if String.eqb c "timer-low"
         then negb (is_unlimited s) && num_leb time 30 && negb (num_leb time 10)
    else if String.eqb c "timer-critical"
         then negb (is_unlimited s) && num_leb time 10
    else has_class c e.
Proof.
  unfold updateTimerStyle, has_class.
  destruct (is_unlimited s), isActive, (num_leb time 30), (num_leb time 10);
    cbn [andb negb classList with_classes];
    rewrite ?mem_add, ?mem_remove;
    destruct (String.eqb c "timer-active") eqn:E1;
    destruct (String.eqb c "timer-low") eqn:E2;
    destruct (String.eqb c "timer-critical") eqn:E3;
    cbn; try reflexivity;
    try (apply String.eqb_eq in E1; subst c; discriminate);
    try (apply String.eqb_eq in E2; subst c; discriminate).
Qed.

Lemma updateTimerStyle_text
    (s : TimerManager) (e : Element) (time : num) (isActive : bool) :
  textContent (updateTimerStyle s e time isActive) = textContent e.
Proof.
  unfold updateTimerStyle.
  destruct (is_unlimited s), isActive, (num_leb time 30), (num_leb time 10);
    reflexivity.
Qed.

(** X10. After [updateDisplay()] the two timer elements never both carry
    [timer-active]: the player's element carries it exactly when the
    player is the active side of a finite preset, and likewise the
    opponent's.  No element carries [timer-low] together with
    [timer-critical]; [timer-critical] marks a time of ten seconds or
    less and [timer-low] one above ten and up to thirty.  Under the
    unlimited preset no element carries any of the three.  Classes other
    than the three are kept, and the text is the formatted time. *)
Theorem display_marks_one_clock_at_most (s : TimerManager) (page : Page) :
  let shown := updateDisplay s page in
  (forall side e,
     match side with
     | player => player_timer shown
     | opponent => opponent_timer shown
     end = Some e ->
     textContent e = formatTime (getTime side s)
     /\ has_class "timer-active" e
        = negb (is_unlimited s) && is_side side (activeTimer s)
     /\ has_class "timer-critical" e
        = negb (is_unlimited s) && num_leb (getTime side s) 10
     /\ has_class "timer-low" e
        = negb (is_unlimited s) && num_leb (getTime side s) 30
          && negb (num_leb (getTime side s) 10)
     /\ has_class "timer-low" e && has_class "timer-critical" e = false)
  /\ (forall e e',
        player_timer shown = Some e -> opponent_timer shown = Some e' ->
        has_class "timer-active" e && has_class "timer-active" e' = false)
  /\ (forall side c old,
        c <> "timer-active" -> c <> "timer-low" -> c <> "timer-critical" ->
        match side with
        | player => player_timer page
        | opponent => opponent_timer page
        end = Some old ->
        exists e,
          match side with
          | player => player_timer shown
          | opponent => opponent_timer shown
          end = Some e /\ has_class c e = has_class c old).
Proof.
  cbv zeta.
  assert (Hside : forall side e,
            match side with
            | player => player_timer (updateDisplay s page)
            | opponent => opponent_timer (updateDisplay s page)
            end = Some e ->
            textContent e = formatTime (getTime side s)
            /\ forall c, has_class c e
               = if String.eqb c "timer-active"
                 then negb (is_unlimited s) && is_side side (activeTimer s)
                 else if String.eqb c "timer-low"
                 then negb (is_unlimited s) && num_leb (getTime side s) 30
                      && negb (num_leb (getTime side s) 10)
                 else if String.eqb c "timer-critical"
                 then negb (is_unlimited s) && num_leb (getTime side s) 10
                 else existsb (String.eqb c)
                        match (match side with
                               | player => player_timer page
                               | opponent => opponent_timer page
                               end) with
                        | Some old => classList old
                        | None => []
                        end).
  { intros side e He. unfold updateDisplay in He.
    destruct side; cbn [player_timer opponent_timer] in He.
    - destruct (player_timer page) as [old |]; [| discriminate].
      injection He as <-. split.
      + rewrite updateTimerStyle_text. reflexivity.
      + intro c. rewrite updateTimerStyle_classes. reflexivity.
    - destruct (opponent_timer page) as [old |]; [| discriminate].
      injection He as <-. split.
      + rewrite updateTimerStyle_text. reflexivity.
      + intro c. rewrite updateTimerStyle_classes. reflexivity. }
  split; [| split].
  - intros side e He. destruct (Hside side e He) as [Htext Hclass].
    split; [exact Htext |].
    rewrite (Hclass "timer-active"), (Hclass "timer-critical"), (Hclass "timer-low").
    cbn [String.eqb Ascii.eqb Bool.eqb].
    repeat split; try reflexivity.
    destruct (is_unlimited s), (num_leb (getTime side s) 30),
      (num_leb (getTime side s) 10); reflexivity.
  - intros e e' He He'.
    destruct (Hside player e He) as [_ Hc], (Hside opponent e' He') as [_ Hc'].
    rewrite (Hc "timer-active"), (Hc' "timer-active").
    cbn [String.eqb Ascii.eqb Bool.eqb].
    destruct (is_unlimited s), (activeTimer s) as [[|]|]; reflexivity.
  - intros side c old H1 H2 H3 Hold.
    unfold updateDisplay. destruct side; cbn [player_timer opponent_timer];
      rewrite Hold; (eexists; split; [reflexivity |]);
      rewrite updateTimerStyle_classes;
      (destruct (String.eqb_spec c "timer-active"); [contradiction |]);
      (destruct (String.eqb_spec c "timer-low"); [contradiction |]);
      (destruct (String.eqb_spec c "timer-critical"); [contradiction |]);
      reflexivity.
Qed.

(** ** The formatted time *)

Lemma Qfloor_unique (x : Q) (z : Z) :
  inject_Z z <= x -> x < inject_Z (z + 1) -> Qfloor x = z.
Proof.
  intros Hlo Hhi.
  pose proof (Qfloor_le x) as H1. pose proof (Qlt_floor x) as H2.
  assert (Ha : (z < Qfloor x + 1)%Z)
    by (rewrite Zlt_Qlt; apply Qle_lt_trans with x; assumption).
  assert (Hb : (Qfloor x < z + 1)%Z)
    by (rewrite Zlt_Qlt; apply Qle_lt_trans with x; assumption).
  lia.
Qed.

Lemma checked_below (bound : nat) (test : nat -> bool) (z : Z) :
  forallb test (seq 0 bound) = true ->
  (0 <= z < Z.of_nat bound)%Z -> test (Z.to_nat z) = true.
Proof.
  intros Hall Hz. rewrite forallb_forall in Hall. apply Hall.
  apply in_seq. lia.
Qed.

Lemma seconds_field_width (z : Z) :
  (0 <= z < 60)%Z -> String.length (padStart0 2 (toString z)) = 2%nat.
Proof.
  intro Hz.
  pose proof (@checked_below 60
                (fun n => Nat.eqb (String.length (padStart0 2 (toString (Z.of_nat n)))) 2)
                z) as H.
  cbv beta in H. rewrite Z2Nat.id in H by lia.
  apply Nat.eqb_eq. apply H; [vm_compute; reflexivity | lia].
Qed.

Lemma tenths_field_width (n : Z) :
  (0 <= n < 201)%Z ->
  String.length (padStart0 4 (toString (n / 10) ++ "." ++ toString (n mod 10)))
  = 4%nat.
Proof.
  intro Hn.
  pose proof (@checked_below 201
                (fun k => Nat.eqb
                            (String.length
                               (padStart0 4 (toString (Z.of_nat k / 10) ++ "."
                                             ++ toString (Z.of_nat k mod 10)))) 4)
                n) as H.
  cbv beta in H. rewrite Z2Nat.id in H by lia.
  apply Nat.eqb_eq. apply H; [vm_compute; reflexivity | lia].
Qed.

(** The whole seconds of a time, split into minutes and seconds. *)
Lemma minutes_and_seconds (x : Q) :
  0 <= x ->
  Qfloor (x / 60) = (Qfloor x / 60)%Z
  /\ Qfloor (x - 60 * inject_Z (Qfloor (x / 60))) = (Qfloor x mod 60)%Z.
Proof.
  intro Hx.
  pose proof (Qfloor_le x) as H1. pose proof (Qlt_floor x) as H2.
  rewrite inject_Z_plus in H2. change (inject_Z 1) with 1 in H2.
  pose proof (Z.div_mod (Qfloor x) 60 ltac:(lia)) as Hdm.
  pose proof (Z.mod_pos_bound (Qfloor x) 60 ltac:(lia)) as Hmod.
  set (F := Qfloor x) in *. set (m := (F / 60)%Z) in *. set (r := (F mod 60)%Z) in *.
  assert (HF : inject_Z F == 60 * inject_Z m + inject_Z r).
  { rewrite Hdm, inject_Z_plus, inject_Z_mult. reflexivity. }
  assert (Hr0 : 0 <= inject_Z r)
    by (change 0 with (inject_Z 0); rewrite <- Zle_Qle; lia).
  assert (Hr1 : inject_Z r <= 59)
    by (change 59 with (inject_Z 59); rewrite <- Zle_Qle; lia).
  assert (Hmins : Qfloor (x / 60) = m).
  { apply Qfloor_unique.
    - apply Qle_shift_div_l; [reflexivity |]. lra.
    - rewrite inject_Z_plus. change (inject_Z 1) with 1.
      apply Qlt_shift_div_r; [reflexivity |]. lra. }
  split; [exact Hmins |].
  rewrite Hmins. apply Qfloor_unique.
  - lra.
  - rewrite inject_Z_plus. change (inject_Z 1) with 1. lra.
Qed.

(** X11. [formatTime] shows ["0:00"] for a time of zero or less.  For 20
    seconds or more it shows the whole seconds of the time: the minutes,
    a colon and the seconds below sixty in exactly two characters.  Below
    20 seconds it shows minute 0 and the time rounded to tenths, in
    exactly four characters. *)
Theorem formatTime_shows_whole_seconds_or_tenths (x : Q) :
  (x <= 0 -> formatTime (Fin x) = "0:00")
  /\ (20 <= x ->
      formatTime (Fin x)
      = toString (Qfloor x / 60) ++ ":" ++ padStart0 2 (toString (Qfloor x mod 60))
      /\ String.length (padStart0 2 (toString (Qfloor x mod 60))) = 2%nat)
  /\ (0 < x -> x < 20 ->
      let tenths := Qfloor (x * 10 + 0.5) in
      let field :=
        padStart0 4 (toString (tenths / 10) ++ "." ++ toString (tenths mod 10)) in
      formatTime (Fin x) = "0:" ++ field
      /\ String.length field = 4%nat).
Proof.
  split; [| split].
  - intro Hx. unfold formatTime. apply leb_true in Hx. rewrite Hx. reflexivity.
  - intro Hx. unfold formatTime.
    assert (E1 : leb x 0 = false) by (apply leb_false; lra).
    assert (E2 : ltb x 20 = false) by (apply ltb_false; lra).
    rewrite E1, E2.
    destruct (@minutes_and_seconds x ltac:(lra)) as [Hm Hs].
    rewrite Hs, Hm. split; [reflexivity |].
    apply seconds_field_width. apply Z.mod_pos_bound. lia.
  - intros Hpos Hlow. cbv zeta. unfold formatTime.
    assert (E1 : leb x 0 = false) by (apply leb_false; lra).
    assert (E2 : ltb x 20 = true) by (apply ltb_true; lra).
    rewrite E1, E2.
    assert (Hm : Qfloor (x / 60) = 0%Z).
    { apply Qfloor_unique.
      - apply Qle_shift_div_l; [reflexivity |].
        change (inject_Z 0) with 0. lra.
      - apply Qlt_shift_div_r; [reflexivity |].
        change (inject_Z (0 + 1)) with 1. lra. }
    rewrite Hm. unfold toFixed1.
    assert (Hs : Qfloor ((x - 60 * inject_Z 0) * 10 + 0.5) = Qfloor (x * 10 + 0.5)).
    { apply Qfloor_comp. change (inject_Z 0) with 0. ring. }
    rewrite Hs. split; [reflexivity |].
    apply tenths_field_width.
    pose proof (Qfloor_le (x * 10 + 0.5)) as H1.
    pose proof (Qlt_floor (x * 10 + 0.5)) as H2.
    split.
    + change 0%Z with (Qfloor (inject_Z 0)). apply Qfloor_resp_le.
      change (inject_Z 0) with 0. lra.
    + rewrite Zlt_Qlt. apply Qle_lt_trans with (x * 10 + 0.5); [exact H1 |].
      change (inject_Z 201) with 201. lra.
Qed.

End DisplayFacts.


(* ================================================================== *)
(** * Further properties of the book lookup and of move descriptors *)
(* ================================================================== *)

Module LookupFacts.

Import Str ChessJS Difficulty Engine Vocabulary JSFacts EngineFacts.

Local Open Scope string_scope.

Lemma append_assoc (a b c : string) : (a ++ b) ++ c = a ++ (b ++ c).
Proof. induction a as [| x a IH]; cbn; [reflexivity | rewrite IH; reflexivity]. Qed.

Lemma append_nil_r (a : string) : a ++ "" = a.
Proof. induction a as [| x a IH]; cbn; [reflexivity | rewrite IH; reflexivity]. Qed.

Lemma split_from_nonempty (sep : ascii) (s current : string) :
  split_from sep current s <> [].
Proof.
  revert current. induction s as [| c s IH]; intro current; cbn;
    [discriminate |].
  destruct (Ascii.eqb c sep); [discriminate | apply IH].
Qed.

Lemma join_cons (sep p : string) (rest : list string) :
  rest <> [] -> join sep (p :: rest) = p ++ sep ++ join sep rest.
Proof. destruct rest; [congruence | reflexivity]. Qed.

Lemma join_split_from (sep : ascii) (s current : string) :
  join (String sep "") (split_from sep current s) = current ++ s.
Proof.
  revert current. induction s as [| c s IH]; intro current; cbn [split_from].
  - cbn. rewrite append_nil_r. reflexivity.
  - destruct (Ascii.eqb c sep) eqn:E.
    + apply Ascii.eqb_eq in E. subst c.
      rewrite join_cons by apply split_from_nonempty.
      rewrite IH. reflexivity.
    + rewrite IH, append_assoc. reflexivity.
Qed.

Lemma split_from_field (sep : ascii) (field current : string) :
  free_of sep field = true ->
  split_from sep current field = [current ++ field].
Proof.
  revert current. induction field as [| c f IH]; intros current Hfree; cbn.
  - rewrite append_nil_r. reflexivity.
  - cbn in Hfree. apply andb_true_iff in Hfree as [Hc Hf].
    apply negb_true_iff in Hc. rewrite Hc, (IH _ Hf), append_assoc. reflexivity.
Qed.

Lemma split_from_field_sep (sep : ascii) (field rest current : string) :
  free_of sep field = true ->
  split_from sep current (field ++ String sep rest)
  = (current ++ field) :: split_from sep "" rest.
Proof.
  revert current. induction field as [| c f IH]; intros current Hfree; cbn.
  - rewrite Ascii.eqb_refl, append_nil_r. reflexivity.
  - cbn in Hfree. apply andb_true_iff in Hfree as [Hc Hf].
    apply negb_true_iff in Hc. rewrite Hc, (IH _ Hf), append_assoc. reflexivity.
Qed.

Lemma split_join (sep : ascii) (fields : list string) :
  fields <> [] ->
  forallb (free_of sep) fields = true ->
  split sep (join (String sep "") fields) = fields.
Proof.
  unfold split. induction fields as [| f rest IH]; intros Hne Hfree;
    [congruence |].
  cbn in Hfree. apply andb_true_iff in Hfree as [Hf Hrest].
  destruct rest as [| g rest].
  - cbn [join]. apply split_from_field. exact Hf.
  - rewrite join_cons by discriminate. cbn [append].
    rewrite split_from_field_sep by exact Hf. cbn [append].
    rewrite IH; [reflexivity | discriminate | exact Hrest].
Qed.

Lemma split_from_free (sep : ascii) (s current : string) :
  free_of sep current = true ->
  forallb (free_of sep) (split_from sep current s) = true.
Proof.
  revert current. induction s as [| c s IH]; intros current Hcur; cbn.
  - rewrite Hcur. reflexivity.
  - destruct (Ascii.eqb c sep) eqn:E; cbn.
    + rewrite Hcur. apply IH. reflexivity.
    + apply IH. clear IH. induction current as [| x cur IHc]; cbn.
      * rewrite E. reflexivity.
      * cbn in Hcur. apply andb_true_iff in Hcur as [Hx Hc].
        rewrite Hx. apply IHc. exact Hc.
Qed.

Lemma firstn_free (sep : ascii) (n : nat) (l : list string) :
  forallb (free_of sep) l = true -> forallb (free_of sep) (firstn n l) = true.
Proof.
  revert n. induction l as [| x l IH]; intros [| n] H; cbn; try reflexivity.
  cbn in H. apply andb_true_iff in H as [Hx Hl]. rewrite Hx. apply IH. exact Hl.
Qed.

(** X12. Splitting a string at spaces and joining the pieces with spaces
    gives the string back, and splitting the join of space-free fields
    gives the fields back.  So the key [getOpeningBookMove] builds from a
    FEN is the first four fields and nothing else: whatever follows them,
    the move counters included, does not reach the lookup, and building
    the key of a key changes nothing. *)
Theorem book_key_is_the_first_four_fields :
  (forall s, join " " (split " " s) = s)
  /\ (forall fields,
        fields <> [] -> forallb (free_of " ") fields = true ->
        split " " (join " " fields) = fields)
  /\ (forall fields,
        fields <> [] -> forallb (free_of " ") fields = true ->
        simplify (join " " fields) = join " " (firstn 4 fields))
  /\ (forall fen, simplify (simplify fen) = simplify fen)
  /\ (forall fen color this w,
        getOpeningBookMove (simplify fen) color (this, w)
        = getOpeningBookMove fen color (this, w)).
Proof.
  assert (Hidem : forall fen, simplify (simplify fen) = simplify fen).
  { intro fen. unfold simplify.
    set (fields := firstn 4 (split " " fen)).
    assert (Hfree : forallb (free_of " ") fields = true)
      by (apply firstn_free, split_from_free; reflexivity).
    assert (Hne : fields <> []).
    { subst fields. unfold split.
      pose proof (@split_from_nonempty " " fen "") as H.
      destruct (split_from " " "" fen); [congruence | discriminate]. }
    rewrite (split_join " " Hne Hfree).
    rewrite firstn_all2; [reflexivity |].
    subst fields. rewrite length_firstn. lia. }
  split; [| split; [| split; [| split]]].
  - intro s. unfold split. apply (join_split_from " " s "").
  - intros fields Hne Hfree. apply split_join; assumption.
  - intros fields Hne Hfree. unfold simplify.
    rewrite split_join by assumption. reflexivity.
  - exact Hidem.
  - intros fen color this w. unfold getOpeningBookMove.
    rewrite Hidem. reflexivity.
Qed.

(** X13. A move descriptor and its UCI text determine each other:
    reading the text of a descriptor with two-character squares and at
    most a one-character promotion gives the descriptor back, and the
    descriptor read from a text of four or five characters writes back
    that text.  A text shorter than four characters, or none at all, gives
    no descriptor. *)
Theorem convertToMoveObject_round_trip :
  (forall from to promo,
     String.length from = 2%nat -> String.length to = 2%nat ->
     (forall p, promo = Some p -> String.length p = 1%nat) ->
     convertToMoveObject (Some (uci_of (mkMoveObject from to promo)))
     = Some (mkMoveObject from to promo))
  /\ (forall uci m,
        (String.length uci <= 5)%nat ->
        convertToMoveObject (Some uci) = Some m -> uci_of m = uci)
  /\ (forall uci,
        (String.length uci < 4)%nat -> convertToMoveObject (Some uci) = None)
  /\ convertToMoveObject None = None.
Proof.
  split; [| split; [| split]].
  - intros from to promo Hf Ht Hp.
    destruct from as [| a [| b [| ? ?]]]; try discriminate Hf.
    destruct to as [| c [| d [| ? ?]]]; try discriminate Ht.
    destruct promo as [p |].
    + specialize (Hp p eq_refl).
      destruct p as [| e [| ? ?]]; try discriminate Hp. reflexivity.
    + reflexivity.
  - intros uci m Hlen Hconv.
    destruct uci as [| a [| b [| c [| d [| e [| ? ?]]]]]];
      cbn in Hlen; try lia; try discriminate Hconv;
      injection Hconv as <-; reflexivity.
  - intros uci Hlen. unfold convertToMoveObject.
    apply Nat.ltb_lt in Hlen. rewrite Hlen. reflexivity.
  - reflexivity.
Qed.

Lemma prefix_comparable (a b k : string) :
  String.prefix a k = true -> String.prefix b k = true ->
  String.prefix a b = true \/ String.prefix b a = true.
Proof.
  revert a b. induction k as [| z k IH]; intros [| x a] [| y b]; cbn;
    auto; try discriminate.
  destruct (ascii_dec x z) as [Ex |]; [subst x | discriminate].
  destruct (ascii_dec y z) as [Ey |]; [subst y | discriminate].
  destruct (ascii_dec z z); [| congruence]. apply IH.
Qed.

Lemma prefix_free_unique (book : list (string * list string)) (key : string)
    (e1 e2 : string * list string) :
  prefix_free book = true ->
  In e1 book -> In e2 book ->
  String.prefix (fst e1) key = true -> String.prefix (fst e2) key = true ->
  e1 = e2.
Proof.
  intros Hfree H1 H2 P1 P2.
  destruct (prefix_comparable _ _ _ P1 P2) as [P | P].
  - clear P1 P2. induction book as [| e rest IH]; [destruct H1 |].
    cbn in Hfree. apply andb_true_iff in Hfree as [He Hrest].
    rewrite forallb_forall in He.
    destruct H1 as [-> | H1], H2 as [-> | H2]; auto.
    + specialize (He _ H2). rewrite P in He. discriminate.
    + specialize (He _ H1). rewrite P, andb_false_r in He. discriminate.
  - clear P1 P2. induction book as [| e rest IH]; [destruct H1 |].
    cbn in Hfree. apply andb_true_iff in Hfree as [He Hrest].
    rewrite forallb_forall in He.
    destruct H1 as [-> | H1], H2 as [-> | H2]; auto.
    + specialize (He _ H2). rewrite P, andb_false_r in He. discriminate.
    + specialize (He _ H1). rewrite P in He. discriminate.
Qed.

Lemma books_checked :
  prefix_free Openings.white = true /\ prefix_free Openings.black = true
  /\ book_moves_on_board Openings.white = true
  /\ book_moves_on_board Openings.black = true.
Proof. repeat split; vm_compute; reflexivity. Qed.

Lemma book_of_checked (color : string) :
  prefix_free (book_of color) = true
  /\ book_moves_on_board (book_of color) = true.
Proof.
  unfold book_of. destruct (String.eqb color "white");
    split; apply books_checked.
Qed.

(** X14. In the two books of the program no stored key is a prefix of
    another, so at most one entry can match a position and the order of
    the entries never decides a lookup.  With draws in [0, 1) the lookup
    answers exactly when some stored key is a prefix of the position key,
    and an answer always names two squares of the board and no
    promotion. *)
Theorem book_lookup_is_unambiguous
    (fen color : string) (this : TalEngine) (w : World) :
  fair w ->
  let key := simplify fen in
  let book := book_of color in
  (forall e1 e2, In e1 book -> In e2 book ->
     String.prefix (fst e1) key = true -> String.prefix (fst e2) key = true ->
     e1 = e2)
  /\ (forall found,
        fst (getOpeningBookMove fen color (this, w)) = Returned (Some found) ->
        on_board (mo_from found) = true
        /\ on_board (mo_to found) = true
        /\ mo_promotion found = None)
  /\ (fst (getOpeningBookMove fen color (this, w)) = Returned None
      <-> forall e, In e book -> String.prefix (fst e) key = false).
Proof.
  intros Hfair key book.
  destruct (book_of_checked color) as [Hfree Hboard]. fold book in Hfree, Hboard.
  pose proof (book_of_well_formed color) as Hwf. fold book in Hwf.
  pose proof (getOpeningBookMove_run fen color this w) as Hrun.
  fold key book in Hrun. rewrite (find_simplified key book Hwf) in Hrun.
  split; [| split].
  - intros e1 e2. apply prefix_free_unique. exact Hfree.
  - intros found Hfound. rewrite Hrun in Hfound.
    destruct (find _ book) as [[position candidates] |] eqn:Efind;
      [| discriminate].
    apply find_some in Efind as [Hin _].
    destruct (well_formed_entry book position candidates Hwf Hin) as [Hne Hconv].
    destruct (@pick_in_range _ (draws w (cursor w)) candidates)
      as (uci & Epick & Huci); [apply Hfair | apply Hfair | exact Hne |].
    rewrite Epick, (Hconv uci Huci) in Hfound. cbn in Hfound.
    injection Hfound as <-. cbn [mo_from mo_to mo_promotion].
    unfold book_moves_on_board in Hboard. rewrite forallb_forall in Hboard.
    specialize (Hboard _ Hin). cbn [snd] in Hboard.
    rewrite forallb_forall in Hboard. specialize (Hboard _ Huci).
    apply andb_true_iff in Hboard as [Hboard Hto].
    apply andb_true_iff in Hboard as [Hlen Hfrom].
    apply Nat.eqb_eq in Hlen. rewrite Hlen. auto.
  - rewrite Hrun.
    destruct (find _ book) as [[position candidates] |] eqn:Efind.
    + pose proof Efind as Hsome. apply find_some in Hsome as [Hin Hmatch].
      destruct (well_formed_entry book position candidates Hwf Hin) as [Hne Hconv].
      destruct (@pick_in_range _ (draws w (cursor w)) candidates)
        as (uci & Epick & Huci); [apply Hfair | apply Hfair | exact Hne |].
      rewrite Epick, (Hconv uci Huci). cbn. split; [discriminate |].
      intro Hnone. specialize (Hnone _ Hin). cbn in Hmatch, Hnone. congruence.
    + cbn. split; [| reflexivity]. intros _ e He.
      exact (find_none _ _ Efind e He).
Qed.

Lemma book_lookup_is_unambiguous_witness :
  fair Examples.calm
  /\ let key := simplify (fen Examples.sicilian) in
     let book := book_of "black" in
     (forall e1 e2, In e1 book -> In e2 book ->
        String.prefix (fst e1) key = true -> String.prefix (fst e2) key = true ->
        e1 = e2)
     /\ (forall found,
           fst (getOpeningBookMove (fen Examples.sicilian) "black"
                  (Engine.constructor, Examples.calm))
           = Returned (Some found) ->
           on_board (mo_from found) = true
           /\ on_board (mo_to found) = true
           /\ mo_promotion found = None)
     /\ (fst (getOpeningBookMove (fen Examples.sicilian) "black"
                (Engine.constructor, Examples.calm)) = Returned None
         <-> forall e, In e book -> String.prefix (fst e) key = false).
Proof.
  exact (conj calm_is_fair
           (book_lookup_is_unambiguous (fen Examples.sicilian) "black"
              Engine.constructor calm_is_fair)).
Defined.

End LookupFacts.

(* ================================================================== *)
(** * Further properties of the levels and of move selection *)
(* ================================================================== *)

Module SelectionFacts.

Import Str ChessJS Difficulty Engine Vocabulary JSFacts DifficultyFacts EngineFacts.

Local Open Scope Q_scope.

(** X15. [getDifficulty] answers every name that is not inherited from
    [Object.prototype]: a name that is none of the five level names gets
    the intermediate level, and whatever the name the level returned is
    one of the five, with an intensity in (0, 1], a mistake rate in
    [0, 0.3] and a negative sacrifice threshold.  [setDifficulty]
    installs that level and prints its line. *)
Theorem getDifficulty_falls_back_to_intermediate (level : string) :
  inherited level = false ->
  (lookup level DIFFICULTY_LEVELS = None -> getDifficulty level = intermediate)
  /\ In (getDifficulty level) [beginner; intermediate; advanced; master; legend]
  /\ (0 < talStyleIntensity (getDifficulty level) <= 1
      /\ 0 <= mistakeRate (getDifficulty level) <= 0.3
      /\ sacrificeThreshold (getDifficulty level) < 0)
  /\ forall this w,
       setDifficulty level (this, w)
       = (Returned tt,
          (mkEngine (getDifficulty level) (isThinking this) (game this),
           later 0 [Logged (DifficultySet (name (getDifficulty level))
                                          (rating (getDifficulty level)))] w)).
Proof.
  intros _.
  assert (Hin : In (getDifficulty level)
                   [beginner; intermediate; advanced; master; legend]).
  { unfold getDifficulty. cbn [lookup DIFFICULTY_LEVELS].
    repeat match goal with
           | |- context [String.eqb level ?k] => destruct (String.eqb level k)
           end; cbn; tauto. }
  split; [| split; [exact Hin | split]].
  - intro Hmissing. unfold getDifficulty. rewrite Hmissing. reflexivity.
  - cbn in Hin.
    destruct Hin as [<- | [<- | [<- | [<- | [<- | []]]]]]; cbn; lra.
  - intros this w. reflexivity.
Qed.

Lemma getDifficulty_falls_back_to_intermediate_witness :
  inherited "grandmaster" = false
  /\ ((lookup "grandmaster" DIFFICULTY_LEVELS = None ->
       getDifficulty "grandmaster" = intermediate)
      /\ In (getDifficulty "grandmaster")
            [beginner; intermediate; advanced; master; legend]
      /\ (0 < talStyleIntensity (getDifficulty "grandmaster") <= 1
          /\ 0 <= mistakeRate (getDifficulty "grandmaster") <= 0.3
          /\ sacrificeThreshold (getDifficulty "grandmaster") < 0)
      /\ forall this w,
           setDifficulty "grandmaster" (this, w)
           = (Returned tt,
              (mkEngine (getDifficulty "grandmaster") (isThinking this)
                 (game this),
               later 0 [Logged (DifficultySet
                                  (name (getDifficulty "grandmaster"))
                                  (rating (getDifficulty "grandmaster")))] w))).
Proof.
  assert (H : inherited "grandmaster" = false) by reflexivity.
  exact (conj H (getDifficulty_falls_back_to_intermediate "grandmaster" H)).
Defined.

(** X16. The wait [simulateThinking] asks for lies within 15 per cent of
    the level's think time, for every draw in [0, 1); it takes one draw
    and does nothing else. *)
Theorem thinking_time_within_15_percent (this : TalEngine) (w : World) :
  fair w ->
  0 <= thinkTime (difficulty this) ->
  exists ms,
    simulateThinking (this, w) = (Returned tt, (this, later 1 [Slept ms] w))
    /\ 0.85 * thinkTime (difficulty this) <= ms
    /\ ms <= 1.15 * thinkTime (difficulty this).
Proof.
  intros Hfair Hbase. eexists. split; [apply simulateThinking_run |].
  unfold think_delay. destruct (Hfair (cursor w)) as [H0 H1].
  set (r := draws w (cursor w)) in *. set (base := thinkTime (difficulty this)) in *.
  assert (Hlo : 0 <= r * base) by nra.
  assert (Hhi : r * base <= base) by nra.
  split.
  - setoid_replace (base + r * (base * 0.3) - base * 0.3 / 2)
      with (0.85 * base + 0.3 * (r * base)) by field. lra.
  - setoid_replace (base + r * (base * 0.3) - base * 0.3 / 2)
      with (0.85 * base + 0.3 * (r * base)) by field. lra.
Qed.

Lemma thinking_time_within_15_percent_witness :
  fair Examples.calm
  /\ 0 <= thinkTime (difficulty Examples.legend_engine)
  /\ exists ms,
       simulateThinking (Examples.legend_engine, Examples.calm)
       = (Returned tt, (Examples.legend_engine, later 1 [Slept ms] Examples.calm))
       /\ 0.85 * thinkTime (difficulty Examples.legend_engine) <= ms
       /\ ms <= 1.15 * thinkTime (difficulty Examples.legend_engine).
Proof.
  assert (H2 : 0 <= thinkTime (difficulty Examples.legend_engine)) by discriminate.
  exact (conj calm_is_fair (conj H2
           (thinking_time_within_15_percent Examples.legend_engine
              calm_is_fair H2))).
Defined.

(** X17. The pool of top moves shrinks as the intensity grows: a level
    with more intensity never gets a larger pool.  For an intensity
    between 0 and 1 the pool has two or three moves, three exactly when
    the intensity is below two thirds; the five levels get 3, 3, 3, 2
    and 2. *)
Theorem pool_shrinks_with_intensity :
  (forall d d', talStyleIntensity d <= talStyleIntensity d' ->
                (pool_size d' <= pool_size d)%Z)
  /\ (forall d, 0 <= talStyleIntensity d <= 1 ->
                (2 <= pool_size d <= 3)%Z
                /\ (pool_size d = 3%Z <-> talStyleIntensity d < 2 # 3))
  /\ map pool_size [beginner; intermediate; advanced; master; legend]
     = [3; 3; 3; 2; 2]%Z.
Proof.
  split; [| split].
  - intros d d' Hle. unfold pool_size.
    apply Z.max_le_compat_l. apply Qceiling_resp_le. lra.
  - intros d Hrange. unfold pool_size.
    set (x := 3 * (1 - talStyleIntensity d * 0.5)).
    pose proof (Qle_ceiling x) as Hup. pose proof (Qceiling_lt x) as Hdown.
    assert (Hx : 1.5 <= x <= 3) by (subst x; lra).
    assert (H2 : (2 <= Qceiling x)%Z).
    { assert (H : (1 < Qceiling x)%Z); [| lia].
      rewrite Zlt_Qlt. change (inject_Z 1) with 1. lra. }
    assert (H3 : (Qceiling x <= 3)%Z).
    { assert (H : (Qceiling x - 1 < 3)%Z); [| lia].
      rewrite Zlt_Qlt. change (inject_Z 3) with 3. lra. }
    split; [lia |]. split.
    + intro E. assert (Hc : Qceiling x = 3%Z) by lia.
      rewrite Hc in Hdown. change (inject_Z (3 - 1)) with 2 in Hdown.
      subst x. lra.
    + intro Hlow. assert (Hgt : 2 < x) by (subst x; lra).
      assert (H : (2 < Qceiling x)%Z); [| lia].
      rewrite Zlt_Qlt. change (inject_Z 2) with 2. lra.
  - vm_compute. reflexivity.
Qed.

(** ** The ranking *)

Lemma firstn_subset {A : Type} (n : nat) (l : list A) (a : A) :
  In a (firstn n l) -> In a l.
Proof.
  revert n. induction l as [| y l IH]; intros [| n] H; try destruct H.
  - left. assumption.
  - right. apply (IH n). assumption.
Qed.

Lemma skipn_subset {A : Type} (n : nat) (l : list A) (a : A) :
  In a (skipn n l) -> In a l.
Proof.
  revert l. induction n as [| n IH]; intros l H; [exact H |].
  destruct l as [| y l]; [destruct H |]. right. apply IH. exact H.
Qed.

Lemma insert_permutation (x : Scored) (l : list Scored) :
  Permutation (insert x l) (x :: l).
Proof.
  induction l as [| y l IH]; cbn; [reflexivity |].
  destruct (leb (score y - score x) 0); [reflexivity |].
  rewrite IH. apply perm_swap.
Qed.

Lemma insert_descending (x : Scored) (l : list Scored) :
  descending l -> descending (insert x l).
Proof.
  induction l as [| y l IH]; cbn; [intros _; split; [intros z [] | exact I] |].
  intros [Hy Hl]. destruct (leb (score y - score x) 0) eqn:E.
  - apply leb_true in E. cbn. split; [| split; assumption].
    intros z [<- | Hz]; [lra |]. specialize (Hy z Hz). lra.
  - apply leb_false in E. cbn. split; [| apply IH; assumption].
    intros z Hz. apply insert_In in Hz as [-> | Hz]; [lra | apply Hy; assumption].
Qed.

Lemma insert_with_score (q : Q) (x : Scored) (l : list Scored) :
  with_score q (insert x l) = with_score q (x :: l).
Proof.
  unfold with_score. induction l as [| y l IH]; [reflexivity |].
  cbn [insert]. destruct (leb (score y - score x) 0) eqn:E; [reflexivity |].
  apply leb_false in E. cbn [filter] in *. rewrite IH.
  destruct (Qeq_bool (score x) q) eqn:Ex; [| reflexivity].
  destruct (Qeq_bool (score y) q) eqn:Ey; [| reflexivity].
  apply Qeq_bool_iff in Ex. apply Qeq_bool_iff in Ey. lra.
Qed.

(** X18. [sort] arranges the scored moves in descending order of score
    without adding or dropping any, and it is stable: the moves that
    share a score keep the order in which [game.moves()] listed them. *)
Theorem sort_is_a_stable_descending_arrangement (l : list Scored) :
  Permutation (sort l) l
  /\ descending (sort l)
  /\ forall q, with_score q (sort l) = with_score q l.
Proof.
  induction l as [| x l (IHp & IHd & IHs)]; [repeat split; constructor |].
  change (sort (x :: l)) with (insert x (sort l)). split; [| split].
  - rewrite insert_permutation. constructor. exact IHp.
  - apply insert_descending. exact IHd.
  - intro q. rewrite insert_with_score. unfold with_score in *. cbn [filter].
    rewrite IHs. reflexivity.
Qed.

Lemma sort_descending (l : list Scored) : descending (sort l).
Proof.
  induction l as [| x l IH]; [exact I |].
  change (sort (x :: l)) with (insert x (sort l)). apply insert_descending, IH.
Qed.

Lemma descending_split (n : nat) (l : list Scored) (a z : Scored) :
  descending l -> In a (firstn n l) -> In z (skipn n l) -> score z <= score a.
Proof.
  revert n. induction l as [| y l IH]; intros n Hd Ha Hz.
  - destruct n; destruct Ha.
  - destruct n as [| n]; [destruct Ha |]. cbn in Ha, Hz. destruct Hd as [Hy Hl].
    destruct Ha as [<- | Ha].
    + apply Hy. apply (skipn_subset n). exact Hz.
    + apply (IH n); assumption.
Qed.

Section Pool.

Context {chess : Library}.

Variable W : Modifiers.

(** X19. The pool [calculateBestMove] draws from holds the best scores:
    it has [pool_size] moves, or all of them when there are fewer; each
    is a legal move with the score [evaluateMove] gives it; and no move
    left outside the pool scores more than a move inside. *)
Theorem pool_holds_the_best_scores (this : TalEngine) (game : Game) :
  let ranked := sort (score_all W this (moves game) game) in
  let n := Z.to_nat (pool_size (difficulty this)) in
  length (firstn n ranked) = Nat.min n (length (moves game))
  /\ (forall a, In a (firstn n ranked) ->
        In (s_move a) (moves game)
        /\ score a = evaluateMove W this (s_move a) game)
  /\ (forall a z, In a (firstn n ranked) -> In z (skipn n ranked) ->
        score z <= score a).
Proof.
  cbv zeta. split; [| split].
  - rewrite length_firstn, sort_length. unfold score_all. rewrite length_map.
    reflexivity.
  - intros a Ha. apply firstn_subset in Ha.
    rewrite sort_In in Ha. unfold score_all in Ha.
    apply in_map_iff in Ha as (m & <- & Hm). cbn. auto.
  - intros a z Ha Hz. apply (@descending_split _ _ a z (sort_descending _) Ha Hz).
Qed.

Lemma calculateBestMove_picks (game : Game) (this : TalEngine) (w : World) :
  fair w -> moves game <> [] ->
  exists m events,
    In m (moves game)
    /\ calculateBestMove W game (this, w)
       = (Returned (Some (descriptor m)), (this, later 3 events w)).
Proof.
  intros Hfair Hsome.
  destruct (Hfair (S (S (cursor w)))) as [H0 H1].
  destruct (shouldMakeMistake (difficulty this) (draws w (S (cursor w)))) eqn:E.
  - rewrite (calculateBestMove_mistake W game this w Hsome E). cbv zeta.
    destruct (pick_in_range (l := moves game) H0 H1 Hsome) as (m & -> & Hm).
    exists m. eexists. split; [exact Hm | reflexivity].
  - rewrite (calculateBestMove_scored W game this w Hsome E). cbv zeta.
    pose proof (@top_moves_nonempty _ W this game Hsome) as Htop.
    destruct (pick_in_range H0 H1 Htop) as (a & -> & Ha).
    apply firstn_subset in Ha. rewrite sort_In in Ha.
    unfold score_all in Ha. apply in_map_iff in Ha as (m & <- & Hm).
    exists m. eexists. split; [exact Hm | reflexivity].
Qed.

(** X20. With draws in [0, 1), [calculateBestMove] never fails.  Without
    a legal move it returns [null] at once: no wait, no draw, no line
    printed.  Otherwise it returns the squares and promotion of one of
    the legal moves, after exactly three draws, and leaves the engine as
    it was. *)
Theorem calculateBestMove_returns_a_legal_move
    (game : Game) (this : TalEngine) (w : World) :
  fair w ->
  (moves game = [] ->
     calculateBestMove W game (this, w) = (Returned None, (this, w)))
  /\ (moves game <> [] ->
        exists m events,
          In m (moves game)
          /\ calculateBestMove W game (this, w)
             = (Returned (Some (descriptor m)), (this, later 3 events w))).
Proof.
  intro Hfair. split.
  - intro Hnone. unfold calculateBestMove. rewrite Hnone. reflexivity.
  - intro Hsome. apply calculateBestMove_picks; assumption.
Qed.

(** X21. With draws in [0, 1), [getBestMove] never fails, and when it
    returns the engine has stopped thinking, holds the game it was given
    and has kept its level; it took three draws at most.  It returns
    [null] in one case only: the book has no key for the position and
    the game has no legal move.  A book move is returned as it stands,
    whether the game has a legal move or not. *)
Theorem getBestMove_ends_thinking
    (game : Game) (playerColor : Color) (this : TalEngine) (w : World) :
  fair w ->
  exists result n events,
    getBestMove W game playerColor (this, w)
    = (Returned result,
       (mkEngine (difficulty this) false (Some game), later n events w))
    /\ (n <= 3)%nat
    /\ (result = None <->
        find (fun e => String.prefix (fst e) (simplify (fen game)))
             (book_of (talColor playerColor)) = None
        /\ moves game = []).
Proof.
  intro Hfair.
  set (key := simplify (fen game)). set (book := book_of (talColor playerColor)).
  set (thinking := mkEngine (difficulty this) true (Some game)).
  pose proof (book_of_well_formed (talColor playerColor)) as Hwf. fold book in Hwf.
  pose proof (getOpeningBookMove_run (fen game) (talColor playerColor) thinking w)
    as Hrun.
  fold key book in Hrun. rewrite (find_simplified key book Hwf) in Hrun.
  destruct (find (fun e => String.prefix (fst e) key) book)
    as [[position candidates] |] eqn:Efind.
  - apply find_some in Efind as [Hin _].
    destruct (well_formed_entry book position candidates Hwf Hin) as [Hne Hconv].
    destruct (@pick_in_range _ (draws w (cursor w)) candidates)
      as (uci & Epick & Huci); [apply Hfair | apply Hfair | exact Hne |].
    rewrite Epick, (Hconv uci Huci) in Hrun.
    eexists. exists 2%nat. eexists. split; [| split].
    + rewrite (@getBestMove_book _ W game playerColor this w _ _ Hrun).
      rewrite later_later. reflexivity.
    + lia.
    + split; [discriminate | intros [Hbad _]; discriminate].
  - rewrite (@getBestMove_no_book _ W game playerColor this w Hrun).
    destruct (moves game) as [| m0 rest] eqn:Emoves.
    + exists None, 0%nat, []. split; [| split].
      * unfold bind, calculateBestMove. rewrite Emoves. cbn.
        rewrite later_0_nil. reflexivity.
      * lia.
      * tauto.
    + assert (Hsome : moves game <> []) by (rewrite Emoves; discriminate).
      destruct (calculateBestMove_picks game thinking Hfair Hsome)
        as (m & events & _ & Hcalc).
      exists (Some (descriptor m)), 3%nat, events. split; [| split].
      * subst thinking. unfold bind at 1. rewrite Hcalc. reflexivity.
      * lia.
      * split; [discriminate | intros [_ Hbad]; discriminate].
Qed.

End Pool.

Lemma calculateBestMove_returns_a_legal_move_witness :
  fair Examples.calm
  /\ ((moves Examples.scholars_mate = [] ->
         @calculateBestMove (Examples.scripted []) TAL_STYLE_MODIFIERS
           Examples.scholars_mate (Examples.legend_engine, Examples.calm)
         = (Returned None, (Examples.legend_engine, Examples.calm)))
      /\ (moves Examples.scholars_mate <> [] ->
            exists m events,
              In m (moves Examples.scholars_mate)
              /\ @calculateBestMove (Examples.scripted []) TAL_STYLE_MODIFIERS
                   Examples.scholars_mate (Examples.legend_engine, Examples.calm)
                 = (Returned (Some (descriptor m)),
                    (Examples.legend_engine, later 3 events Examples.calm)))).
Proof.
  exact (conj calm_is_fair
           (@calculateBestMove_returns_a_legal_move (Examples.scripted [])
              TAL_STYLE_MODIFIERS Examples.scholars_mate Examples.legend_engine
              Examples.calm calm_is_fair)).
Defined.

Lemma getBestMove_ends_thinking_witness :
  fair Examples.calm
  /\ exists result n events,
       @getBestMove (Examples.scripted []) TAL_STYLE_MODIFIERS
         Examples.scholars_mate White (Examples.legend_engine, Examples.calm)
       = (Returned result,
          (mkEngine (difficulty Examples.legend_engine) false
             (Some Examples.scholars_mate),
           later n events Examples.calm))
       /\ (n <= 3)%nat
       /\ (result = None <->
           find (fun e => String.prefix (fst e)
                            (simplify (fen Examples.scholars_mate)))
                (book_of (talColor White)) = None
           /\ moves Examples.scholars_mate = []).
Proof.
  exact (conj calm_is_fair
           (@getBestMove_ends_thinking (Examples.scripted [])
              TAL_STYLE_MODIFIERS Examples.scholars_mate White
              Examples.legend_engine Examples.calm calm_is_fair)).
Defined.

End SelectionFacts.

(* ================================================================== *)
(** * Further properties of the board helpers and of the scores *)
(* ================================================================== *)

Module BoardFacts.

Import Str ChessJS Difficulty Engine Vocabulary JSFacts DifficultyFacts EngineFacts.

Local Open Scope Q_scope.

(** ** Distances *)

Lemma nat_of_ascii_injective (c c' : ascii) :
  nat_of_ascii c = nat_of_ascii c' -> c = c'.
Proof.
  intro H. rewrite <- (ascii_nat_embedding c), <- (ascii_nat_embedding c').
  rewrite H. reflexivity.
Qed.

Lemma on_board_shape (square : string) :
  on_board square = true ->
  exists c1 c2,
    square = String c1 (String c2 "")
    /\ charCodeAt0 square = Some (Z.of_nat (nat_of_ascii c1))
    /\ parseInt_at square 1 = Some (Z.of_nat (nat_of_ascii c2) - 48)%Z
    /\ (97 <= Z.of_nat (nat_of_ascii c1) <= 104)%Z
    /\ (1 <= Z.of_nat (nat_of_ascii c2) - 48 <= 8)%Z.
Proof.
  destruct square as [| c1 [| c2 [| c3 rest]]]; try discriminate.
  - intro H. exists c1, c2. unfold on_board in H.
    unfold charCodeAt0, parseInt_at, at_, digit_value in *. cbn [String.get] in *.
    destruct ((48 <=? Z.of_nat (nat_of_ascii c2))
              && (Z.of_nat (nat_of_ascii c2) <=? 57))%Z; [| discriminate].
    repeat rewrite andb_true_iff in H. repeat rewrite Z.leb_le in H.
    repeat split; lia.
  - unfold on_board. intro H.
    destruct (charCodeAt0 _), (parseInt_at _ 1); try discriminate.
    apply andb_true_iff in H as [_ H]. discriminate.
Qed.

(** X22. [squareDistance] is a metric on the squares of the board: it
    does not depend on the order of its arguments; between two squares
    of the board it is a number from 0 to 14, and 0 only from a square
    to itself; and it obeys the triangle inequality.  It is [NaN]
    exactly when one of the squares has no first character or no digit
    in second place. *)
Theorem squareDistance_is_a_metric_on_the_board :
  (forall a b, squareDistance a b = squareDistance b a)
  /\ (forall a b, on_board a = true -> on_board b = true ->
        exists d, squareDistance a b = Some d
                  /\ (0 <= d <= 14)%Z /\ (d = 0%Z <-> a = b))
  /\ (forall a b c x y z,
        squareDistance a b = Some x -> squareDistance b c = Some y ->
        squareDistance a c = Some z -> (z <= x + y)%Z)
  /\ (forall a b,
        squareDistance a b = None <->
        charCodeAt0 a = None \/ parseInt_at a 1 = None
        \/ charCodeAt0 b = None \/ parseInt_at b 1 = None).
Proof.
  split; [| split; [| split]].
  - intros a b. unfold squareDistance.
    destruct (charCodeAt0 a), (parseInt_at a 1), (charCodeAt0 b),
      (parseInt_at b 1); cbn; try reflexivity.
    f_equal. lia.
  - intros a b Ha Hb.
    destruct (on_board_shape a Ha) as (a1 & a2 & -> & Ea1 & Ea2 & Ra1 & Ra2).
    destruct (on_board_shape b Hb) as (b1 & b2 & -> & Eb1 & Eb2 & Rb1 & Rb2).
    unfold squareDistance. rewrite Ea1, Ea2, Eb1, Eb2. cbn.
    eexists. split; [reflexivity |]. split; [lia |]. split.
    + intro Hzero.
      assert (E1 : nat_of_ascii a1 = nat_of_ascii b1) by lia.
      assert (E2 : nat_of_ascii a2 = nat_of_ascii b2) by lia.
      apply nat_of_ascii_injective in E1, E2. subst. reflexivity.
    + intro E. injection E as -> ->. lia.
  - intros a b c x y z. unfold squareDistance.
    destruct (charCodeAt0 a), (parseInt_at a 1), (charCodeAt0 b),
      (parseInt_at b 1), (charCodeAt0 c), (parseInt_at c 1); cbn;
      try discriminate.
    intros [= <-] [= <-] [= <-]. lia.
  - intros a b. unfold squareDistance.
    destruct (charCodeAt0 a), (parseInt_at a 1), (charCodeAt0 b),
      (parseInt_at b 1); cbn; split; try tauto; try discriminate;
      intros [H | [H | [H | H]]]; discriminate.
Qed.

(** ** The king's square *)

Lemma first_some_seq_some {B : Type} (f : nat -> option B) (s n : nat) (b : B) :
  first_some f (seq s n) = Some b ->
  exists a, (s <= a < s + n)%nat /\ f a = Some b
            /\ forall x, (s <= x < a)%nat -> f x = None.
Proof.
  revert s. induction n as [| n IH]; intros s; [discriminate |].
  cbn [seq first_some fold_right]. destruct (f s) as [b' |] eqn:E.
  - intros [= <-]. exists s. split; [lia |]. split; [exact E |]. intros x Hx. lia.
  - intro H. destruct (IH (S s) H) as (a & Ha & Hfa & Hbefore).
    exists a. split; [lia |]. split; [exact Hfa |]. intros x Hx.
    destruct (Nat.eq_dec x s) as [-> |]; [exact E | apply Hbefore; lia].
Qed.

Lemma first_some_seq_none {B : Type} (f : nat -> option B) (s n : nat) :
  first_some f (seq s n) = None ->
  forall x, (s <= x < s + n)%nat -> f x = None.
Proof.
  revert s. induction n as [| n IH]; intros s H x Hx; [lia |].
  cbn [seq first_some fold_right] in H. destruct (f s) as [b' |] eqn:E;
    [discriminate |].
  destruct (Nat.eq_dec x s) as [-> |]; [exact E | apply (IH (S s) H); lia].
Qed.

Lemma Color_eqb_eq (a b : Color) : Color_eqb a b = true <-> a = b.
Proof. destruct a, b; cbn; split; congruence. Qed.

Lemma cell_found (game : Game) (color : Color) (row col : nat) (sq : string) :
  match nth_error (board game) row with
  | Some line =>
      match nth_error line col with
      | Some (Some (king, c)) =>
          if Color_eqb c color
          then match at_ files col with
               | Some f => Some (String f (digit (8 - row)))
               | None => None
               end
          else None
      | _ => None
      end
  | None => None
  end = Some sq ->
  king_at game color row col /\ square_name row col = Some sq.
Proof.
  unfold king_at, square_name.
  destruct (nth_error (board game) row) as [line |]; [| discriminate].
  destruct (nth_error line col) as [[[[] c] |] |] eqn:E; try discriminate.
  destruct (Color_eqb c color) eqn:Ec; [| discriminate].
  apply Color_eqb_eq in Ec. subst c. intro H. split; [| exact H].
  exists line. split; [reflexivity | exact E].
Qed.

Lemma cell_empty (game : Game) (color : Color) (row col : nat) :
  (col < 8)%nat ->
  match nth_error (board game) row with
  | Some line =>
      match nth_error line col with
      | Some (Some (king, c)) =>
          if Color_eqb c color
          then match at_ files col with
               | Some f => Some (String f (digit (8 - row)))
               | None => None
               end
          else None
      | _ => None
      end
  | None => None
  end = None ->
  ~ king_at game color row col.
Proof.
  intros Hcol H (line & Hline & Hking). rewrite Hline, Hking in H.
  assert (Ec : Color_eqb color color = true) by (apply Color_eqb_eq; reflexivity).
  rewrite Ec in H.
  do 8 (destruct col as [| col]; [discriminate |]). lia.
Qed.

(** X23. [findKingSquare] returns the name of the first square, reading
    [game.board()] row by row from rank 8 and each row from file a, on
    which a king of the colour stands; it returns [null] exactly when no
    square of the 8 by 8 board holds one. *)
Theorem findKingSquare_finds_the_first_king (game : Game) (color : Color) :
  match findKingSquare game color with
  | Some square =>
      exists row col,
        (row < 8)%nat /\ (col < 8)%nat
        /\ king_at game color row col
        /\ square_name row col = Some square
        /\ forall row' col',
             (col' < 8)%nat -> king_at game color row' col' ->
             ~ earlier row' col' row col
  | None =>
      forall row col, (row < 8)%nat -> (col < 8)%nat ->
                      ~ king_at game color row col
  end.
Proof.
  destruct (findKingSquare game color) as [square |] eqn:E;
    unfold findKingSquare in E.
  - apply first_some_seq_some in E as (row & Hrow & E & Hrows).
    apply first_some_seq_some in E as (col & Hcol & E & Hcols).
    apply cell_found in E as [Hking Hname].
    exists row, col. repeat split; try lia; try assumption.
    intros row' col' Hcol' Hking' [Hearlier | [-> Hearlier]].
    + assert (Hnone := Hrows row' ltac:(lia)). cbv beta in Hnone.
      assert (Hcell := @first_some_seq_none _ _ _ _ Hnone col' ltac:(lia)).
      cbv beta in Hcell.
      exact (@cell_empty game color row' col' Hcol' Hcell Hking').
    + assert (Hcell := Hcols col' ltac:(lia)).
      exact (@cell_empty game color row col' Hcol' Hcell Hking').
  - intros row col Hrow Hcol.
    assert (Hnone := @first_some_seq_none _ _ _ _ E row ltac:(lia)).
    cbv beta in Hnone.
    assert (Hcell := @first_some_seq_none _ _ _ _ Hnone col ltac:(lia)).
    cbv beta in Hcell.
    exact (@cell_empty game color row col Hcol Hcell).
Qed.

(** ** The sign of the Tal-style bonus *)

Ltac sign_case :=
  split;
  [ lra
  | split;
    [ intro; first [exfalso; lra | split; reflexivity]
    | let H := fresh in
      intro H; first [lra | exfalso; apply H; reflexivity] ] ].

(** X24. With the weights of the program and an intensity that is not
    negative, the Tal-style bonus is never below the retreat penalty, 50
    times the intensity.  It is negative only for a move that takes
    nothing and goes back toward its own side; a capture is never
    penalised. *)
Theorem only_quiet_retreats_are_penalised (m : Move) (game : Game) (d : Level) :
  0 <= talStyleIntensity d ->
  - (50) * talStyleIntensity d
    <= calculateTalStyleBonus TAL_STYLE_MODIFIERS m game d
  /\ (calculateTalStyleBonus TAL_STYLE_MODIFIERS m game d < 0 ->
      captured m = None /\ retreats m = true)
  /\ (captured m <> None ->
      0 <= calculateTalStyleBonus TAL_STYLE_MODIFIERS m game d).
Proof.
  intro Hi. unfold calculateTalStyleBonus, retreats. cbv zeta.
  cbn [sacrifice kingAttack check centerControl pieceActivity passivePiece
       TAL_STYLE_MODIFIERS].
  set (i := talStyleIntensity d) in *.
  assert (Hnear : forall before after,
            nan_ltb after before = true ->
            0 <= i * value before - i * value after).
  { intros [before |] [after |] Enear; try discriminate. cbn [nan_ltb value] in *.
    apply Z.ltb_lt in Enear. rewrite Zlt_Qlt in Enear. nra. }
  destruct (findKingSquare game (other (color m))) as [square |].
  - destruct (nan_ltb (squareDistance (to m) square)
                      (squareDistance (from m) square)) eqn:Enear.
    + apply Hnear in Enear. revert Enear.
      generalize (value (squareDistance (from m) square))
                 (value (squareDistance (to m) square)).
      intros before after Enear. split_tests; sign_case.
    + split_tests; sign_case.
  - split_tests; sign_case.
Qed.

Lemma only_quiet_retreats_are_penalised_witness :
  0 <= talStyleIntensity legend
  /\ (- (50) * talStyleIntensity legend
        <= calculateTalStyleBonus TAL_STYLE_MODIFIERS Examples.Nf3
             Examples.scholars_mate legend
      /\ (calculateTalStyleBonus TAL_STYLE_MODIFIERS Examples.Nf3
            Examples.scholars_mate legend < 0 ->
          captured Examples.Nf3 = None /\ retreats Examples.Nf3 = true)
      /\ (captured Examples.Nf3 <> None ->
          0 <= calculateTalStyleBonus TAL_STYLE_MODIFIERS Examples.Nf3
                 Examples.scholars_mate legend)).
Proof.
  assert (H : 0 <= talStyleIntensity legend) by discriminate.
  exact (conj H (@only_quiet_retreats_are_penalised Examples.Nf3
                   Examples.scholars_mate legend H)).
Defined.

(** ** The intensity in the scores *)

Lemma calculateTalStyleBonus_proportional
    (W : Modifiers) (m : Move) (game : Game) (d : Level) (k : Q) :
  calculateTalStyleBonus W m game (with_intensity k d)
  == k * calculateTalStyleBonus W m game (with_intensity 1 d).
Proof.
  unfold calculateTalStyleBonus, with_intensity. cbn [talStyleIntensity].
  split_tests; ring.
Qed.

Section Intensity.

Context {chess : Library}.

Variable W : Modifiers.
Variable this : TalEngine.
Variable game : Game.
Variable m : Move.

(** The engine with its level set to the intensity [v]. *)
Let tuned (v : Q) : TalEngine :=
  mkEngine (with_intensity v (difficulty this)) (isThinking this)
    (Engine.game this).

Lemma evaluateSacrifice_proportional (k : Q) :
  evaluateSacrifice (tuned k) m game == k * evaluateSacrifice (tuned 1) m game.
Proof.
  unfold evaluateSacrifice, tuned, with_intensity.
  cbn [difficulty talStyleIntensity sacrificeThreshold].
  split_tests; ring.
Qed.

Lemma evaluateKingAttack_proportional (k : Q) :
  evaluateKingAttack (tuned k) m game == k * evaluateKingAttack (tuned 1) m game.
Proof.
  unfold evaluateKingAttack, tuned, with_intensity.
  cbn [difficulty talStyleIntensity].
  split_tests; ring.
Qed.

(** X25. The intensity of the level enters a score linearly: the score
    at intensity [k] is the score at intensity 0 plus [k] times what the
    step from 0 to 1 adds, the Tal-style bonus is [k] times the bonus at
    intensity 1, and at intensity 0 what is left is the material taken,
    the mate or check term and the piece activity. *)
Theorem intensity_enters_scores_linearly (k : Q) :
  let at_intensity v :=
    mkEngine (with_intensity v (difficulty this)) (isThinking this)
      (Engine.game this) in
  evaluateMove W (at_intensity k) m game
  == evaluateMove W (at_intensity 0) m game
     + k * (evaluateMove W (at_intensity 1) m game
            - evaluateMove W (at_intensity 0) m game)
  /\ calculateTalStyleBonus W m game (with_intensity k (difficulty this))
     == k * calculateTalStyleBonus W m game (with_intensity 1 (difficulty this))
  /\ evaluateMove W (at_intensity 0) m game
     == match captured m with Some c => pieceValues c * 1.5 | None => 0 end
        + (if in_checkmate (move (Chess (fen game)) m) then 100000
           else if in_check (move (Chess (fen game)) m) then check W else 0)
        + evaluatePieceActivity this m game.
Proof.
  cbv zeta beta. fold (tuned k) (tuned 0) (tuned 1).
  pose proof (evaluateMove_terms (tuned k) game m W) as Hk.
  pose proof (evaluateMove_terms (tuned 0) game m W) as H0.
  pose proof (evaluateMove_terms (tuned 1) game m W) as H1.
  pose proof (calculateTalStyleBonus_proportional W m game (difficulty this) k) as Bk.
  pose proof (calculateTalStyleBonus_proportional W m game (difficulty this) 0) as B0.
  pose proof (evaluateSacrifice_proportional k) as Sk.
  pose proof (evaluateSacrifice_proportional 0) as S0.
  pose proof (evaluateKingAttack_proportional k) as Kk.
  pose proof (evaluateKingAttack_proportional 0) as K0.
  assert (P : forall v, evaluatePieceActivity (tuned v) m game
                        = evaluatePieceActivity this m game) by reflexivity.
  rewrite (P k) in Hk. rewrite (P 0) in H0. rewrite (P 1) in H1.
  change (difficulty (tuned k)) with (with_intensity k (difficulty this)) in Hk.
  change (difficulty (tuned 0)) with (with_intensity 0 (difficulty this)) in H0.
  change (difficulty (tuned 1)) with (with_intensity 1 (difficulty this)) in H1.
  cbn [talStyleIntensity with_intensity] in Hk, H0, H1.
  split; [| split; [exact Bk |]].
  - rewrite Hk, H0, H1. rewrite Bk, B0.
    destruct (captured m); destruct (isComplexPosition game);
      try rewrite Sk, S0; rewrite Kk, K0; ring.
  - rewrite H0, B0.
    destruct (captured m); destruct (isComplexPosition game);
      try rewrite S0; rewrite K0; ring.
Qed.

End Intensity.

End BoardFacts.

(* ================================================================== *)
(** * Properties of the page: the evaluation bar and the move list *)
(* ================================================================== *)

Module ApplicationFacts.

Import JS Str ChessJS Application JSFacts Binary64Facts.

Local Open Scope Q_scope.

(** ** The evaluation bar *)

Lemma count_row_swapped (row : list (option (PieceType * Color))) (a b : Q) :
  fold_left count_piece
    (map (option_map (fun pc : PieceType * Color =>
                        (fst pc, match snd pc with
                                 | White => Black
                                 | Black => White
                                 end))) row) (b, a)
  = (snd (fold_left count_piece row (a, b)), fst (fold_left count_piece row (a, b))).
Proof.
  revert a b. induction row as [| sq row IH]; intros a b; [reflexivity |].
  cbn [map fold_left].
  destruct sq as [[t []] |]; cbn [option_map count_piece fst snd]; apply IH.
Qed.

Lemma count_board_swapped (boardState : list (list (option (PieceType * Color))))
    (a b : Q) :
  fold_left (fun scores row => fold_left count_piece row scores)
            (swap_colors boardState) (b, a)
  = (snd (fold_left (fun scores row => fold_left count_piece row scores)
                    boardState (a, b)),
     fst (fold_left (fun scores row => fold_left count_piece row scores)
                    boardState (a, b))).
Proof.
  revert a b. induction boardState as [| row rows IH]; intros a b; [reflexivity |].
  unfold swap_colors in *. cbn [map fold_left]. rewrite count_row_swapped.
  destruct (fold_left count_piece row (a, b)) as [a' b']. cbn [fst snd].
  apply IH.
Qed.

Lemma clamp_cases (x : Q) :
  (x <= 5 /\ Qmax 5 (Qmin 95 x) == 5)
  \/ (5 <= x <= 95 /\ Qmax 5 (Qmin 95 x) == x)
  \/ (95 <= x /\ Qmax 5 (Qmin 95 x) == 95).
Proof.
  unfold Qmax, Qmin.
  destruct (leb 95 x) eqn:E1.
  - apply leb_true in E1. right. right. split; [exact E1 |].
    destruct (leb 5 95) eqn:E2; [reflexivity | apply leb_false in E2; lra].
  - apply leb_false in E1. destruct (leb 5 x) eqn:E2.
    + apply leb_true in E2. right. left. split; [lra | reflexivity].
    + apply leb_false in E2. left. split; [lra | reflexivity].
Qed.

(** X26. The white bar of [updateEvaluation] is always between 5 and 95
    per cent high.  Exchanging the colours of all pieces exchanges the
    two sums and negates the difference shown; with equal sums the
    difference is 0, the bar stands at 50 and no sign is printed.  The
    sums are binary64 sums: after 1.e4 d5 2.exd5 Bh3 3.gxh3, with White a
    bishop and a pawn up, the difference held is 4.199999999999996 and
    the bar stands at 62.59999999999999 per cent, below the 62.6 of the
    exact sums. *)
Theorem evaluation_bar_is_clamped_and_symmetric
    (boardState : list (list (option (PieceType * Color)))) :
  let shown := updateEvaluation boardState in
  let mirrored := updateEvaluation (swap_colors boardState) in
  5 <= clampedPercent shown <= 95
  /\ count_board (swap_colors boardState)
     = (snd (count_board boardState), fst (count_board boardState))
  /\ diff mirrored == - diff shown
  /\ (fst (count_board boardState) == snd (count_board boardState) ->
      diff shown = 0 /\ clampedPercent shown = 50 /\ sign shown = ""%string)
  /\ (diff (updateEvaluation after_gxh3)
      == 591097451092377 # 140737488355328
      /\ clampedPercent (updateEvaluation after_gxh3)
         == 8810166771043531 # 140737488355328
      /\ clampedPercent (updateEvaluation after_gxh3) < 62.6).
Proof.
  cbv zeta. unfold updateEvaluation, count_board.
  rewrite (count_board_swapped boardState 0 0).
  destruct (fold_left (fun scores row => fold_left count_piece row scores)
                      boardState (0, 0)) as [white black].
  cbn [fst snd clampedPercent diff sign].
  split; [| split; [reflexivity | split; [| split]]].
  - destruct (clamp_cases (Binary64.add 50
                             (Binary64.mul (Binary64.sub white black) 3)))
      as [[H E] | [[H E] | [H E]]]; rewrite E; lra.
  - unfold Binary64.sub.
    rewrite (@round_equal (black - white) (- (white - black))) by ring.
    apply round_opp.
  - intro Hequal. unfold Binary64.sub.
    rewrite (@round_equal (white - black) 0) by (rewrite Hequal; ring).
    repeat split; vm_compute; reflexivity.
  - repeat split; vm_compute; reflexivity.
Qed.

(** ** The move list *)

Lemma rows_from_pairs (bound : nat) :
  forall (number : nat) (l : list Move), (length l <= bound)%nat ->
    length (rows_from number l) = Nat.div2 (S (length l))
    /\ map moveNum (rows_from number l) = seq number (length (rows_from number l))
    /\ (forall i r, nth_error (rows_from number l) i = Some r ->
          option_map san (nth_error l (2 * i)) = Some (whiteMove r)
          /\ blackMove r = match nth_error l (2 * i + 1) with
                           | Some b => san b
                           | None => ""%string
                           end)
    /\ ((forall x, In x l -> san x <> ""%string) ->
        shown (rows_from number l) = map san l).
Proof.
  induction bound as [| bound IH]; intros number l Hlen.
  - destruct l; [| cbn in Hlen; lia].
    split; [reflexivity | split; [reflexivity | split; [| reflexivity]]].
    intros [| i] r H; discriminate.
  - destruct l as [| w [| b rest]].
    + split; [reflexivity | split; [reflexivity | split; [| reflexivity]]].
      intros [| i] r H; discriminate.
    + split; [reflexivity | split; [reflexivity | split; [| reflexivity]]].
      intros [| [| i]] r H; cbn in H; try discriminate.
      injection H as <-. split; reflexivity.
    + cbn [length] in Hlen.
      destruct (IH (S number) rest ltac:(lia)) as (Hn & Hnum & Hrows & Hshown).
      cbn [rows_from]. split; [| split; [| split]].
      * cbn [length]. rewrite Hn. reflexivity.
      * cbn [map length seq moveNum]. rewrite Hnum. reflexivity.
      * intros [| i] r H.
        -- injection H as <-. cbn. split; reflexivity.
        -- cbn [nth_error] in H. destruct (Hrows i r H) as [Hw Hb].
           replace (2 * S i)%nat with (S (S (2 * i))) by lia.
           replace (S (S (2 * i)) + 1)%nat with (S (S (2 * i + 1))) by lia.
           cbn [nth_error]. split; assumption.
      * intro Hsan. cbn [shown whiteMove blackMove map].
        destruct (String.eqb (san b) "") eqn:E.
        -- apply String.eqb_eq in E. exfalso.
           apply (Hsan b); [right; left; reflexivity | exact E].
        -- rewrite Hshown; [reflexivity |].
           intros x Hx. apply Hsan. right. right. exact Hx.
Qed.

(** X27. [updateMoveHistory] appends the move and shows the history two
    moves to a row: row i (from 0) carries the number i + 1, move 2i as
    White's and move 2i + 1 as Black's, left empty when the history ends
    before it; there are as many rows as half the moves, rounded up.
    When no move has an empty SAN the rows read in order give back the
    SANs of the history. *)
Theorem move_list_pairs_the_history (moveHistory : list Move) (m : Move) :
  let after := fst (updateMoveHistory moveHistory m) in
  let rows := snd (updateMoveHistory moveHistory m) in
  after = (moveHistory ++ [m])%list
  /\ length rows = Nat.div2 (S (length after))
  /\ map moveNum rows = seq 1 (length rows)
  /\ (forall i r, nth_error rows i = Some r ->
        option_map san (nth_error after (2 * i)) = Some (whiteMove r)
        /\ blackMove r = match nth_error after (2 * i + 1) with
                         | Some b => san b
                         | None => ""%string
                         end)
  /\ ((forall x, In x after -> san x <> ""%string) ->
      shown rows = map san after).
Proof.
  cbv zeta. unfold updateMoveHistory. cbn [fst snd].
  split; [reflexivity |].
  apply (@rows_from_pairs (length (moveHistory ++ [m])) 1%nat (moveHistory ++ [m])).
  lia.
Qed.

End ApplicationFacts.
